(** * apply_kernelsu.py: the KernelSU tree patcher, embedded and verified

    The script edits three build-description files of a kernel tree
    (drivers/Makefile, drivers/Kconfig, the RMX3265 defconfig), optionally
    rewrites scripts/dtc/Makefile, copies the KernelSU sources into
    drivers/kernelsu and applies an optional patch with git.

    Modelling choices, fixed here once:
    - a Python [str] is a list of Unicode code points ([N]); the texts
      met are those UTF-8 can encode (no lone surrogate), as are the
      literals of the script and every text read from a file;
    - a file holds bytes, taken up to the UTF-8 codec: a sequence of
      encoded code points and of byte sequences that UTF-8 cannot decode.
      Reading decodes with [errors="replace"], which turns each of the
      latter into U+FFFD, and translates "\r\n" and "\r" to "\n" (text
      mode, universal newlines); writing with [newline="\n"] encodes the
      text as it is;
    - [re] is modelled by a backtracking matcher over the fragment of the
      pattern language the script uses (literals, [.], [\s], greedy [*],
      [+], [?] on one-character atoms, [^] and [$] under [re.MULTILINE]);
    - the file system is a tree of directories and regular files addressed
      by absolute paths (lists of components); symbolic links, permissions
      and I/O failures other than a missing or ill-typed path are not
      modelled;
    - Python exceptions are values: every operation maps a file system to a
      file system and either a result or the exception raised, so that the
      mutations done before a failure stay visible. *)

From Stdlib Require Import NArith List Ascii String Lia Bool Arith.
From stdpp Require Import gmap strings list.

Local Open Scope N_scope.
Local Open Scope nat_scope.

(** ** Text *)

Abbreviation char := N (only parsing).
Abbreviation text := (list N) (only parsing).

(** An ASCII literal of the source as a text. *)
Definition str (s : string) : text := N_of_ascii <$> list_ascii_of_string s.

Definition nl : char := 10%N.
Definition cr : char := 13%N.
Definition backslash : char := 92%N.

(** [s.startswith(p)] *)
Fixpoint starts_with (p s : text) : bool :=
  match p, s with
  | [], _ => true
  | _ :: _, [] => false
  | a :: p', b :: s' => (a =? b)%N && starts_with p' s'
  end.

(** [sub in s] *)
Fixpoint is_in (sub s : text) : bool :=
  starts_with sub s ||
  match s with
  | [] => false
  | _ :: s' => is_in sub s'
  end.

(** [s.endswith("\n")] *)
Definition ends_with_nl (s : text) : bool :=
  match last s with
  | Some c => (c =? nl)%N
  | None => false
  end.

(** [s.find("\n")] on a suffix: offset of the first newline, if any. *)
Fixpoint find_nl (s : text) : option nat :=
  match s with
  | [] => None
  | c :: s' => if (c =? nl)%N then Some 0 else S <$> find_nl s'
  end.

(** [s.replace(old, new)]: non-overlapping occurrences, left to right.
    [skip] counts the characters of the occurrence being replaced that are
    still to be dropped.  (For an empty [old] Python inserts [new] around
    every character; the script never does this and the case is not met:
    its [old] is a fixed non-empty name.) *)
Fixpoint replace_from (old new : text) (skip : nat) (s : text) : text :=
  match skip, s with
  | S k, _ :: s' => replace_from old new k s'
  | S _, [] => []
  | 0, [] => []
  | 0, c :: s' =>
      if starts_with old s
      then new ++ replace_from old new (length old - 1) s'
      else c :: replace_from old new 0 s'
  end.

Definition replace (old new s : text) : text := replace_from old new 0 s.

(** Universal newlines on read: "\r\n" and a lone "\r" become "\n". *)
Fixpoint universal_newlines (s : text) : text :=
  match s with
  | [] => []
  | c :: s' =>
      if (c =? cr)%N
      then match s' with
           | d :: s'' => if (d =? nl)%N then universal_newlines s'
                         else nl :: universal_newlines s'
           | [] => [nl]
           end
      else c :: universal_newlines s'
  end.

(** ** The bytes of a file *)

(** The content of a file, up to the UTF-8 codec: the encoding of a code
    point, or a byte sequence that is not valid UTF-8 ([b] tells such
    sequences apart). *)
Inductive byte_unit :=
| Chr (c : char)
| Undecodable (b : N).

Abbreviation bytes := (list byte_unit) (only parsing).

(** U+FFFD, the replacement character. *)
Definition replacement_char : char := 65533%N.

(** [b.decode("utf-8", errors="replace")] *)
Definition decode_utf8 (d : bytes) : text :=
  (fun u => match u with
            | Chr c => c
            | Undecodable _ => replacement_char
            end) <$> d.

(** [s.encode("utf-8")] *)
Definition encode_utf8 (t : text) : bytes := Chr <$> t.

(** The [str] that reading a file with the bytes [d] in text mode
    yields: decoded, then with universal newlines. *)
Definition text_of (d : bytes) : text := universal_newlines (decode_utf8 d).

(** ** Regular expressions (the fragment of [re] the script uses) *)

(** One-character atoms. *)
Inductive cset :=
| CLit (c : char)    (* a literal character, also an escaped one *)
| CDot               (* [.]: anything but a newline *)
| CSpace.            (* [\s]: Unicode white space *)

(** [str.isspace] on one code point, which is what [\s] tests in a [str]
    pattern. *)
Definition is_space (c : char) : bool :=
  ((9 <=? c) && (c <=? 13) || (28 <=? c) && (c <=? 32) ||
   (c =? 133) || (c =? 160) || (c =? 5760) ||
   (8192 <=? c) && (c <=? 8202) || (c =? 8232) || (c =? 8233) ||
   (c =? 8239) || (c =? 8287) || (c =? 12288))%N.

Definition accepts (cs : cset) (c : char) : bool :=
  match cs with
  | CLit d => (c =? d)%N
  | CDot => negb (c =? nl)%N
  | CSpace => is_space c
  end.

Inductive item :=
| IOne (cs : cset)    (* atom *)
| IStar (cs : cset)   (* atom followed by a greedy star *)
| IPlus (cs : cset)   (* atom followed by a greedy plus *)
| IOpt (cs : cset)    (* atom followed by a greedy question mark *)
| IBol                (* ^ under MULTILINE *)
| IEol.               (* $ under MULTILINE *)

Abbreviation regex := (list item) (only parsing).

(** A literal string inside a pattern; [re.escape(s)] denotes the same. *)
Definition lit (s : text) : regex := (fun c => IOne (CLit c)) <$> s.

(** [^] under MULTILINE: at the start of the text or just after a newline.
    [prev] is the character before the position, if any. *)
Definition at_bol (prev : option char) : bool :=
  match prev with
  | None => true
  | Some c => (c =? nl)%N
  end.

(** [$] under MULTILINE: at the end of the text or just before a newline. *)
Definition at_eol (s : text) : bool :=
  match s with
  | [] => true
  | c :: _ => (c =? nl)%N
  end.

(** Greedy repetition of one atom, then the continuation [k]; on failure
    of the longer attempt the shorter one is tried (backtracking). *)
Fixpoint star (cs : cset) (k : option char -> text -> option nat)
    (prev : option char) (s : text) : option nat :=
  match s with
  | c :: s' =>
      if accepts cs c
      then match star cs k (Some c) s' with
           | Some n => Some (S n)
           | None => k prev s
           end
      else k prev s
  | [] => k prev s
  end.

(** [match_here r prev s]: the pattern matched at the start of [s], the
    character before being [prev]; the result is the length of the match
    the backtracking search finds first. *)
Fixpoint match_here (r : regex) (prev : option char) (s : text) : option nat :=
  match r with
  | [] => Some 0
  | IOne cs :: r' =>
      match s with
      | c :: s' => if accepts cs c then S <$> match_here r' (Some c) s' else None
      | [] => None
      end
  | IStar cs :: r' => star cs (match_here r') prev s
  | IPlus cs :: r' =>
      match s with
      | c :: s' =>
          if accepts cs c then S <$> star cs (match_here r') (Some c) s' else None
      | [] => None
      end
  | IOpt cs :: r' =>
      match s with
      | c :: s' =>
          if accepts cs c
          then match match_here r' (Some c) s' with
               | Some n => Some (S n)
               | None => match_here r' prev s
               end
          else match_here r' prev s
      | [] => match_here r' prev s
      end
  | IBol :: r' => if at_bol prev then match_here r' prev s else None
  | IEol :: r' => if at_eol s then match_here r' prev s else None
  end.

(** Scan for the leftmost match; [pos] is the offset of [s] in the text.
    The result is [(m.start(), m.end())]. *)
Fixpoint search_from (r : regex) (pos : nat) (prev : option char) (s : text)
    : option (nat * nat) :=
  match match_here r prev s with
  | Some n => Some (pos, pos + n)
  | None =>
      match s with
      | [] => None
      | c :: s' => search_from r (S pos) (Some c) s'
      end
  end.

(** [re.search(r, s, flags=re.MULTILINE)] *)
Definition re_search (r : regex) (s : text) : option (nat * nat) :=
  search_from r 0 None s.

(** Substitution of every match, left to right; [skip] counts the
    characters of the current match still to be dropped.  After an empty
    match the scan moves one character on, as [re] does. *)
Fixpoint sub_from (r : regex) (repl : text) (skip : nat) (prev : option char)
    (s : text) : text :=
  match skip with
  | S k =>
      match s with
      | c :: s' => sub_from r repl k (Some c) s'
      | [] => []
      end
  | 0 =>
      match match_here r prev s with
      | Some (S k) =>
          repl ++ match s with
                  | c :: s' => sub_from r repl k (Some c) s'
                  | [] => []
                  end
      | Some 0 =>
          repl ++ match s with
                  | c :: s' => c :: sub_from r repl 0 (Some c) s'
                  | [] => []
                  end
      | None =>
          match s with
          | c :: s' => c :: sub_from r repl 0 (Some c) s'
          | [] => []
          end
      end
  end.

(** [re.sub(r, repl, s, flags=re.MULTILINE)] for a replacement template
    without a backslash, which stands for itself. *)
Definition re_sub (r : regex) (repl : text) (s : text) : text :=
  sub_from r repl 0 None s.

(** The three patterns of the script. *)

(** [^obj-\$\(CONFIG_.*\)\s*\+=.*$] *)
Definition obj_anchor : regex :=
  IBol :: lit (str "obj-$(CONFIG_") ++
  IStar CDot :: IOne (CLit 41%N) :: IStar CSpace :: lit (str "+=") ++
  [IStar CDot; IEol].

(** [^#\s*CONFIG_<sym>\s+is\s+not\s+set\s*$\n?] *)
Definition not_set_re (sym : text) : regex :=
  IBol :: IOne (CLit 35%N) :: IStar CSpace :: lit (str "CONFIG_" ++ sym) ++
  IPlus CSpace :: lit (str "is") ++ IPlus CSpace :: lit (str "not") ++
  IPlus CSpace :: lit (str "set") ++ [IStar CSpace; IEol; IOpt (CLit nl)].

(** [^CONFIG_<sym>=] *)
Definition assign_prefix_re (sym : text) : regex :=
  IBol :: lit (str "CONFIG_" ++ sym ++ str "=").

(** [^CONFIG_<sym>=.*$] *)
Definition assign_line_re (sym : text) : regex :=
  IBol :: lit (str "CONFIG_" ++ sym ++ str "=") ++ [IStar CDot; IEol].

(** ** The file system *)

Abbreviation path := (list string) (only parsing).

(** [str(p)] of an absolute POSIX path. *)
Definition path_str (p : path) : text :=
  match p with
  | [] => [47%N]
  | _ => concat ((fun c => 47%N :: str c) <$> p)
  end.

#[warnings="-register-all"]
Inductive node :=
| File (data : bytes)
| Dir (entries : gmap string node).

Fixpoint fs_lookup (p : path) (n : node) : option node :=
  match p with
  | [] => Some n
  | c :: p' =>
      match n with
      | Dir es => match es !! c with
                  | Some m => fs_lookup p' m
                  | None => None
                  end
      | File _ => None
      end
  end.

(** Put [v] at [p], creating the missing directories on the way (as
    [os.makedirs] does); [None] when a component of [p] is a regular file. *)
Fixpoint fs_put (p : path) (v : node) (n : node) : option node :=
  match p with
  | [] => Some v
  | c :: p' =>
      match n with
      | Dir es =>
          match fs_put p' v (default (Dir ∅) (es !! c)) with
          | Some m => Some (Dir (<[c := m]> es))
          | None => None
          end
      | File _ => None
      end
  end.

(** Remove the entry at [p] with everything below it. *)
Fixpoint fs_remove (p : path) (n : node) : node :=
  match p with
  | [] => n
  | c :: p' =>
      match n with
      | Dir es =>
          match p' with
          | [] => Dir (delete c es)
          | _ => match es !! c with
                 | Some m => Dir (<[c := fs_remove p' m]> es)
                 | None => n
                 end
          end
      | File _ => n
      end
  end.

Definition parent (p : path) : path := removelast p.

(** A component on the way to [p] is a regular file; the system calls
    then fail with ENOTDIR, not with ENOENT. *)
Fixpoint through_file (p : path) (n : node) : bool :=
  match p with
  | [] => false
  | c :: p' =>
      match n with
      | File _ => true
      | Dir es => match es !! c with
                  | Some m => through_file p' m
                  | None => false
                  end
      end
  end.

(** The shortest prefix of [p] that has a regular file strictly above
    it: the path at which [os.makedirs] fails with ENOTDIR. *)
Fixpoint below_file (p : path) (n : node) : path :=
  match p with
  | [] => []
  | c :: p' =>
      match n with
      | File _ => [c]
      | Dir es => c :: match es !! c with
                       | Some m => below_file p' m
                       | None => []
                       end
      end
  end.

(** ** Exceptions and the state-and-exception monad *)

Inductive exn :=
| SystemExit (msg : text)
| FileNotFoundError (p : path)
| IsADirectoryError (p : path)
| NotADirectoryError (p : path)
| FileExistsError (p : path)
| OSError (errno : Z) (filename : text)   (* any other [OSError] *)
| UnicodeDecodeError
| Unmodelled (what : string).   (* behaviour of Python outside this model *)

Inductive result (A : Type) :=
| Ok (a : A)
| Raise (e : exn).
Arguments Ok {A} a.
Arguments Raise {A} e.

Definition M (A : Type) : Type := node -> node * result A.

Definition ret {A} (a : A) : M A := fun fs => (fs, Ok a).
Definition raise {A} (e : exn) : M A := fun fs => (fs, Raise e).
Definition bind {A B} (m : M A) (k : A -> M B) : M B :=
  fun fs =>
    match m fs with
    | (fs', Ok a) => k a fs'
    | (fs', Raise e) => (fs', Raise e)
    end.

Declare Scope py_scope.
Delimit Scope py_scope with py.
Notation "x <- m ;; k" := (bind m (fun x => k))
  (at level 100, m at next level, right associativity) : py_scope.
Notation "m ;; k" := (bind m (fun _ => k))
  (at level 100, right associativity) : py_scope.
Local Open Scope py_scope.

(** [if b: m] *)
Definition when (b : bool) (m : M unit) : M unit := if b then m else ret tt.

(** [Path.exists], [Path.is_dir] *)
Definition path_exists (p : path) : M bool :=
  fun fs => (fs, Ok (bool_decide (is_Some (fs_lookup p fs)))).

Definition is_dir (p : path) : M bool :=
  fun fs => (fs, Ok match fs_lookup p fs with
                    | Some (Dir _) => true
                    | _ => false
                    end).

(** The [OSError] for a path at which there is nothing. *)
Definition no_entry (p : path) (fs : node) : exn :=
  if through_file p fs then NotADirectoryError p else FileNotFoundError p.

(** [Path.read_text(encoding="utf-8", errors="replace")] *)
Definition read_text (p : path) : M text :=
  fun fs =>
    match fs_lookup p fs with
    | Some (File d) => (fs, Ok (text_of d))
    | Some (Dir _) => (fs, Raise (IsADirectoryError p))
    | None => (fs, Raise (no_entry p fs))
    end.

(** [Path.write_text(t, encoding="utf-8", newline="\n")]: creates or
    truncates the file; the directory it lives in must exist. *)
Definition write_text (p : path) (t : text) : M unit :=
  fun fs =>
    let store :=
      match fs_put p (File (encode_utf8 t)) fs with
      | Some fs' => (fs', Ok tt)
      | None => (fs, Raise (NotADirectoryError p))
      end in
    match fs_lookup p fs with
    | Some (Dir _) => (fs, Raise (IsADirectoryError p))
    | Some (File _) => store
    | None =>
        match fs_lookup (parent p) fs with
        | Some (Dir _) => store
        | _ => (fs, Raise (no_entry p fs))
        end
    end.

(** [shutil.rmtree] *)
Definition rmtree (p : path) : M unit :=
  fun fs =>
    match fs_lookup p fs with
    | Some (Dir _) => (fs_remove p fs, Ok tt)
    | Some (File _) => (fs, Raise (NotADirectoryError p))
    | None => (fs, Raise (no_entry p fs))
    end.

(** [shutil.copytree(src, dst)]: [src] must be a directory and [dst] must
    not exist; the directories above [dst] are created.  Copying a
    directory into itself is outside the model. *)
Definition copytree (src dst : path) : M unit :=
  fun fs =>
    match fs_lookup src fs with
    | Some (Dir es) =>
        if bool_decide (is_Some (fs_lookup dst fs))
        then (fs, Raise (FileExistsError dst))
        else if bool_decide (src `prefix_of` dst)
        then (fs, Raise (Unmodelled "copytree into the source tree"))
        else match fs_put dst (Dir es) fs with
             | Some fs' => (fs', Ok tt)
             | None => (fs, Raise (NotADirectoryError (below_file dst fs)))
             end
    | Some (File _) => (fs, Raise (NotADirectoryError src))
    | None => (fs, Raise (no_entry src fs))
    end.

(** [print]: standard output is not part of the modelled state. *)
Definition print (msg : text) : M unit := ret tt.

(** ** The script *)

(** Lines 16-19: [if after_regex: m = re.search(...); if m:] yields
    [m.end(0)].  An empty pattern string is falsy. *)
Definition anchor_end (after_regex : option regex) (t : text) : option nat :=
  match after_regex with
  | Some (i :: r) => snd <$> re_search (i :: r) t
  | Some [] | None => None
  end.

(** Lines 20-24: a match that ends inside a line is moved to the end of
    that line. *)
Definition move_to_eol (t : text) (insert_at : nat) : nat :=
  match drop insert_at t with
  | c :: rest =>
      if (c =? nl)%N then insert_at
      else match find_nl (c :: rest) with
           | Some k => insert_at + k
           | None => length t
           end
  | [] => insert_at
  end.

(** Line 25: the inserted piece, ["\n" if (insert_at > 0 and
    text[insert_at - 1] != "\n") else ""] before the line; [before] is
    [text[:insert_at]]. *)
Definition break_unless_at_bol (before : text) : text :=
  match last before with
  | Some c => if (c =? nl)%N then [] else [nl]
  | None => []
  end.

Definition insertion (t : text) (insert_at : nat) (line : text) : text :=
  break_unless_at_bol (take insert_at t) ++ line ++ [nl].

(** Lines 31-33 and 48-50: append a line, after a newline if the text
    does not end with one. *)
Definition append_line (t line : text) : text :=
  (if ends_with_nl t then t else t ++ [nl]) ++ line ++ [nl].

Definition ensure_line_in_file (p : path) (line : text)
    (after_regex : option regex) : M unit :=
  t <- read_text p ;;
  if is_in line t then ret tt
  else
    match anchor_end after_regex t with
    | Some e =>
        let insert_at := move_to_eol t e in
        let insert := insertion t insert_at line in
        write_text p (take insert_at t ++ insert ++ drop insert_at t)
    | None => write_text p (append_line t line)
    end.

Definition set_defconfig_symbol (defconfig : path) (sym value : text) : M unit :=
  t <- read_text defconfig ;;
  let t := re_sub (not_set_re sym) [] t in
  let line := str "CONFIG_" ++ sym ++ str "=" ++ value in
  match re_search (assign_prefix_re sym) t with
  | Some _ =>
      if is_in [backslash] line
      then raise (Unmodelled "replacement template with a backslash")
      else write_text defconfig (re_sub (assign_line_re sym) line t)
  | None => write_text defconfig (append_line t line)
  end.

Definition copy_kernelsu_sources (ksu_repo kernel_repo : path) : M unit :=
  let src := ksu_repo ++ ["kernel"%string] in
  d <- is_dir src ;;
  when (negb d)
    (raise (SystemExit (str "KernelSU sources not found at: " ++ path_str src))) ;;
  let dst := kernel_repo ++ ["drivers"; "kernelsu"]%string in
  e <- path_exists dst ;;
  when e (rmtree dst) ;;
  copytree src dst ;;
  let kconfig := dst ++ ["Kconfig"%string] in
  e <- path_exists kconfig ;;
  when e (t <- read_text kconfig ;; write_text kconfig t).

(** What [subprocess.run(..., check=True, text=True, capture_output=True)]
    did: the process ran and exited with a return code and its captured
    output; or it could not be started and [subprocess.run] itself raised
    the [OSError]; or it ran and exited, and its captured output could not
    be decoded as text ([text=True] decodes strictly, before the return
    code is looked at). *)
Inductive run_outcome :=
| Exited (returncode : Z) (stdout stderr : text)
| NotStarted (errno : Z) (filename : text)
| OutputUndecodable.

Section Patch.

(** [["git", "apply", "--whitespace=nowarn", patch]] run in an existing
    directory [cwd]: what git does to the tree, and how the run ends. *)
Variable git_apply : path -> path -> node -> node * run_outcome.

(** [subprocess.run] changes to [cwd] before it executes git; when
    [cwd] is not a directory it raises the error of that, which the
    [except subprocess.CalledProcessError] does not catch.
    [patch_file.resolve()] changes nothing on the absolute, link-free
    paths of the model. *)
Definition apply_optional_patch (kernel_repo patch_file : path) : M unit :=
  e <- path_exists patch_file ;;
  if negb e then ret tt
  else
    fun fs =>
      match fs_lookup kernel_repo fs with
      | Some (Dir _) =>
          match git_apply kernel_repo patch_file fs with
          | (fs', Exited rc out err) =>
              if (rc =? 0)%Z then (fs', Ok tt)
              else (fs', Raise (SystemExit
                     (str "Failed to apply build-fixes patch." ++ [nl] ++
                      str "patch: " ++ path_str patch_file ++ [nl] ++
                      str "stdout:" ++ [nl] ++ out ++ [nl] ++
                      str "stderr:" ++ [nl] ++ err ++ [nl])))
          | (_, NotStarted errno filename) =>
              (fs, Raise (OSError errno filename))
          | (fs', OutputUndecodable) => (fs', Raise UnicodeDecodeError)
          end
      | Some (File _) => (fs, Raise (NotADirectoryError kernel_repo))
      | None => (fs, Raise (no_entry kernel_repo fs))
      end.

End Patch.

Definition ksu_makefile_line : text := str "obj-$(CONFIG_KSU) += kernelsu/".
Definition ksu_kconfig_line : text :=
  str "source " ++ [34%N] ++ str "drivers/kernelsu/Kconfig" ++ [34%N].

Definition patch_kernel_tree (kernel_repo : path) : M unit :=
  let drivers_makefile := kernel_repo ++ ["drivers"; "Makefile"]%string in
  let drivers_kconfig := kernel_repo ++ ["drivers"; "Kconfig"]%string in
  let defconfig :=
    kernel_repo ++ ["arch"; "arm64"; "configs"; "RMX3265_defconfig"]%string in
  let dtc_makefile := kernel_repo ++ ["scripts"; "dtc"; "Makefile"]%string in
  e <- path_exists drivers_makefile ;;
  when (negb e) (raise (SystemExit (str "Missing " ++ path_str drivers_makefile))) ;;
  e <- path_exists drivers_kconfig ;;
  when (negb e) (raise (SystemExit (str "Missing " ++ path_str drivers_kconfig))) ;;
  e <- path_exists defconfig ;;
  when (negb e) (raise (SystemExit (str "Missing " ++ path_str defconfig))) ;;
  e <- path_exists dtc_makefile ;;
  when e
    (dtc_text <- read_text dtc_makefile ;;
     when (is_in (str "HOSTLDLIBS_dtc") dtc_text &&
           negb (is_in (str "HOSTLOADLIBES_dtc") dtc_text))
       (write_text dtc_makefile
          (replace (str "HOSTLDLIBS_dtc") (str "HOSTLOADLIBES_dtc") dtc_text))) ;;
  ensure_line_in_file drivers_makefile ksu_makefile_line (Some obj_anchor) ;;
  ensure_line_in_file drivers_kconfig ksu_kconfig_line None ;;
  set_defconfig_symbol defconfig (str "KSU") (str "y") ;;
  set_defconfig_symbol defconfig (str "KPROBES") (str "y") ;;
  set_defconfig_symbol defconfig (str "KPROBE_EVENTS") (str "y").

(** [main], after the arguments are parsed and the three paths resolved;
    [builder_root] is the directory of the script. *)
Definition main (git_apply : path -> path -> node -> node * run_outcome)
    (kernel_repo ksu_repo builder_root : path) : M unit :=
  apply_optional_patch git_apply kernel_repo
    (builder_root ++ ["patches"; "rmx3265_build_fixes.patch"]%string) ;;
  copy_kernelsu_sources ksu_repo kernel_repo ;;
  patch_kernel_tree kernel_repo ;;
  print
    (str "Applied KernelSU (v0.9.5) non-GKI integration + RMX3265 build fixes.").

(** ** Notions used to state the properties *)

(** Number of positions at which [sub] occurs in [s]. *)
Fixpoint occurrences (sub s : text) : nat :=
  (if starts_with sub s then 1 else 0) +
  match s with
  | [] => 0
  | _ :: s' => occurrences sub s'
  end.

(** The pattern tried at offset [k] of [t]. *)
Definition match_at (r : regex) (t : text) (k : nat) : option nat :=
  match_here r (match k with 0 => None | S j => t !! j end) (drop k t).

(** The text [ensure_line_in_file] writes when the line is absent. *)
Definition ensured_text (t line : text) (after_regex : option regex) : text :=
  match anchor_end after_regex t with
  | Some e =>
      let insert_at := move_to_eol t e in
      take insert_at t ++ insertion t insert_at line ++ drop insert_at t
  | None => append_line t line
  end.

(** A line of a file: no line break inside. *)
Definition is_line (l : text) : Prop := (nl ∉ l) /\ (cr ∉ l).

(** The ends of the successive matches of a pattern, in document order
    (as [re.finditer] yields them); [skip] as in [sub_from]. *)
Fixpoint match_ends_from (r : regex) (skip pos : nat) (prev : option char)
    (s : text) : list nat :=
  match skip with
  | S k =>
      match s with
      | c :: s' => match_ends_from r k (S pos) (Some c) s'
      | [] => []
      end
  | 0 =>
      match match_here r prev s with
      | Some n =>
          (pos + n) ::
          (match s with
           | c :: s' => match_ends_from r (n - 1) (S pos) (Some c) s'
           | [] => []
           end)
      | None =>
          match s with
          | c :: s' => match_ends_from r 0 (S pos) (Some c) s'
          | [] => []
          end
      end
  end.

(** The reading of the specification: the insertion point is the end of
    the LAST match of the anchor. *)
Definition last_match_end (r : regex) (t : text) : option nat :=
  last (match_ends_from r 0 0 None t).

Definition ensured_text_last_match (t line : text) (r : regex) : text :=
  match last_match_end r t with
  | Some e =>
      let insert_at := move_to_eol t e in
      take insert_at t ++ insertion t insert_at line ++ drop insert_at t
  | None => append_line t line
  end.

(** A tree holding the given files. *)
Definition tree_of (files : list (path * text)) : node :=
  foldl (fun fs '(p, d) => default fs (fs_put p (File (encode_utf8 d)) fs))
    (Dir ∅) files.

Definition file_at (p : path) (fs : node) : option bytes :=
  match fs_lookup p fs with
  | Some (File d) => Some d
  | _ => None
  end.

(** The text ends with one newline and not with two. *)
Definition ends_with_one_nl (s : text) : bool :=
  match reverse s with
  | a :: b :: _ => (a =? nl)%N && negb (b =? nl)%N
  | [a] => (a =? nl)%N
  | [] => false
  end.

(** Sample inputs. *)
Definition sample_makefile : path := ["k"; "drivers"; "Makefile"]%string.
Definition sample_kconfig : path := ["k"; "drivers"; "Kconfig"]%string.
Definition sample_defconfig : path :=
  ["k"; "arch"; "arm64"; "configs"; "RMX3265_defconfig"]%string.

(** A drivers Makefile with DOS line ends that already has the KernelSU
    rule. *)
Definition crlf_makefile : text :=
  str "obj-y += base/" ++ [cr; nl] ++ ksu_makefile_line ++ [cr; nl].

(** Three conditional-build lines followed by unrelated content. *)
Definition three_rules : text :=
  str "obj-$(CONFIG_A) += a/" ++ [nl] ++ str "obj-$(CONFIG_B) += b/" ++ [nl] ++
  str "obj-$(CONFIG_C) += c/" ++ [nl] ++ str "# end" ++ [nl].

(** A Kconfig that ends with a blank line. *)
Definition blank_tail : text := str "menu" ++ [nl; nl].

(** The content [ensure_line_in_file] leaves in a file that held [d]. *)
Definition ensure_line_stored (d : bytes) (line : text)
    (after_regex : option regex) : bytes :=
  if is_in line (text_of d) then d
  else encode_utf8 (ensured_text (text_of d) line after_regex).

(** The assignment line of a symbol, [f"CONFIG_{sym}={value}"]. *)
Definition config_line (sym value : text) : text :=
  str "CONFIG_" ++ sym ++ str "=" ++ value.

(** The text [set_defconfig_symbol] writes for the text [t] it read (for
    a replacement template without a backslash). *)
Definition set_symbol_text (t sym value : text) : text :=
  let t := re_sub (not_set_re sym) [] t in
  match re_search (assign_prefix_re sym) t with
  | Some _ => re_sub (assign_line_re sym) (config_line sym value) t
  | None => append_line t (config_line sym value)
  end.

(** The content the dtc step of [patch_kernel_tree] leaves in a file that
    held [d]. *)
Definition dtc_stored (d : bytes) : bytes :=
  let t := text_of d in
  if is_in (str "HOSTLDLIBS_dtc") t && negb (is_in (str "HOSTLOADLIBES_dtc") t)
  then encode_utf8 (replace (str "HOSTLDLIBS_dtc") (str "HOSTLOADLIBES_dtc") t)
  else d.

(** The four files of the kernel tree [patch_kernel_tree] looks at. *)
Definition drivers_makefile (kernel_repo : path) : path :=
  kernel_repo ++ ["drivers"; "Makefile"]%string.
Definition drivers_kconfig (kernel_repo : path) : path :=
  kernel_repo ++ ["drivers"; "Kconfig"]%string.
Definition defconfig_path (kernel_repo : path) : path :=
  kernel_repo ++ ["arch"; "arm64"; "configs"; "RMX3265_defconfig"]%string.
Definition dtc_makefile (kernel_repo : path) : path :=
  kernel_repo ++ ["scripts"; "dtc"; "Makefile"]%string.

Definition missing (q : path) : exn := SystemExit (str "Missing " ++ path_str q).

(** A kernel tree without its defconfig, and a complete one without the
    dtc Makefile. *)
Definition tree_without_defconfig : node :=
  tree_of [(sample_makefile, three_rules); (sample_kconfig, str "menu")].
Definition tree_without_dtc : node :=
  tree_of [(sample_makefile, three_rules); (sample_kconfig, str "menu");
           (sample_defconfig, str "CONFIG_KSU=n")].

(** A patch file and a git that rejects it. *)
Definition sample_patch : path :=
  ["b"; "patches"; "rmx3265_build_fixes.patch"]%string.
Definition rejecting_git (cwd patch : path) (fs : node)
    : node * run_outcome :=
  (fs, Exited 1%Z (str "Checking patch Makefile...") (str "error: patch failed")).
Definition tree_with_patch : node := tree_of [(sample_patch, str "--- a")].

(** The same next to a kernel tree. *)
Definition kernel_with_patch : node :=
  tree_of [(sample_patch, str "--- a"); (sample_makefile, three_rules)].

(** The message of the fatal error of [apply_optional_patch]. *)
Definition patch_failure (patch_file : path) (out err : text) : exn :=
  SystemExit
    (str "Failed to apply build-fixes patch." ++ [nl] ++
     str "patch: " ++ path_str patch_file ++ [nl] ++
     str "stdout:" ++ [nl] ++ out ++ [nl] ++
     str "stderr:" ++ [nl] ++ err ++ [nl]).

(** Two paths that part ways: neither lies below the other. *)
Definition diverge (p q : path) : Prop :=
  exists c x y p' q', p = c ++ x :: p' /\ q = c ++ y :: q' /\ x <> y.

(** Source and destination of [copy_kernelsu_sources]. *)
Definition ksu_src (ksu_repo : path) : path := ksu_repo ++ ["kernel"%string].
Definition ksu_dst (kernel_repo : path) : path :=
  kernel_repo ++ ["drivers"; "kernelsu"]%string.

(** The entries of the source directory with its Kconfig read as text
    and written back, as the last step of [copy_kernelsu_sources] leaves
    them: undecodable bytes replaced, line ends normalised. *)
Definition kconfig_normalised (es : gmap string node) : gmap string node :=
  match es !! "Kconfig"%string with
  | Some (File d) => <["Kconfig"%string := File (encode_utf8 (text_of d))]> es
  | _ => es
  end.


(** A KernelSU checkout whose Kconfig has DOS line ends, next to a kernel
    tree with a stale copy of the driver and no defconfig. *)
Definition dos_kconfig : text := str "config KSU" ++ [cr; nl].
Definition tree_with_stale_copy : node :=
  tree_of [(["s"; "kernel"; "Kconfig"]%string, dos_kconfig);
           (["s"; "kernel"; "ksu.c"]%string, str "int ksu;");
           (["k"; "drivers"; "Makefile"]%string, three_rules);
           (["k"; "drivers"; "Kconfig"]%string, str "menu");
           (["k"; "drivers"; "kernelsu"; "stale.c"]%string, str "int old;")].

(** A kernel tree in which [drivers/Makefile] is a directory; its dtc
    Makefile asks for the substitution. *)
Definition tree_with_makefile_dir : node :=
  tree_of [(["k"; "drivers"; "Makefile"; "README"]%string, str "x");
           (sample_kconfig, str "menu");
           (sample_defconfig, str "CONFIG_KSU=n");
           (["k"; "scripts"; "dtc"; "Makefile"]%string,
            str "HOSTLDLIBS_dtc := -lyaml" ++ [nl])].

(** The KernelSU checkout alone: the kernel path leads nowhere. *)
Definition tree_without_kernel : node :=
  tree_of [(["s"; "kernel"; "Kconfig"]%string, dos_kconfig);
           (["s"; "kernel"; "ksu.c"]%string, str "int ksu;")].

(** A git that applies the patch without touching the tree. *)
Definition accepting_git (cwd patch : path) (fs : node)
    : node * run_outcome :=
  (fs, Exited 0%Z [] []).

(** ** Matching, declaratively *)

(** [Matches r prev s n]: some way of matching [r] at the start of [s]
    consumes [n] characters.  [match_here] returns the first such [n] in
    the order of the backtracking search. *)
Inductive Matches : regex -> option char -> text -> nat -> Prop :=
| M_nil prev s : Matches [] prev s 0
| M_one cs r prev c s n :
    accepts cs c = true -> Matches r (Some c) s n ->
    Matches (IOne cs :: r) prev (c :: s) (S n)
| M_star_stop cs r prev s n :
    Matches r prev s n -> Matches (IStar cs :: r) prev s n
| M_star_more cs r prev c s n :
    accepts cs c = true -> Matches (IStar cs :: r) (Some c) s n ->
    Matches (IStar cs :: r) prev (c :: s) (S n)
| M_plus cs r prev c s n :
    accepts cs c = true -> Matches (IStar cs :: r) (Some c) s n ->
    Matches (IPlus cs :: r) prev (c :: s) (S n)
| M_opt_skip cs r prev s n :
    Matches r prev s n -> Matches (IOpt cs :: r) prev s n
| M_opt_take cs r prev c s n :
    accepts cs c = true -> Matches r (Some c) s n ->
    Matches (IOpt cs :: r) prev (c :: s) (S n)
| M_bol r prev s n :
    at_bol prev = true -> Matches r prev s n -> Matches (IBol :: r) prev s n
| M_eol r prev s n :
    at_eol s = true -> Matches r prev s n -> Matches (IEol :: r) prev s n.

(** The match ends at the end of the text or just after a newline. *)
Definition ends_line (s : text) (n : nat) : Prop :=
  drop n s = [] \/ exists k, n = S k /\ s !! k = Some nl.

(** ** Lines *)

(** [s.split("\n")] *)
Fixpoint lines (s : text) : list text :=
  match s with
  | [] => [[]]
  | c :: s' =>
      if (c =? nl)%N then [] :: lines s'
      else match lines s' with
           | l :: ls => (c :: l) :: ls
           | [] => [[c]]
           end
  end.

Fixpoint count_where (P : text -> bool) (ls : list text) : nat :=
  match ls with
  | [] => 0
  | l :: ls' => (if P l then 1 else 0) + count_where P ls'
  end.

(** The line is [l]. *)
Definition line_is (l : text) (l' : text) : bool := bool_decide (l' = l).

(** The line taken alone is a disabled marker of [sym]: the pattern of
    the script matches it. *)
Definition is_not_set_line (sym : text) (l : text) : bool :=
  match match_here (not_set_re sym) None l with
  | Some _ => true
  | None => false
  end.

(** The line starts with [CONFIG_<sym>=]. *)
Definition is_assignment_of (sym : text) (l : text) : bool :=
  starts_with (str "CONFIG_" ++ sym ++ str "=") l.

(** The pattern matches at line starts only. *)
Definition bol_anchored (r : regex) : Prop :=
  forall prev s n, match_here r prev s = Some n -> at_bol prev = true.

(** What the substitution of [set_defconfig_symbol] does to one line. *)
Definition assign_in_line (sym value : text) (l : text) : text :=
  if is_assignment_of sym l then config_line sym value else l.

(** A defconfig with two assignments of KSU and a disabled marker. *)
Definition defconfig_two_assignments : text :=
  str "CONFIG_KSU=n" ++ [nl] ++ str "# CONFIG_KSU is not set" ++ [nl] ++
  str "CONFIG_KSU=m" ++ [nl].

(** The defconfigs of the specification's example: KSU assigned [n], and
    KSU disabled. *)
Definition defconfig_ksu_n : text :=
  str "CONFIG_ARM64=y" ++ [nl] ++ str "CONFIG_KSU=n" ++ [nl].
Definition defconfig_ksu_not_set : text :=
  str "CONFIG_ARM64=y" ++ [nl] ++ str "# CONFIG_KSU is not set" ++ [nl].

(** A defconfig in which a disabled marker of KSU sits between the two
    halves of another one, split after "not". *)
Definition split_marker_defconfig : text :=
  str "# CONFIG_KSU is not" ++ [nl] ++ str "# CONFIG_KSU is not set" ++ [nl] ++
  str "set" ++ [nl].
Definition tree_with_split_marker : node :=
  tree_of [(sample_makefile, three_rules); (sample_kconfig, str "menu");
           (sample_defconfig, split_marker_defconfig)].

(** Some atom of the pattern accepts the character. *)
Definition item_accepts (i : item) (c : char) : bool :=
  match i with
  | IOne cs | IStar cs | IPlus cs | IOpt cs => accepts cs c
  | IBol | IEol => false
  end.

Definition any_accepts (r : regex) (c : char) : bool :=
  existsb (fun i => item_accepts i c) r.

(** ["\n".join(ls)] *)
Fixpoint unlines (ls : list text) : text :=
  match ls with
  | [] => []
  | [l] => l
  | l :: ls' => l ++ nl :: unlines ls'
  end.

(** The three symbols [patch_kernel_tree] sets, and what its three calls
    of [set_defconfig_symbol] make of the text of the defconfig. *)
Definition required_symbols : list text :=
  [str "KSU"; str "KPROBES"; str "KPROBE_EVENTS"].

Definition defconfig_after_run (t : text) : text :=
  set_symbol_text
    (set_symbol_text (set_symbol_text t (str "KSU") (str "y"))
       (str "KPROBES") (str "y"))
    (str "KPROBE_EVENTS") (str "y").

(** The symbol is assigned in [t], and only by the line
    [CONFIG_<sym>=y]. *)
Definition assigned_y (sym : text) (t : text) : Prop :=
  1 <= count_where (is_assignment_of sym) (lines t) /\
  forall l, l ∈ lines t -> is_assignment_of sym l = true ->
            l = config_line sym (str "y").

(** The match is not empty, its last character is not a newline, and it
    stops at the end of a line. *)
Definition ends_in_line (s : text) (n : nat) : Prop :=
  exists k c, n = S k /\ s !! k = Some c /\ c <> nl /\ at_eol (drop n s) = true.

(** A drivers Makefile and a defconfig with DOS line ends; the defconfig
    already enables KSU. *)
Definition crlf_rules : text :=
  str "obj-y += base/" ++ [cr; nl] ++ str "obj-$(CONFIG_A) += a/" ++ [cr; nl].
Definition crlf_defconfig : text :=
  str "CONFIG_ARM64=y" ++ [cr; nl] ++ str "CONFIG_KSU=y" ++ [cr; nl].

(** The operation leaves what is at [q] as it was, whether it succeeds
    or raises. *)
Definition keeps {A} (q : path) (m : M A) : Prop :=
  forall fs, fs_lookup q (m fs).1 = fs_lookup q fs.


(** A dtc Makefile that links against libyaml through the variable name
    newer kernels use, and a kernel tree that has it. *)
Definition dtc_sample : text :=
  str "HOSTLDLIBS_dtc := -lyaml" ++ [cr; nl] ++
  str "# HOSTLDLIBS_dtc is ignored here" ++ [nl].
Definition tree_with_dtc : node :=
  tree_of [(sample_makefile, three_rules); (sample_kconfig, str "menu");
           (sample_defconfig, str "CONFIG_KSU=n");
           (["k"; "scripts"; "dtc"; "Makefile"]%string, dtc_sample)].

(** A KernelSU checkout whose Kconfig has Unix line ends, next to a kernel
    tree with a drivers directory. *)
Definition tree_with_clean_sources : node :=
  tree_of [(["s"; "kernel"; "Kconfig"]%string, str "config KSU" ++ [nl]);
           (["s"; "kernel"; "ksu.c"]%string, str "int ksu;");
           (["k"; "drivers"; "Makefile"]%string, three_rules)].

(** A KernelSU checkout next to a kernel tree that has the three required
    files and a stale copy of the driver. *)
Definition tree_ready : node :=
  tree_of [(["s"; "kernel"; "Kconfig"]%string, dos_kconfig);
           (["s"; "kernel"; "ksu.c"]%string, str "int ksu;");
           (sample_makefile, three_rules);
           (sample_kconfig, str "menu");
           (sample_defconfig, str "CONFIG_KSU=n");
           (["k"; "drivers"; "kernelsu"; "stale.c"]%string, str "int old;")].

(** * Properties *)

(** ** Texts *)

Lemma starts_with_spec (p s : text) :
  starts_with p s = true <-> exists r, s = p ++ r.
Proof.
  revert s; induction p as [|a p IH]; intros s; simpl.
  - split; [eauto | done].
  - destruct s as [|b s]; simpl.
    + split; [done | intros [r Hr]; discriminate].
    + rewrite andb_true_iff, N.eqb_eq, IH. split.
      * intros [-> [r ->]]. eauto.
      * intros [r Hr]. injection Hr as -> ->. eauto.
Qed.

Lemma starts_with_app (p r : text) : starts_with p (p ++ r) = true.
Proof. apply starts_with_spec; eauto. Qed.

Lemma is_in_spec (sub s : text) :
  is_in sub s = true <-> exists a b, s = a ++ sub ++ b.
Proof.
  induction s as [|c s IH]; simpl.
  - rewrite orb_false_r, starts_with_spec. split.
    + intros [r Hr]. exists [], r. done.
    + intros (a & b & H). destruct a; simpl in H; [eauto | discriminate].
  - rewrite orb_true_iff, starts_with_spec, IH. split.
    + intros [[r Hr] | (a & b & ->)].
      * exists [], r. done.
      * exists (c :: a), b. done.
    + intros (a & b & H). destruct a as [|c' a]; simpl in H.
      * left. eauto.
      * right. injection H as -> ->. eauto.
Qed.

Lemma is_in_mid (sub a b : text) : is_in sub (a ++ sub ++ b) = true.
Proof. apply is_in_spec; eauto. Qed.

Lemma not_in_part (sub a m b : text) :
  is_in sub (a ++ m ++ b) = false -> is_in sub m = false.
Proof.
  intros H. destruct (is_in sub m) eqn:E; [|done].
  apply is_in_spec in E as (x & y & ->).
  rewrite <- H. symmetry. apply is_in_spec.
  exists (a ++ x), (y ++ b). by rewrite <- !app_assoc.
Qed.

Lemma not_in_prefix (sub a b : text) :
  is_in sub (a ++ b) = false -> is_in sub a = false.
Proof.
  intros H. apply (not_in_part sub [] a b). done.
Qed.

Lemma not_in_suffix (sub a b : text) :
  is_in sub (a ++ b) = false -> is_in sub b = false.
Proof.
  intros H. apply (not_in_part sub a b []). by rewrite app_nil_r.
Qed.

Lemma occurrences_0 (sub s : text) :
  occurrences sub s = 0 <-> is_in sub s = false.
Proof.
  induction s as [|c s IH]; simpl.
  - destruct (starts_with sub []); simpl; split; (done || lia).
  - destruct (starts_with sub (c :: s)); simpl.
    + split; (done || lia).
    + done.
Qed.

Lemma starts_with_length (p s : text) :
  starts_with p s = true -> length p <= length s.
Proof.
  intros [r ->]%starts_with_spec. rewrite length_app. lia.
Qed.

Lemma occurrences_self (l : text) : l <> [] -> occurrences l l = 1.
Proof.
  intros Hl. destruct l as [|c l]; [done|].
  cbn [occurrences].
  pose proof (starts_with_app (c :: l) []) as E0. rewrite app_nil_r in E0.
  rewrite E0.
  enough (occurrences (c :: l) l = 0) by lia.
  apply occurrences_0. destruct (is_in (c :: l) l) eqn:E; [|done].
  apply is_in_spec in E as (a & b & E).
  apply (f_equal length) in E. rewrite !length_app in E. simpl in E. lia.
Qed.

(** A text without a newline cannot straddle one. *)
Lemma starts_with_across_nl (l a b : text) :
  nl ∉ l -> starts_with l (a ++ nl :: b) = starts_with l a.
Proof.
  revert a; induction l as [|c l IH]; intros a Hl; [by destruct a|].
  destruct a as [|d a]; simpl.
  - apply andb_false_iff. left. apply N.eqb_neq. intros ->.
    apply Hl. left.
  - rewrite IH; [done|]. intros H. apply Hl. by right.
Qed.

Lemma occurrences_across_nl (l a b : text) :
  l <> [] -> nl ∉ l ->
  occurrences l (a ++ nl :: b) = occurrences l a + occurrences l b.
Proof.
  intros Hne Hl. induction a as [|d a IH].
  - cbn [app occurrences]. destruct l as [|c l]; [done|].
    simpl. replace (c =? nl)%N with false; [done|].
    symmetry. apply N.eqb_neq. intros ->. apply Hl. left.
  - change ((d :: a) ++ nl :: b) with (d :: (a ++ nl :: b)).
    cbn [occurrences]. rewrite IH.
    change (d :: (a ++ nl :: b)) with ((d :: a) ++ nl :: b).
    rewrite starts_with_across_nl by done. lia.
Qed.

(** Universal newlines. *)
Lemma universal_newlines_no_cr (s : text) : cr ∉ universal_newlines s.
Proof.
  induction s as [|c s IH]; simpl; [by intros ?%elem_of_nil|].
  destruct (c =? cr)%N eqn:E.
  - destruct s as [|d s]; [by intros [=]%list_elem_of_singleton|].
    destruct (d =? nl)%N; [done|].
    intros [[=]|H]%elem_of_cons. done.
  - intros [Hc|H]%elem_of_cons; [|done].
    subst c. by rewrite N.eqb_refl in E.
Qed.

Lemma universal_newlines_id (s : text) : cr ∉ s -> universal_newlines s = s.
Proof.
  induction s as [|c s IH]; intros H; simpl; [done|].
  destruct (c =? cr)%N eqn:E.
  - apply N.eqb_eq in E. subst c. exfalso. apply H. left.
  - rewrite IH; [done|]. intros ?. apply H. by right.
Qed.

(** The codec. *)
Lemma decode_encoded (t : text) : decode_utf8 (encode_utf8 t) = t.
Proof.
  unfold decode_utf8, encode_utf8. induction t as [|c t IH]; [done|].
  rewrite !fmap_cons. by rewrite IH.
Qed.

Lemma encoded_inj (t t' : text) : encode_utf8 t = encode_utf8 t' -> t = t'.
Proof. intros H. by rewrite <- (decode_encoded t), H, decode_encoded. Qed.

Lemma text_of_encoded (t : text) : text_of (encode_utf8 t) = universal_newlines t.
Proof. unfold text_of. by rewrite decode_encoded. Qed.

Lemma text_of_no_cr (d : bytes) : cr ∉ text_of d.
Proof. apply universal_newlines_no_cr. Qed.

(** What the script has written reads back as it is, if it has no
    carriage return. *)
Lemma text_of_written (t : text) : cr ∉ t -> text_of (encode_utf8 t) = t.
Proof. intros H. rewrite text_of_encoded. by apply universal_newlines_id. Qed.

(** ** The file system *)

Lemma fs_lookup_put (p : path) (v fs fs' : node) :
  fs_put p v fs = Some fs' -> fs_lookup p fs' = Some v.
Proof.
  revert fs fs'; induction p as [|c p IH]; intros fs fs' H; simpl in *.
  - congruence.
  - destruct fs as [d|es]; [done|].
    destruct (fs_put p v (default (Dir ∅) (es !! c))) as [m|] eqn:E; [|done].
    injection H as <-. rewrite lookup_insert_eq. eauto.
Qed.

Lemma fs_put_present (p : path) (v fs n : node) :
  fs_lookup p fs = Some n -> is_Some (fs_put p v fs).
Proof.
  revert fs; induction p as [|c p IH]; intros fs H; simpl in *; [eauto|].
  destruct fs as [d|es]; [done|].
  destruct (es !! c) as [m|] eqn:E; [|done]. simpl.
  destruct (IH _ H) as [m' ->]. eauto.
Qed.

Lemma read_text_file (p : path) (fs : node) (d : bytes) :
  fs_lookup p fs = Some (File d) ->
  read_text p fs = (fs, Ok (text_of d)).
Proof. intros H. unfold read_text. by rewrite H. Qed.

Lemma write_text_file (p : path) (fs : node) (d : bytes) (t : text) :
  fs_lookup p fs = Some (File d) ->
  exists fs',
    write_text p t fs = (fs', Ok tt) /\ fs_lookup p fs' = Some (File (encode_utf8 t)).
Proof.
  intros H. unfold write_text. rewrite H.
  destruct (fs_put_present p (File (encode_utf8 t)) fs _ H) as [fs' E].
  rewrite E. exists fs'. split; [done|]. by apply fs_lookup_put in E.
Qed.

(** ** The line mutator *)

Lemma ensure_line_in_file_absent (p : path) (line : text)
    (after_regex : option regex) (fs : node) (d : bytes) :
  fs_lookup p fs = Some (File d) ->
  is_in line (text_of d) = false ->
  exists fs',
    ensure_line_in_file p line after_regex fs = (fs', Ok tt) /\
    fs_lookup p fs' =
      Some (File (encode_utf8 (ensured_text (text_of d) line after_regex))).
Proof.
  intros H Hin. unfold ensure_line_in_file, bind.
  rewrite (read_text_file _ _ _ H), Hin. unfold ensured_text.
  destruct (anchor_end after_regex (text_of d));
    by apply write_text_file with d.
Qed.

Lemma ensure_line_in_file_present (p : path) (line : text)
    (after_regex : option regex) (fs : node) (d : bytes) :
  fs_lookup p fs = Some (File d) ->
  is_in line (text_of d) = true ->
  ensure_line_in_file p line after_regex fs = (fs, Ok tt).
Proof.
  intros H Hin. unfold ensure_line_in_file, bind.
  by rewrite (read_text_file _ _ _ H), Hin.
Qed.

Lemma ends_with_nl_snoc (t : text) : ends_with_nl (t ++ [nl]) = true.
Proof. unfold ends_with_nl. by rewrite last_snoc. Qed.

Lemma ends_with_nl_inv (t : text) :
  ends_with_nl t = true -> exists t', t = t' ++ [nl].
Proof.
  unfold ends_with_nl. destruct (last t) as [c|] eqn:E; [|done].
  intros ->%N.eqb_eq. apply last_Some in E as [t' ->]. eauto.
Qed.

(** The insertion point of [move_to_eol] is at a line end, on the line
    where the match ended. *)
Lemma find_nl_spec (s : text) :
  match find_nl s with
  | Some k => exists a b, s = a ++ nl :: b /\ length a = k /\ nl ∉ a
  | None => nl ∉ s
  end.
Proof.
  induction s as [|c s IH]; simpl; [by intros ?%elem_of_nil|].
  destruct (c =? nl)%N eqn:E.
  - apply N.eqb_eq in E. subst c. exists [], s. split_and!; [done..|].
    by intros ?%elem_of_nil.
  - apply N.eqb_neq in E. destruct (find_nl s) as [k|]; simpl.
    + destruct IH as (a & b & -> & <- & Ha). exists (c :: a), b.
      split_and!; [done..|]. intros [?|?]%elem_of_cons; congruence.
    + intros [?|?]%elem_of_cons; congruence.
Qed.

Lemma move_to_eol_spec (t : text) (e : nat) :
  e <= length t ->
  exists a m b,
    t = a ++ m ++ b /\ length a = e /\
    move_to_eol t e = length (a ++ m) /\
    (nl ∉ m) /\ (b = [] \/ exists b', b = nl :: b').
Proof.
  intros He. unfold move_to_eol.
  pose proof (take_drop e t) as Ht.
  assert (length (take e t) = e) as Hl by (rewrite length_take; lia).
  destruct (drop e t) as [|c rest] eqn:E.
  - exists (take e t), [], []. rewrite !app_nil_r.
    split_and!; [by rewrite <- Ht at 1; rewrite app_nil_r|done|done| |by left].
    by intros ?%elem_of_nil.
  - destruct (c =? nl)%N eqn:Ec.
    + apply N.eqb_eq in Ec. subst c.
      exists (take e t), [], (nl :: rest). rewrite app_nil_r. simpl.
      split_and!; [done..| |right; eauto]. by intros ?%elem_of_nil.
    + pose proof (find_nl_spec (c :: rest)) as Hf.
      destruct (find_nl (c :: rest)) as [k|].
      * destruct Hf as (m & b & Hm & Hk & Hnl).
        exists (take e t), m, (nl :: b). rewrite <- Hm.
        split_and!; [done|done| |done|right; eauto].
        rewrite length_app. lia.
      * exists (take e t), (c :: rest), []. rewrite app_nil_r.
        split_and!; [done|done| |done|by left].
        by rewrite Ht.
Qed.

(** ** The matcher: lengths *)

Lemma star_length (cs : cset) (k : option char -> text -> option nat) :
  (forall prev s n, k prev s = Some n -> n <= length s) ->
  forall prev s n, star cs k prev s = Some n -> n <= length s.
Proof.
  intros Hk prev s; revert prev.
  induction s as [|c s IH]; intros prev n; simpl.
  - apply Hk.
  - destruct (accepts cs c); [|apply Hk].
    destruct (star cs k (Some c) s) as [m|] eqn:E.
    + intros [= <-]. apply IH in E. lia.
    + apply Hk.
Qed.

Lemma match_here_length (r : regex) (prev : option char) (s : text) (n : nat) :
  match_here r prev s = Some n -> n <= length s.
Proof.
  revert prev s n; induction r as [|i r IH]; intros prev s n; simpl.
  - intros [= <-]. lia.
  - destruct i.
    + destruct s as [|c s]; [done|]. destruct (accepts cs c); [|done].
      destruct (match_here r (Some c) s) as [m|] eqn:E; [|done].
      intros [= <-]. apply IH in E. simpl. lia.
    + apply star_length, IH.
    + destruct s as [|c s]; [done|]. destruct (accepts cs c); [|done].
      destruct (star cs (match_here r) (Some c) s) as [m|] eqn:E; [|done].
      intros [= <-]. apply star_length in E; [simpl; lia | apply IH].
    + destruct s as [|c s]; [apply IH|].
      destruct (accepts cs c); [|apply IH].
      destruct (match_here r (Some c) s) as [m|] eqn:E; [|apply IH].
      intros [= <-]. apply IH in E. simpl. lia.
    + destruct (at_bol prev); [apply IH | done].
    + destruct (at_eol s); [apply IH | done].
Qed.

(** [re.search] returns the leftmost offset at which the pattern matches. *)
Lemma search_from_spec (r : regex) (pos : nat) (prev : option char) (s : text)
    (st e : nat) :
  search_from r pos prev s = Some (st, e) ->
  exists k n,
    st = pos + k /\ e = st + n /\ e <= pos + length s /\
    match_here r (match k with 0 => prev | S j => s !! j end) (drop k s) = Some n /\
    forall j, j < k ->
      match_here r (match j with 0 => prev | S i => s !! i end) (drop j s) = None.
Proof.
  revert pos prev; induction s as [|c s IH]; intros pos prev; simpl.
  - destruct (match_here r prev []) as [n|] eqn:E; [|done].
    intros [= <- <-]. exists 0, n. pose proof (match_here_length _ _ _ _ E).
    simpl in *. split_and!; [lia..|done|lia].
  - destruct (match_here r prev (c :: s)) as [n|] eqn:E.
    + intros [= <- <-]. exists 0, n. pose proof (match_here_length _ _ _ _ E).
      simpl in *. split_and!; [lia..|done|lia].
    + intros (k & n & -> & -> & Hle & Hm & Hlt)%IH.
      exists (S k), n. split_and!; [lia..| |].
      * simpl. destruct k; [done|]. done.
      * intros [|j] Hj; [done|]. simpl.
        specialize (Hlt j ltac:(lia)). by destruct j.
Qed.

Lemma re_search_spec (r : regex) (t : text) (st e : nat) :
  re_search r t = Some (st, e) ->
  st <= e <= length t /\
  match_at r t st = Some (e - st) /\
  forall j, j < st -> match_at r t j = None.
Proof.
  intros (k & n & -> & -> & Hle & Hm & Hlt)%search_from_spec.
  simpl in *. split_and!; [lia..| |done].
  unfold match_at. by replace (k + n - k) with n by lia.
Qed.

Lemma anchor_end_bound (after_regex : option regex) (t : text) (e : nat) :
  anchor_end after_regex t = Some e -> e <= length t.
Proof.
  unfold anchor_end. destruct after_regex as [[|i r]|]; [done| |done].
  destruct (re_search (i :: r) t) as [[st e']|] eqn:E; [|done].
  intros [= <-]. apply re_search_spec in E. simpl. lia.
Qed.

(** ** The shape of the text written by the line mutator *)

Lemma ensured_text_anchored (t line : text) (after_regex : option regex)
    (e : nat) :
  anchor_end after_regex t = Some e ->
  exists a m b,
    t = a ++ m ++ b /\ length a = e /\ (nl ∉ m) /\
    (b = [] \/ exists b', b = nl :: b') /\
    ensured_text t line after_regex =
      (a ++ m) ++ break_unless_at_bol (a ++ m) ++ line ++ nl :: b.
Proof.
  intros He. unfold ensured_text, insertion. rewrite He.
  destruct (move_to_eol_spec t e (anchor_end_bound _ _ _ He))
    as (a & m & b & Ht & Ha & -> & Hm & Hb).
  exists a, m, b. split_and!; [done..|].
  rewrite Ht at 1 2 3. rewrite (app_assoc a m b).
  rewrite take_app_length, drop_app_length.
  by rewrite <- !app_assoc.
Qed.

Lemma append_line_shape (t line : text) :
  exists body,
    append_line t line = body ++ line ++ [nl] /\
    ends_with_nl body = true /\
    (ends_with_nl t = true -> body = t) /\
    (ends_with_nl t = false -> body = t ++ [nl]).
Proof.
  unfold append_line. destruct (ends_with_nl t) eqn:E.
  - exists t. done.
  - exists (t ++ [nl]). split_and!; [done|apply ends_with_nl_snoc|done..].
Qed.

Lemma occurrences_short (l s : text) :
  length s < length l -> occurrences l s = 0.
Proof.
  intros H. apply occurrences_0. destruct (is_in l s) eqn:E; [|done].
  apply is_in_spec in E as (a & b & ->). rewrite !length_app in H. lia.
Qed.

Lemma occurrences_after_break (l x : text) :
  l <> [] -> nl ∉ l -> is_in l x = false ->
  occurrences l (x ++ break_unless_at_bol x ++ l) = 1.
Proof.
  intros Hne Hnl Hx. unfold break_unless_at_bol.
  destruct (last x) as [c|] eqn:E.
  - apply last_Some in E as [x' ->].
    destruct (c =? nl)%N eqn:Ec.
    + apply N.eqb_eq in Ec. subst c. rewrite <- app_assoc. simpl.
      rewrite occurrences_across_nl by done. rewrite occurrences_self by done.
      apply not_in_prefix, occurrences_0 in Hx. lia.
    + change ([nl] ++ l) with (nl :: l).
      rewrite occurrences_across_nl by done. rewrite occurrences_self by done.
      apply occurrences_0 in Hx. lia.
  - apply last_None in E. subst x. simpl. by apply occurrences_self.
Qed.

Lemma ensured_text_occurrences (t line : text) (after_regex : option regex) :
  nl ∉ line -> is_in line t = false ->
  occurrences line (ensured_text t line after_regex) = 1.
Proof.
  intros Hnl Hin.
  assert (line <> []) as Hne.
  { intros ->. by destruct t. }
  destruct (anchor_end after_regex t) as [e|] eqn:He.
  - destruct (ensured_text_anchored t line after_regex e He)
      as (a & m & b & Ht & _ & _ & _ & ->).
    rewrite (app_assoc a m b) in Ht. rewrite Ht in Hin.
    replace ((a ++ m) ++ break_unless_at_bol (a ++ m) ++ line ++ nl :: b)
      with (((a ++ m) ++ break_unless_at_bol (a ++ m) ++ line) ++ nl :: b)
      by (by rewrite <- !app_assoc).
    rewrite occurrences_across_nl by done.
    rewrite occurrences_after_break; [|done|done|by apply not_in_prefix in Hin].
    apply not_in_suffix, occurrences_0 in Hin. lia.
  - unfold ensured_text. rewrite He.
    destruct (append_line_shape t line) as (body & -> & Hb & Ht & Hf).
    apply ends_with_nl_inv in Hb as [x Hx].
    assert (is_in line x = false) as Hinx.
    { destruct (ends_with_nl t).
      - rewrite <- Ht, Hx in Hin by done. by apply not_in_prefix in Hin.
      - specialize (Hf eq_refl). rewrite Hx in Hf.
        apply app_inj_tail in Hf as [-> _]. done. }
    rewrite Hx. rewrite <- app_assoc.
    change ([nl] ++ line ++ [nl]) with (nl :: (line ++ nl :: [])).
    rewrite (occurrences_across_nl line x) by done.
    rewrite (occurrences_across_nl line line []) by done.
    rewrite occurrences_self by done.
    apply occurrences_0 in Hinx. rewrite Hinx.
    destruct line; [done|]. simpl. lia.
Qed.

Lemma ensured_text_no_cr (t line : text) (after_regex : option regex) :
  cr ∉ t -> cr ∉ line -> cr ∉ ensured_text t line after_regex.
Proof.
  intros Ht Hl. unfold ensured_text, insertion, append_line, break_unless_at_bol.
  assert (cr ∉ [nl]) as Hn by (by intros [=]%list_elem_of_singleton).
  assert (forall i, cr ∉ take i t) as Htk.
  { intros i H. apply Ht. rewrite <- (take_drop i t). apply elem_of_app. by left. }
  assert (forall i, cr ∉ drop i t) as Hdr.
  { intros i H. apply Ht. rewrite <- (take_drop i t). apply elem_of_app. by right. }
  destruct (anchor_end after_regex t).
  - rewrite !not_elem_of_app. split_and!; [done| |done..].
    destruct (last _) as [c|]; [destruct (c =? nl)%N|]; (done || by intros ?%elem_of_nil).
  - rewrite !not_elem_of_app. split_and!; [|done..].
    destruct (ends_with_nl t); [done|]. by rewrite not_elem_of_app.
Qed.

Lemma ensured_text_contains (t line : text) (after_regex : option regex) :
  is_in line (ensured_text t line after_regex) = true.
Proof.
  unfold ensured_text, insertion, append_line. apply is_in_spec.
  destruct (anchor_end after_regex t) as [e|].
  - exists (take (move_to_eol t e) t ++ break_unless_at_bol (take (move_to_eol t e) t)),
      ([nl] ++ drop (move_to_eol t e) t).
    by rewrite <- !app_assoc.
  - exists (if ends_with_nl t then t else t ++ [nl]), [nl]. done.
Qed.


(** ** Claims on [ensure_line_in_file] *)

(** C9.  When the text read from the file already contains the line,
    [ensure_line_in_file] returns without writing: the file system is the
    one it started from, so the file keeps its stored content, carriage
    returns included (the newline translation done on read is never
    written back). *)
Theorem ensure_line_present_no_write (p : path) (line : text)
    (after_regex : option regex) (fs : node) (d : bytes) :
  fs_lookup p fs = Some (File d) ->
  is_in line (text_of d) = true ->
  ensure_line_in_file p line after_regex fs = (fs, Ok tt) /\
  fs_lookup p (fst (ensure_line_in_file p line after_regex fs)) = Some (File d).
Proof.
  intros H Hin.
  rewrite (ensure_line_in_file_present _ _ _ _ _ H Hin). done.
Qed.

Lemma ensure_line_present_no_write_witness :
  let fs := tree_of [(sample_makefile, crlf_makefile)] in
  cr ∈ crlf_makefile /\
  ensure_line_in_file sample_makefile ksu_makefile_line (Some obj_anchor) fs
    = (fs, Ok tt) /\
  fs_lookup sample_makefile
    (fst (ensure_line_in_file sample_makefile ksu_makefile_line
            (Some obj_anchor) fs)) = Some (File (encode_utf8 crlf_makefile)).
Proof.
  split; [vm_compute; set_solver|].
  apply (ensure_line_present_no_write sample_makefile ksu_makefile_line
           (Some obj_anchor) _ (encode_utf8 crlf_makefile)); vm_compute; reflexivity.
Defined.


(** C4.  For a file and a line (a text without a line break), the first
    call succeeds and a second call changes nothing; a line already
    present makes the first call a no-op too, and a line that was absent
    occurs exactly once afterwards. *)
Theorem ensure_line_twice (p : path) (line : text)
    (after_regex : option regex) (fs : node) (d : bytes) :
  fs_lookup p fs = Some (File d) ->
  is_line line ->
  let r1 := ensure_line_in_file p line after_regex fs in
  let r2 := ensure_line_in_file p line after_regex (fst r1) in
  snd r1 = Ok tt /\ r2 = (fst r1, Ok tt) /\
  (is_in line (text_of d) = true -> fst r1 = fs) /\
  (is_in line (text_of d) = false ->
   exists t1, fs_lookup p (fst r1) = Some (File (encode_utf8 t1)) /\
              occurrences line t1 = 1).
Proof.
  intros H [Hnl Hcr]. cbv zeta.
  destruct (is_in line (text_of d)) eqn:Hin.
  - rewrite (ensure_line_in_file_present _ _ _ _ _ H Hin). simpl.
    rewrite (ensure_line_in_file_present _ _ _ _ _ H Hin). done.
  - destruct (ensure_line_in_file_absent _ _ after_regex _ _ H Hin)
      as (fs' & -> & H'). simpl.
    assert (text_of (encode_utf8 (ensured_text (text_of d) line after_regex))
            = ensured_text (text_of d) line after_regex) as Hid.
    { apply text_of_written, ensured_text_no_cr;
        [apply text_of_no_cr | done]. }
    split_and!; [done| |done|].
    + apply (ensure_line_in_file_present _ _ _ _ _ H').
      rewrite Hid. apply ensured_text_contains.
    + intros _. eexists. split; [exact H'|].
      by apply ensured_text_occurrences.
Qed.

Lemma ensure_line_twice_witness :
  let fs := tree_of [(sample_makefile, three_rules)] in
  let r1 := ensure_line_in_file sample_makefile ksu_makefile_line
              (Some obj_anchor) fs in
  let r2 := ensure_line_in_file sample_makefile ksu_makefile_line
              (Some obj_anchor) (fst r1) in
  is_in ksu_makefile_line (text_of (encode_utf8 three_rules)) = false /\
  snd r1 = Ok tt /\ r2 = (fst r1, Ok tt) /\
  (is_in ksu_makefile_line (text_of (encode_utf8 three_rules)) = true ->
   fst r1 = fs) /\
  (is_in ksu_makefile_line (text_of (encode_utf8 three_rules)) = false ->
   exists t1, fs_lookup sample_makefile (fst r1) = Some (File (encode_utf8 t1)) /\
              occurrences ksu_makefile_line t1 = 1).
Proof.
  split; [vm_compute; reflexivity|].
  apply (ensure_line_twice sample_makefile ksu_makefile_line
           (Some obj_anchor) _ (encode_utf8 three_rules)).
  - vm_compute; reflexivity.
  - split; vm_compute; set_solver.
Defined.

(** C8, as the code has it.  With no anchor (none given, an empty one, or
    one that matches nowhere) and the line absent, the file becomes the
    text read, then one newline if and only if that text does not already
    end with one (an empty text gets one), then the line and a newline.
    Trailing newlines that are already there are kept as they are. *)
Theorem ensure_line_fallback_appends (p : path) (line : text)
    (after_regex : option regex) (fs : node) (d : bytes) :
  fs_lookup p fs = Some (File d) ->
  is_in line (text_of d) = false ->
  anchor_end after_regex (text_of d) = None ->
  exists fs' body,
    ensure_line_in_file p line after_regex fs = (fs', Ok tt) /\
    fs_lookup p fs' = Some (File (encode_utf8 (body ++ line ++ [nl]))) /\
    ends_with_nl body = true /\
    (ends_with_nl (text_of d) = true -> body = text_of d) /\
    (ends_with_nl (text_of d) = false ->
     body = text_of d ++ [nl]).
Proof.
  intros H Hin Hno.
  destruct (ensure_line_in_file_absent _ _ after_regex _ _ H Hin)
    as (fs' & Hrun & H').
  unfold ensured_text in H'. rewrite Hno in H'.
  destruct (append_line_shape (text_of d) line)
    as (body & Hb & Hrest).
  rewrite Hb in H'. exists fs', body. done.
Qed.

Lemma ensure_line_fallback_appends_witness :
  exists fs' body,
    ensure_line_in_file sample_kconfig ksu_kconfig_line None
      (tree_of [(sample_kconfig, str "menu")]) = (fs', Ok tt) /\
    fs_lookup sample_kconfig fs' =
      Some (File (encode_utf8 (body ++ ksu_kconfig_line ++ [nl]))) /\
    ends_with_nl body = true /\
    (ends_with_nl (text_of (encode_utf8 (str "menu"))) = true ->
     body = text_of (encode_utf8 (str "menu"))) /\
    (ends_with_nl (text_of (encode_utf8 (str "menu"))) = false ->
     body = text_of (encode_utf8 (str "menu")) ++ [nl]).
Proof.
  apply (ensure_line_fallback_appends sample_kconfig ksu_kconfig_line None
           _ (encode_utf8 (str "menu"))); vm_compute; reflexivity.
Defined.

(** C8, as stated, fails: the claim has the text before the appended
    line end with exactly one newline, but a file that ends with a blank
    line keeps both newlines. *)
Lemma fallback_keeps_trailing_blank_line :
  let fs := tree_of [(sample_kconfig, blank_tail)] in
  let fs' := fst (ensure_line_in_file sample_kconfig ksu_kconfig_line None fs) in
  is_in ksu_kconfig_line (text_of (encode_utf8 blank_tail)) = false /\
  file_at sample_kconfig fs' =
    Some (encode_utf8 (blank_tail ++ ksu_kconfig_line ++ [nl])) /\
  ends_with_one_nl blank_tail = false /\
  forall body,
    file_at sample_kconfig fs' = Some (encode_utf8 (body ++ ksu_kconfig_line ++ [nl])) ->
    ends_with_one_nl body = false.
Proof.
  cbv zeta.
  assert (file_at sample_kconfig
            (fst (ensure_line_in_file sample_kconfig ksu_kconfig_line None
                    (tree_of [(sample_kconfig, blank_tail)])))
          = Some (encode_utf8 (blank_tail ++ ksu_kconfig_line ++ [nl]))) as E
    by (vm_compute; reflexivity).
  split_and!; [vm_compute; reflexivity | exact E | vm_compute; reflexivity |].
  intros body Hb. rewrite E in Hb.
  assert (blank_tail ++ ksu_kconfig_line ++ [nl]
          = body ++ ksu_kconfig_line ++ [nl]) as Hb'
    by (apply encoded_inj; congruence).
  apply app_inv_tail in Hb'. subst body. vm_compute; reflexivity.
Qed.


(** C1, as the code has it.  [re.search] gives the FIRST match of the
    anchor: no offset before [st] matches.  The new line goes in at the
    end of the line on which that first match ends: the text splits as
    [a ++ m ++ b], [a] ending where the match ends, [m] the rest of that
    line, [b] empty or starting at its newline, and the file becomes
    [a ++ m], a newline unless already at a line start, the line, a
    newline, then [b]. *)
Theorem ensure_line_after_first_match (p : path) (line : text) (r : regex)
    (fs : node) (d : bytes) (st e : nat) :
  fs_lookup p fs = Some (File d) ->
  r <> [] ->
  is_in line (text_of d) = false ->
  re_search r (text_of d) = Some (st, e) ->
  match_at r (text_of d) st = Some (e - st) /\
  (forall j, j < st -> match_at r (text_of d) j = None) /\
  exists a m b fs',
    text_of d = a ++ m ++ b /\ length a = e /\ (nl ∉ m) /\
    (b = [] \/ exists b', b = nl :: b') /\
    ensure_line_in_file p line (Some r) fs = (fs', Ok tt) /\
    fs_lookup p fs' =
      Some (File (encode_utf8 ((a ++ m) ++ break_unless_at_bol (a ++ m) ++
                          line ++ nl :: b))).
Proof.
  intros H Hr Hin Hs.
  destruct (re_search_spec _ _ _ _ Hs) as (_ & Hm & Hfirst).
  split_and!; [done..|].
  assert (anchor_end (Some r) (text_of d) = Some e) as He.
  { unfold anchor_end. destruct r as [|i r]; [done|]. by rewrite Hs. }
  destruct (ensured_text_anchored _ line _ _ He)
    as (a & m & b & Ht & Ha & Hnl & Hb & Htext).
  destruct (ensure_line_in_file_absent _ _ (Some r) _ _ H Hin)
    as (fs' & Hrun & H').
  exists a, m, b, fs'. rewrite Htext in H'. done.
Qed.

Lemma ensure_line_after_first_match_witness :
  match_at obj_anchor (text_of (encode_utf8 three_rules)) 0 = Some (21 - 0) /\
  (forall j, j < 0 -> match_at obj_anchor (text_of (encode_utf8 three_rules)) j = None) /\
  exists a m b fs',
    text_of (encode_utf8 three_rules) = a ++ m ++ b /\ length a = 21 /\ (nl ∉ m) /\
    (b = [] \/ exists b', b = nl :: b') /\
    ensure_line_in_file sample_makefile ksu_makefile_line (Some obj_anchor)
      (tree_of [(sample_makefile, three_rules)]) = (fs', Ok tt) /\
    fs_lookup sample_makefile fs' =
      Some (File (encode_utf8 ((a ++ m) ++ break_unless_at_bol (a ++ m) ++
                          ksu_makefile_line ++ nl :: b))).
Proof.
  apply (ensure_line_after_first_match sample_makefile ksu_makefile_line
           obj_anchor _ (encode_utf8 three_rules) 0 21);
    (done || vm_compute; reflexivity).
Defined.

(** C1, as stated, fails.  With three conditional-build lines the anchor
    matches three times, the last match ending at offset 65; the code
    puts the new line after the FIRST of them (the match ending at offset
    21), which is not the text the last-match reading gives. *)
Lemma anchor_uses_first_match_not_last :
  let fs := tree_of [(sample_makefile, three_rules)] in
  let fs' := fst (ensure_line_in_file sample_makefile ksu_makefile_line
                    (Some obj_anchor) fs) in
  is_in ksu_makefile_line (text_of (encode_utf8 three_rules)) = false /\
  match_ends_from obj_anchor 0 0 None three_rules = [21; 43; 65] /\
  file_at sample_makefile fs' =
    Some (encode_utf8
            (str "obj-$(CONFIG_A) += a/" ++ [nl] ++ ksu_makefile_line ++ [nl; nl] ++
             str "obj-$(CONFIG_B) += b/" ++ [nl] ++
             str "obj-$(CONFIG_C) += c/" ++ [nl] ++ str "# end" ++ [nl])) /\
  ensured_text_last_match three_rules ksu_makefile_line obj_anchor =
    str "obj-$(CONFIG_A) += a/" ++ [nl] ++ str "obj-$(CONFIG_B) += b/" ++ [nl] ++
    str "obj-$(CONFIG_C) += c/" ++ [nl] ++ ksu_makefile_line ++ [nl; nl] ++
    str "# end" ++ [nl] /\
  file_at sample_makefile fs' <>
    Some (encode_utf8 (ensured_text_last_match three_rules ksu_makefile_line
                    obj_anchor)).
Proof.
  cbv zeta. split_and!; try (vm_compute; reflexivity).
  vm_compute. discriminate.
Qed.


(** ** Files: what a write changes and what it leaves alone *)

Lemma file_at_Some (p : path) (fs : node) (d : bytes) :
  file_at p fs = Some d <-> fs_lookup p fs = Some (File d).
Proof.
  unfold file_at. destruct (fs_lookup p fs) as [[d'|es]|]; split; congruence.
Qed.

Lemma fs_put_file_frame (p q : path) (fs fs' : node) (d t : bytes) :
  fs_lookup p fs = Some (File d) ->
  fs_put p (File t) fs = Some fs' ->
  q <> p ->
  file_at q fs' = file_at q fs.
Proof.
  revert q fs fs'; induction p as [|c p IH]; intros q fs fs' H Hput Hq.
  - simpl in *. injection H as ->. injection Hput as <-.
    destruct q; [done|]. done.
  - simpl in H, Hput. destruct fs as [d0|es]; [done|].
    destruct (es !! c) as [m|] eqn:Ec; [|done]. simpl in Hput.
    destruct (fs_put p (File t) m) as [m'|] eqn:Em; [|done].
    injection Hput as <-.
    destruct q as [|c' q]; [done|].
    unfold file_at. simpl.
    destruct (decide (c' = c)) as [->|Hc].
    + rewrite lookup_insert_eq, Ec.
      apply (IH q m m' H Em). congruence.
    + by rewrite lookup_insert_ne.
Qed.

Lemma write_text_run (p : path) (fs : node) (d : bytes) (t : text) :
  file_at p fs = Some d ->
  exists fs',
    write_text p t fs = (fs', Ok tt) /\
    file_at p fs' = Some (encode_utf8 t) /\
    forall q, q <> p -> file_at q fs' = file_at q fs.
Proof.
  intros H%file_at_Some. unfold write_text. rewrite H.
  destruct (fs_put_present p (File (encode_utf8 t)) fs _ H) as [fs' E]. rewrite E.
  exists fs'. split_and!; [done| |].
  - apply file_at_Some. by apply fs_lookup_put in E.
  - intros q Hq. by apply (fs_put_file_frame p q fs fs' d (encode_utf8 t)).
Qed.

Lemma read_text_run (p : path) (fs : node) (d : bytes) :
  file_at p fs = Some d ->
  read_text p fs = (fs, Ok (text_of d)).
Proof. intros H%file_at_Some. by apply read_text_file. Qed.

Lemma ensure_line_in_file_run (p : path) (line : text)
    (after_regex : option regex) (fs : node) (d : bytes) :
  file_at p fs = Some d ->
  exists fs',
    ensure_line_in_file p line after_regex fs = (fs', Ok tt) /\
    file_at p fs' = Some (ensure_line_stored d line after_regex) /\
    forall q, q <> p -> file_at q fs' = file_at q fs.
Proof.
  intros H. unfold ensure_line_in_file, bind, ensure_line_stored.
  rewrite (read_text_run _ _ _ H).
  destruct (is_in line (text_of d)).
  - exists fs. done.
  - unfold ensured_text.
    destruct (anchor_end after_regex (text_of d));
      by apply write_text_run with d.
Qed.

Lemma set_defconfig_symbol_run (p : path) (sym value : text) (fs : node)
    (d : bytes) :
  file_at p fs = Some d ->
  is_in [backslash] (config_line sym value) = false ->
  exists fs',
    set_defconfig_symbol p sym value fs = (fs', Ok tt) /\
    file_at p fs' = Some (encode_utf8 (set_symbol_text (text_of d) sym value)) /\
    forall q, q <> p -> file_at q fs' = file_at q fs.
Proof.
  intros H Hbs. unfold set_defconfig_symbol, bind, set_symbol_text.
  rewrite (read_text_run _ _ _ H). fold (config_line sym value).
  destruct (re_search _ _).
  - rewrite Hbs. by apply write_text_run with d.
  - by apply write_text_run with d.
Qed.


(** ** The orchestrator's checks *)

Lemma path_exists_run (p : path) (fs : node) :
  path_exists p fs = (fs, Ok (bool_decide (is_Some (fs_lookup p fs)))).
Proof. done. Qed.

Lemma file_at_is_Some (p : path) (fs : node) (d : bytes) :
  file_at p fs = Some d -> bool_decide (is_Some (fs_lookup p fs)) = true.
Proof.
  intros H%file_at_Some. apply bool_decide_eq_true. rewrite H. eauto.
Qed.

Lemma file_at_None (p : path) (fs : node) :
  fs_lookup p fs = None -> file_at p fs = None.
Proof. unfold file_at. by intros ->. Qed.

Lemma backslash_free_KSU :
  is_in [backslash] (config_line (str "KSU") (str "y")) = false /\
  is_in [backslash] (config_line (str "KPROBES") (str "y")) = false /\
  is_in [backslash] (config_line (str "KPROBE_EVENTS") (str "y")) = false.
Proof. by vm_compute. Qed.

(** A run of [patch_kernel_tree] on a tree that has the three required
    files as regular files and the dtc Makefile as a regular file or not
    at all. *)
Lemma paths_distinct (k : path) :
  drivers_makefile k <> drivers_kconfig k /\
  drivers_makefile k <> defconfig_path k /\
  drivers_kconfig k <> defconfig_path k /\
  dtc_makefile k <> drivers_makefile k /\
  dtc_makefile k <> drivers_kconfig k /\
  dtc_makefile k <> defconfig_path k.
Proof.
  unfold drivers_makefile, drivers_kconfig, defconfig_path, dtc_makefile.
  split_and!; intros H%app_inv_head; discriminate.
Qed.

Lemma bind_ok {A B} (m : M A) (k : A -> M B) (fs fs' : node) (a : A) :
  m fs = (fs', Ok a) -> bind m k fs = k a fs'.
Proof. unfold bind. by intros ->. Qed.

Lemma bind_raise {A B} (m : M A) (k : A -> M B) (fs fs' : node) (e : exn) :
  m fs = (fs', Raise e) -> bind m k fs = (fs', Raise e).
Proof. unfold bind. by intros ->. Qed.

Lemma when_false_run (m : M unit) (fs : node) : when false m fs = (fs, Ok tt).
Proof. done. Qed.

Ltac run_step E := rewrite (bind_ok _ _ _ _ _ E); cbv beta.

Lemma patch_kernel_tree_run (k : path) (fs : node) (dm dk dd : bytes)
    (dtc : option bytes) :
  file_at (drivers_makefile k) fs = Some dm ->
  file_at (drivers_kconfig k) fs = Some dk ->
  file_at (defconfig_path k) fs = Some dd ->
  match dtc with
  | Some d => file_at (dtc_makefile k) fs = Some d
  | None => fs_lookup (dtc_makefile k) fs = None
  end ->
  exists fs',
    patch_kernel_tree k fs = (fs', Ok tt) /\
    file_at (drivers_makefile k) fs' =
      Some (ensure_line_stored dm ksu_makefile_line (Some obj_anchor)) /\
    file_at (drivers_kconfig k) fs' =
      Some (ensure_line_stored dk ksu_kconfig_line None) /\
    file_at (defconfig_path k) fs' =
      Some (encode_utf8
              (set_symbol_text
                 (text_of (encode_utf8
                    (set_symbol_text
                       (text_of (encode_utf8
                          (set_symbol_text (text_of dd)
                             (str "KSU") (str "y"))))
                       (str "KPROBES") (str "y"))))
                 (str "KPROBE_EVENTS") (str "y"))) /\
    file_at (dtc_makefile k) fs' = dtc_stored <$> dtc.
Proof.
  intros Hm Hk Hd Hdtc.
  destruct (paths_distinct k) as (N1 & N2 & N3 & N4 & N5 & N6).
  destruct backslash_free_KSU as (B1 & B2 & B3).
  unfold patch_kernel_tree. cbv zeta.
  fold (drivers_makefile k) (drivers_kconfig k) (defconfig_path k)
    (dtc_makefile k).
  run_step (path_exists_run (drivers_makefile k) fs).
  rewrite (file_at_is_Some _ _ _ Hm). simpl negb.
  run_step (when_false_run (raise (missing (drivers_makefile k))) fs).
  run_step (path_exists_run (drivers_kconfig k) fs).
  rewrite (file_at_is_Some _ _ _ Hk). simpl negb.
  run_step (when_false_run (raise (missing (drivers_kconfig k))) fs).
  run_step (path_exists_run (defconfig_path k) fs).
  rewrite (file_at_is_Some _ _ _ Hd). simpl negb.
  run_step (when_false_run (raise (missing (defconfig_path k))) fs).
  run_step (path_exists_run (dtc_makefile k) fs).
  (* the dtc step *)
  assert (exists fs0,
    when (bool_decide (is_Some (fs_lookup (dtc_makefile k) fs)))
      (dtc_text <- read_text (dtc_makefile k) ;;
       when (is_in (str "HOSTLDLIBS_dtc") dtc_text &&
             negb (is_in (str "HOSTLOADLIBES_dtc") dtc_text))
         (write_text (dtc_makefile k)
            (replace (str "HOSTLDLIBS_dtc") (str "HOSTLOADLIBES_dtc") dtc_text)))
      fs = (fs0, Ok tt) /\
    file_at (dtc_makefile k) fs0 = dtc_stored <$> dtc /\
    forall q, q <> dtc_makefile k -> file_at q fs0 = file_at q fs)
    as (fs0 & E0 & Hdtc0 & Hfr0).
  { destruct dtc as [d|].
    - rewrite (file_at_is_Some _ _ _ Hdtc). simpl when.
      run_step (read_text_run _ _ _ Hdtc).
      unfold dtc_stored. simpl fmap.
      destruct (_ && _).
      + simpl when.
        destruct (write_text_run (dtc_makefile k) fs d
                    (replace (str "HOSTLDLIBS_dtc") (str "HOSTLOADLIBES_dtc")
                       (text_of d)) Hdtc) as (fs0 & E & ? & ?).
        exists fs0. done.
      + exists fs. done.
    - rewrite Hdtc. rewrite bool_decide_eq_false_2 by (by intros [? ?]).
      exists fs. split_and!; [done| |done].
      simpl. by apply file_at_None. }
  run_step E0.
  rewrite <- (Hfr0 _ (not_eq_sym N4)) in Hm.
  rewrite <- (Hfr0 _ (not_eq_sym N5)) in Hk.
  rewrite <- (Hfr0 _ (not_eq_sym N6)) in Hd.
  destruct (ensure_line_in_file_run _ ksu_makefile_line (Some obj_anchor) _ _ Hm)
    as (fs1 & E1 & Hm1 & Hfr1).
  run_step E1.
  rewrite <- (Hfr1 _ (not_eq_sym N1)) in Hk.
  rewrite <- (Hfr1 _ (not_eq_sym N2)) in Hd.
  rewrite <- (Hfr1 _ N4) in Hdtc0.
  destruct (ensure_line_in_file_run _ ksu_kconfig_line None _ _ Hk)
    as (fs2 & E2 & Hk2 & Hfr2).
  run_step E2.
  rewrite <- (Hfr2 _ N1) in Hm1.
  rewrite <- (Hfr2 _ (not_eq_sym N3)) in Hd.
  rewrite <- (Hfr2 _ N5) in Hdtc0.
  destruct (set_defconfig_symbol_run _ (str "KSU") (str "y") _ _ Hd B1)
    as (fs3 & E3 & Hd3 & Hfr3).
  run_step E3.
  destruct (set_defconfig_symbol_run _ (str "KPROBES") (str "y") _ _ Hd3 B2)
    as (fs4 & E4 & Hd4 & Hfr4).
  run_step E4.
  destruct (set_defconfig_symbol_run _ (str "KPROBE_EVENTS") (str "y") _ _ Hd4 B3)
    as (fs5 & E5 & Hd5 & Hfr5).
  rewrite E5. exists fs5.
  split_and!; [done| | |done|].
  - by rewrite Hfr5, Hfr4, Hfr3.
  - by rewrite Hfr5, Hfr4, Hfr3.
  - by rewrite Hfr5, Hfr4, Hfr3.
Qed.

Lemma path_missing_run (p : path) (fs : node) :
  fs_lookup p fs = None -> path_exists p fs = (fs, Ok false).
Proof.
  intros H. rewrite path_exists_run, H.
  by rewrite bool_decide_eq_false_2 by (by intros [? ?]).
Qed.

Lemma path_present_run (p : path) (fs : node) :
  is_Some (fs_lookup p fs) -> path_exists p fs = (fs, Ok true).
Proof.
  intros H. rewrite path_exists_run. by rewrite bool_decide_eq_true_2.
Qed.

(** C5.  [patch_kernel_tree] checks the three required files in the order
    Makefile, Kconfig, defconfig and stops at the first one that does not
    exist with [SystemExit("Missing <path>")] naming it; the file system
    is the one it started from, so nothing (the drivers Makefile
    included) has been changed.  A missing dtc Makefile is no error: with
    the three required files in place as regular files the run ends
    normally. *)
Theorem patch_kernel_tree_missing_required (k : path) (fs : node) :
  (fs_lookup (drivers_makefile k) fs = None ->
   patch_kernel_tree k fs = (fs, Raise (missing (drivers_makefile k)))) /\
  (is_Some (fs_lookup (drivers_makefile k) fs) ->
   fs_lookup (drivers_kconfig k) fs = None ->
   patch_kernel_tree k fs = (fs, Raise (missing (drivers_kconfig k)))) /\
  (is_Some (fs_lookup (drivers_makefile k) fs) ->
   is_Some (fs_lookup (drivers_kconfig k) fs) ->
   fs_lookup (defconfig_path k) fs = None ->
   patch_kernel_tree k fs = (fs, Raise (missing (defconfig_path k)))) /\
  (forall dm dk dd,
   file_at (drivers_makefile k) fs = Some dm ->
   file_at (drivers_kconfig k) fs = Some dk ->
   file_at (defconfig_path k) fs = Some dd ->
   fs_lookup (dtc_makefile k) fs = None ->
   exists fs', patch_kernel_tree k fs = (fs', Ok tt)).
Proof.
  split_and!.
  - intros H1. unfold patch_kernel_tree. cbv zeta.
    fold (drivers_makefile k).
    run_step (path_missing_run _ _ H1). simpl negb.
    by apply bind_raise.
  - intros H1 H2. unfold patch_kernel_tree. cbv zeta.
    fold (drivers_makefile k) (drivers_kconfig k).
    run_step (path_present_run _ _ H1). simpl negb.
    run_step (when_false_run (raise (missing (drivers_makefile k))) fs).
    run_step (path_missing_run _ _ H2). simpl negb.
    by apply bind_raise.
  - intros H1 H2 H3. unfold patch_kernel_tree. cbv zeta.
    fold (drivers_makefile k) (drivers_kconfig k) (defconfig_path k).
    run_step (path_present_run _ _ H1). simpl negb.
    run_step (when_false_run (raise (missing (drivers_makefile k))) fs).
    run_step (path_present_run _ _ H2). simpl negb.
    run_step (when_false_run (raise (missing (drivers_kconfig k))) fs).
    run_step (path_missing_run _ _ H3). simpl negb.
    by apply bind_raise.
  - intros dm dk dd Hm Hk Hd Hdtc.
    destruct (patch_kernel_tree_run k fs dm dk dd None Hm Hk Hd Hdtc)
      as (fs' & E & _). eauto.
Qed.

Lemma patch_kernel_tree_missing_required_witness :
  patch_kernel_tree ["k"%string] tree_without_defconfig =
    (tree_without_defconfig, Raise (missing sample_defconfig)) /\
  exists fs', patch_kernel_tree ["k"%string] tree_without_dtc = (fs', Ok tt).
Proof.
  split.
  - apply (proj1 (proj2 (proj2
             (patch_kernel_tree_missing_required ["k"%string]
                tree_without_defconfig)))).
    + vm_compute. eauto.
    + vm_compute. eauto.
    + vm_compute. reflexivity.
  - apply (proj2 (proj2 (proj2
             (patch_kernel_tree_missing_required ["k"%string] tree_without_dtc)))
             (encode_utf8 three_rules) (encode_utf8 (str "menu"))
             (encode_utf8 (str "CONFIG_KSU=n")));
      vm_compute; reflexivity.
Defined.


(** ** The patch applier *)

Section PatchApplier.

Variable git_apply : path -> path -> node -> node * run_outcome.

Lemma apply_optional_patch_absent (k pf : path) (fs : node) :
  fs_lookup pf fs = None ->
  apply_optional_patch git_apply k pf fs = (fs, Ok tt).
Proof.
  intros H. unfold apply_optional_patch.
  by run_step (path_missing_run _ _ H).
Qed.

Lemma apply_optional_patch_present (k pf : path) (fs : node) :
  is_Some (fs_lookup pf fs) ->
  apply_optional_patch git_apply k pf fs =
    match fs_lookup k fs with
    | Some (Dir _) =>
        match git_apply k pf fs with
        | (fs', Exited rc out err) =>
            if (rc =? 0)%Z then (fs', Ok tt)
            else (fs', Raise (patch_failure pf out err))
        | (_, NotStarted errno filename) => (fs, Raise (OSError errno filename))
        | (fs', OutputUndecodable) => (fs', Raise UnicodeDecodeError)
        end
    | Some (File _) => (fs, Raise (NotADirectoryError k))
    | None => (fs, Raise (no_entry k fs))
    end.
Proof.
  intros H. unfold apply_optional_patch.
  by run_step (path_present_run _ _ H).
Qed.

Lemma patch_failure_contains (pf : path) (out err : text) :
  exists msg,
    patch_failure pf out err = SystemExit msg /\
    is_in (path_str pf) msg = true /\
    is_in out msg = true /\
    is_in err msg = true.
Proof.
  eexists. split; [reflexivity|]. split_and!; apply is_in_spec.
  - exists (str "Failed to apply build-fixes patch." ++ [nl] ++ str "patch: "),
      ([nl] ++ str "stdout:" ++ [nl] ++ out ++ [nl] ++
       str "stderr:" ++ [nl] ++ err ++ [nl]).
    by rewrite <- !app_assoc.
  - exists (str "Failed to apply build-fixes patch." ++ [nl] ++
            str "patch: " ++ path_str pf ++ [nl] ++ str "stdout:" ++ [nl]),
      ([nl] ++ str "stderr:" ++ [nl] ++ err ++ [nl]).
    by rewrite <- !app_assoc.
  - exists (str "Failed to apply build-fixes patch." ++ [nl] ++
            str "patch: " ++ path_str pf ++ [nl] ++
            str "stdout:" ++ [nl] ++ out ++ [nl] ++ str "stderr:" ++ [nl]), [nl].
    by rewrite <- !app_assoc.
Qed.

(** C6, as the code has it.  [apply_optional_patch] exits with the
    diagnostic if and only if the patch file exists, [kernel_repo] is a
    directory, and git ran and returned a code other than zero; the
    message then contains the path of the patch file and the captured
    standard output and standard error of that run.  When git cannot be
    started, because [kernel_repo] is not a directory or because
    [subprocess.run] raises another [OSError], that error goes through
    uncaught, without the diagnostic, and the tree is as it was; when the
    output of git cannot be decoded, the [UnicodeDecodeError] goes through
    likewise, on the tree as git left it.  Without a patch file the call
    returns normally and leaves the file system as it was. *)
Theorem apply_optional_patch_fatal_iff (k pf : path) (fs : node) :
  ((exists fs' msg,
      apply_optional_patch git_apply k pf fs = (fs', Raise (SystemExit msg))) <->
   is_Some (fs_lookup pf fs) /\
   (exists es, fs_lookup k fs = Some (Dir es)) /\
   exists fs1 rc out err,
     git_apply k pf fs = (fs1, Exited rc out err) /\ rc <> 0%Z) /\
  (forall fs' msg,
     apply_optional_patch git_apply k pf fs = (fs', Raise (SystemExit msg)) ->
     exists rc out err,
       git_apply k pf fs = (fs', Exited rc out err) /\
       is_in (path_str pf) msg = true /\
       is_in out msg = true /\
       is_in err msg = true) /\
  (is_Some (fs_lookup pf fs) ->
   (forall es, fs_lookup k fs <> Some (Dir es)) ->
   apply_optional_patch git_apply k pf fs =
     (fs, Raise (match fs_lookup k fs with
                 | Some _ => NotADirectoryError k
                 | None => no_entry k fs
                 end))) /\
  (forall es fs1 errno filename,
     is_Some (fs_lookup pf fs) ->
     fs_lookup k fs = Some (Dir es) ->
     git_apply k pf fs = (fs1, NotStarted errno filename) ->
     apply_optional_patch git_apply k pf fs = (fs, Raise (OSError errno filename))) /\
  (forall es fs1,
     is_Some (fs_lookup pf fs) ->
     fs_lookup k fs = Some (Dir es) ->
     git_apply k pf fs = (fs1, OutputUndecodable) ->
     apply_optional_patch git_apply k pf fs = (fs1, Raise UnicodeDecodeError)) /\
  (fs_lookup pf fs = None ->
   apply_optional_patch git_apply k pf fs = (fs, Ok tt)).
Proof.
  destruct (fs_lookup pf fs) as [n|] eqn:Hpf.
  - assert (is_Some (fs_lookup pf fs)) as Hs by (rewrite Hpf; eauto).
    rewrite (apply_optional_patch_present k pf fs Hs).
    destruct (fs_lookup k fs) as [[d|es]|] eqn:Hk.
    + split_and!; [| |done| | |done].
      * split; [by intros (? & ? & [=]) | by intros (_ & [? [=]] & _)].
      * by intros ? ? [=].
      * by intros ? ? ? ? _ [=].
      * by intros ? ? _ [=].
    + destruct (git_apply k pf fs) as [fs1 [rc out err|errno filename|]] eqn:Hg.
      * destruct (Z.eqb_spec rc 0) as [->|Hrc].
        -- split_and!; [| |intros _ H; by destruct (H es)| | |done].
           ++ split; [by intros (? & ? & [=])|].
              intros (_ & _ & ? & ? & ? & ? & [= <- <- <- <-] & ?). done.
           ++ by intros ? ? [=].
           ++ by intros ? ? ? ? _ _ [=].
           ++ by intros ? ? _ _ [=].
        -- split_and!; [| |intros _ H; by destruct (H es)| | |done].
           ++ split; [|intros _; eauto].
              intros _. split_and!; [done|eauto|]. by exists fs1, rc, out, err.
           ++ intros fs' msg [= <- <-]. exists rc, out, err.
              destruct (patch_failure_contains pf out err)
                as (msg' & [= <-] & ? & ? & ?). done.
           ++ by intros ? ? ? ? _ _ [=].
           ++ by intros ? ? _ _ [=].
      * split_and!; [| |intros _ H; by destruct (H es)| | |done].
        -- split; [by intros (? & ? & [=])|].
           by intros (_ & _ & ? & ? & ? & ? & [=] & _).
        -- by intros ? ? [=].
        -- by intros ? ? ? ? _ _ [= _ <- <-].
        -- by intros ? ? _ _ [=].
      * split_and!; [| |intros _ H; by destruct (H es)| | |done].
        -- split; [by intros (? & ? & [=])|].
           by intros (_ & _ & ? & ? & ? & ? & [=] & _).
        -- by intros ? ? [=].
        -- by intros ? ? ? ? _ _ [=].
        -- by intros ? ? _ _ [= <-].
    + split_and!; [| |done| | |done].
      * split; [intros (? & ? & [= _ H]) | by intros (_ & [? [=]] & _)].
        unfold no_entry in H. by destruct (through_file k fs).
      * intros ? ? [= _ H]. unfold no_entry in H. by destruct (through_file k fs).
      * by intros ? ? ? ? _ [=].
      * by intros ? ? _ [=].
  - rewrite (apply_optional_patch_absent k pf fs Hpf).
    split_and!; [| |by intros [? [=]]| | |done].
    + split; [by intros (? & ? & [=]) | by intros [[? [=]] _]].
    + by intros ? ? [=].
    + by intros ? ? ? ? [? [=]].
    + by intros ? ? [? [=]].
Qed.

End PatchApplier.

Lemma apply_optional_patch_failing_run :
  apply_optional_patch rejecting_git ["k"%string] sample_patch kernel_with_patch =
    (kernel_with_patch,
     Raise (patch_failure sample_patch (str "Checking patch Makefile...")
              (str "error: patch failed"))) /\
  apply_optional_patch rejecting_git ["k"%string] sample_patch (Dir ∅) =
    (Dir ∅, Ok tt).
Proof. split; vm_compute; reflexivity. Qed.

Lemma apply_optional_patch_fatal_iff_witness :
  (exists fs' msg,
     apply_optional_patch rejecting_git ["k"%string] sample_patch
       kernel_with_patch = (fs', Raise (SystemExit msg))) /\
  apply_optional_patch rejecting_git ["k"%string] sample_patch tree_with_patch
    = (tree_with_patch, Raise (FileNotFoundError ["k"%string])) /\
  apply_optional_patch rejecting_git ["k"%string] sample_patch (Dir ∅)
    = (Dir ∅, Ok tt).
Proof.
  pose proof (apply_optional_patch_fatal_iff rejecting_git ["k"%string]
                sample_patch) as T.
  split_and!.
  - apply (proj1 (T kernel_with_patch)).
    split_and!; [vm_compute; eauto | vm_compute; eauto |].
    eexists _, _, _, _. split; [vm_compute; reflexivity | discriminate].
  - apply (proj1 (proj2 (proj2 (T tree_with_patch)))).
    + vm_compute; eauto.
    + intros es. by vm_compute.
  - apply (proj2 (proj2 (proj2 (proj2 (proj2 (T (Dir ∅))))))).
    vm_compute; reflexivity.
Defined.

(** C6, as stated, fails.  The patch file is there and the patch cannot
    be applied, git having no directory to run in: what is raised is the
    [FileNotFoundError] of [subprocess.run] for the kernel directory,
    which is no [SystemExit] and carries neither the path of the patch
    file nor any captured output. *)
Lemma missing_kernel_dir_gives_no_diagnostic :
  let r := apply_optional_patch rejecting_git ["k"%string] sample_patch
             tree_with_patch in
  is_Some (fs_lookup sample_patch tree_with_patch) /\
  fs_lookup ["k"%string] tree_with_patch = None /\
  r = (tree_with_patch, Raise (FileNotFoundError ["k"%string])) /\
  ~ (exists fs' msg,
       r = (fs', Raise (SystemExit msg)) /\ is_in (path_str sample_patch) msg = true).
Proof.
  cbv zeta. split_and!; [vm_compute; eauto | vm_compute; reflexivity
                        | vm_compute; reflexivity |].
  intros (fs' & msg & H & _). vm_compute in H. discriminate.
Qed.


(** ** Directories: lookups after [fs_put] and [fs_remove] *)

Lemma fs_lookup_app (p r : path) (fs : node) :
  fs_lookup (p ++ r) fs =
    match fs_lookup p fs with
    | Some n => fs_lookup r n
    | None => None
    end.
Proof.
  revert fs; induction p as [|c p IH]; intros fs; simpl; [done|].
  destruct fs as [d|es]; [done|]. destruct (es !! c); [apply IH | done].
Qed.

Lemma unrelated_diverge (p q : path) :
  ¬ p `prefix_of` q -> ¬ q `prefix_of` p -> diverge p q.
Proof.
  revert q; induction p as [|x p IH]; intros q Hpq Hqp.
  - exfalso. apply Hpq. apply prefix_nil.
  - destruct q as [|y q]; [exfalso; apply Hqp, prefix_nil|].
    destruct (decide (x = y)) as [->|Hxy].
    + destruct (IH q) as (c & a & b & p' & q' & -> & -> & Hab).
      * intros H. apply Hpq. by apply prefix_cons.
      * intros H. apply Hqp. by apply prefix_cons.
      * exists (y :: c), a, b, p', q'. done.
    + exists [], x, y, p, q. done.
Qed.

Lemma diverge_sym (p q : path) : diverge p q -> diverge q p.
Proof.
  intros (c & x & y & p' & q' & -> & -> & H).
  exists c, y, x, q', p'. done.
Qed.

Lemma diverge_app_l (p q r : path) : diverge p q -> diverge (p ++ r) q.
Proof.
  intros (c & x & y & p' & q' & -> & -> & H).
  exists c, x, y, (p' ++ r), q'. by rewrite <- app_assoc.
Qed.

Lemma fs_lookup_empty_dir (p : path) :
  p <> [] -> fs_lookup p (Dir ∅) = None.
Proof. destruct p; [done|]. intros _. simpl. by rewrite lookup_empty. Qed.

Lemma fs_put_frame (p q : path) (v fs fs' : node) :
  diverge p q -> fs_put p v fs = Some fs' -> fs_lookup q fs' = fs_lookup q fs.
Proof.
  intros (c & x & y & p' & q' & -> & -> & Hxy).
  revert fs fs'; induction c as [|a c IH]; intros fs fs' Hput; simpl in *.
  - destruct fs as [d|es]; [done|].
    destruct (fs_put p' v _) as [m|]; [|done]. injection Hput as <-.
    by rewrite lookup_insert_ne.
  - destruct fs as [d|es]; [done|].
    destruct (fs_put (c ++ x :: p') v _) as [m|] eqn:E; [|done].
    injection Hput as <-. rewrite lookup_insert_eq.
    rewrite (IH _ _ E). destruct (es !! a); simpl; [done|].
    apply fs_lookup_empty_dir. by destruct c.
Qed.

Lemma fs_remove_cons (a : string) (p : path) (es : gmap string node) :
  p <> [] ->
  fs_remove (a :: p) (Dir es) =
    match es !! a with
    | Some m => Dir (<[a := fs_remove p m]> es)
    | None => Dir es
    end.
Proof. by destruct p. Qed.

Lemma fs_remove_frame (p q : path) (fs : node) :
  diverge p q -> fs_lookup q (fs_remove p fs) = fs_lookup q fs.
Proof.
  intros (c & x & y & p' & q' & -> & -> & Hxy).
  revert fs; induction c as [|a c IH]; intros fs.
  - destruct fs as [d|es]; [done|].
    destruct p' as [|z p'].
    + simpl. by rewrite lookup_delete_ne.
    + simpl. destruct (es !! x); [|done]. simpl. by rewrite lookup_insert_ne.
  - destruct fs as [d|es]; [done|].
    change ((a :: c) ++ x :: p') with (a :: (c ++ x :: p')).
    rewrite fs_remove_cons by (by destruct c).
    change ((a :: c) ++ y :: q') with (a :: (c ++ y :: q')).
    destruct (es !! a) as [m|] eqn:Ea; [|done].
    cbn [fs_lookup]. rewrite lookup_insert_eq, Ea. apply IH.
Qed.

(** Putting an entry into an existing directory. *)
Lemma fs_put_child (p : path) (c : string) (v fs : node)
    (ds : gmap string node) :
  fs_lookup p fs = Some (Dir ds) ->
  exists fs',
    fs_put (p ++ [c]) v fs = Some fs' /\
    fs_lookup p fs' = Some (Dir (<[c := v]> ds)).
Proof.
  revert fs; induction p as [|a p IH]; intros fs H; simpl in *.
  - injection H as ->. eexists. split; [reflexivity|done].
  - destruct fs as [d|es]; [done|].
    destruct (es !! a) as [m|] eqn:Ea; [|done]. simpl.
    destruct (IH _ H) as (m' & -> & Hm'). eexists. split; [reflexivity|].
    simpl. by rewrite lookup_insert_eq.
Qed.

(** Removing an entry from an existing directory. *)
Lemma fs_remove_child (p : path) (c : string) (fs : node)
    (ds : gmap string node) :
  fs_lookup p fs = Some (Dir ds) ->
  fs_lookup p (fs_remove (p ++ [c]) fs) = Some (Dir (delete c ds)).
Proof.
  revert fs; induction p as [|a p IH]; intros fs H.
  - simpl in *. by injection H as ->.
  - simpl in H. destruct fs as [d|es]; [done|].
    destruct (es !! a) as [m|] eqn:Ea; [|done].
    change ((a :: p) ++ [c]) with (a :: (p ++ [c])).
    rewrite fs_remove_cons by (by destruct p).
    rewrite Ea. cbn [fs_lookup]. rewrite lookup_insert_eq. by apply IH.
Qed.


(** ** The source copier *)

Lemma ksu_dst_parent (k : path) :
  ksu_dst k = (k ++ ["drivers"%string]) ++ ["kernelsu"%string].
Proof. unfold ksu_dst. by rewrite <- app_assoc. Qed.

Lemma copy_kernelsu_sources_run (s k : path) (fs : node)
    (es ds : gmap string node) :
  fs_lookup (ksu_src s) fs = Some (Dir es) ->
  ¬ ksu_src s `prefix_of` ksu_dst k ->
  ¬ ksu_dst k `prefix_of` ksu_src s ->
  fs_lookup (k ++ ["drivers"%string]) fs = Some (Dir ds) ->
  (forall d, ds !! "kernelsu"%string <> Some (File d)) ->
  (forall es', es !! "Kconfig"%string <> Some (Dir es')) ->
  exists fs',
    copy_kernelsu_sources s k fs = (fs', Ok tt) /\
    fs_lookup (ksu_dst k) fs' = Some (Dir (kconfig_normalised es)) /\
    forall q, diverge (ksu_dst k) q -> fs_lookup q fs' = fs_lookup q fs.
Proof.
  intros Hsrc Hsd Hds Hpar Hnofile Hkc.
  pose proof (unrelated_diverge _ _ Hds Hsd) as Hdiv.
  unfold copy_kernelsu_sources. cbv zeta.
  fold (ksu_src s) (ksu_dst k).
  assert (is_dir (ksu_src s) fs = (fs, Ok true)) as E
    by (unfold is_dir; by rewrite Hsrc).
  run_step E. simpl negb.
  run_step (when_false_run
              (raise (SystemExit (str "KernelSU sources not found at: " ++
                                  path_str (ksu_src s)))) fs).
  run_step (path_exists_run (ksu_dst k) fs).
  (* the destination is cleared *)
  assert (exists fs1 ds1,
    when (bool_decide (is_Some (fs_lookup (ksu_dst k) fs))) (rmtree (ksu_dst k)) fs
      = (fs1, Ok tt) /\
    fs_lookup (k ++ ["drivers"%string]) fs1 = Some (Dir ds1) /\
    ds1 !! "kernelsu"%string = None /\
    forall q, diverge (ksu_dst k) q -> fs_lookup q fs1 = fs_lookup q fs)
    as (fs1 & ds1 & E1 & Hpar1 & Hgone & Hfr1).
  { assert (fs_lookup (ksu_dst k) fs = ds !! "kernelsu"%string) as Hd.
    { rewrite ksu_dst_parent, fs_lookup_app, Hpar. simpl.
      by destruct (ds !! "kernelsu"%string). }
    destruct (ds !! "kernelsu"%string) as [[d|es0]|] eqn:Eds.
    - by destruct (Hnofile d).
    - rewrite bool_decide_eq_true_2 by (rewrite Hd; eauto).
      simpl when. unfold rmtree. rewrite Hd.
      exists (fs_remove (ksu_dst k) fs), (delete "kernelsu"%string ds).
      split_and!; [done| |apply lookup_delete_eq|].
      + rewrite ksu_dst_parent. by apply fs_remove_child.
      + intros q Hq. by apply fs_remove_frame.
    - rewrite bool_decide_eq_false_2 by (rewrite Hd; by intros [? ?]).
      exists fs, ds. done. }
  run_step E1.
  (* the copy *)
  assert (exists fs2,
    copytree (ksu_src s) (ksu_dst k) fs1 = (fs2, Ok tt) /\
    fs_lookup (ksu_dst k) fs2 = Some (Dir es) /\
    forall q, diverge (ksu_dst k) q -> fs_lookup q fs2 = fs_lookup q fs)
    as (fs2 & E2 & Hdst2 & Hfr2).
  { unfold copytree. rewrite (Hfr1 _ Hdiv), Hsrc.
    assert (fs_lookup (ksu_dst k) fs1 = None) as Hd.
    { rewrite ksu_dst_parent, fs_lookup_app, Hpar1. simpl. by rewrite Hgone. }
    rewrite bool_decide_eq_false_2 by (rewrite Hd; by intros [? ?]).
    rewrite bool_decide_eq_false_2 by done.
    destruct (fs_put_child (k ++ ["drivers"%string]) "kernelsu" (Dir es) fs1 ds1
                Hpar1) as (fs2 & Hput & Hpar2).
    rewrite <- ksu_dst_parent in Hput. rewrite Hput.
    exists fs2. split_and!; [done| |].
    - by apply fs_lookup_put in Hput.
    - intros q Hq. rewrite (fs_put_frame _ _ _ _ _ Hq Hput). by apply Hfr1. }
  run_step E2.
  run_step (path_exists_run (ksu_dst k ++ ["Kconfig"%string]) fs2).
  assert (fs_lookup (ksu_dst k ++ ["Kconfig"%string]) fs2 = es !! "Kconfig"%string)
    as Hk.
  { rewrite fs_lookup_app, Hdst2. simpl. by destruct (es !! "Kconfig"%string). }
  unfold kconfig_normalised.
  destruct (es !! "Kconfig"%string) as [[d|es0]|] eqn:Ekc.
  - rewrite bool_decide_eq_true_2 by (rewrite Hk; eauto). simpl when.
    run_step (read_text_file _ _ _ Hk).
    unfold write_text. rewrite Hk.
    destruct (fs_put_child (ksu_dst k) "Kconfig"
                (File (encode_utf8 (text_of d))) fs2 es Hdst2)
      as (fs3 & Hput & Hdst3).
    rewrite Hput. exists fs3. split_and!; [done..|].
    intros q Hq.
    rewrite (fs_put_frame _ _ _ _ _ (diverge_app_l _ _ _ Hq) Hput).
    by apply Hfr2.
  - by destruct (Hkc es0).
  - rewrite bool_decide_eq_false_2 by (rewrite Hk; by intros [? ?]).
    exists fs2. done.
Qed.

(** A normal return of a sequence is a normal return of its steps. *)
Lemma bind_ok_inv {A B} (m : M A) (k : A -> M B) (fs fs' : node) (b : B) :
  bind m k fs = (fs', Ok b) ->
  exists fs1 a, m fs = (fs1, Ok a) /\ k a fs1 = (fs', Ok b).
Proof.
  unfold bind. destruct (m fs) as [fs1 [a|e]]; [eauto | done].
Qed.

Lemma fs_lookup_removed (p : path) (fs : node) :
  p <> [] -> fs_lookup p (fs_remove p fs) = None.
Proof.
  revert fs. induction p as [|c p IH]; intros fs Hp; [done|].
  destruct fs as [d|es]; [done|].
  destruct p as [|c' p].
  - simpl. by rewrite lookup_delete_eq.
  - rewrite fs_remove_cons by done.
    destruct (es !! c) as [m|] eqn:Ec.
    + cbn [fs_lookup]. rewrite lookup_insert_eq. by apply IH.
    + cbn [fs_lookup]. by rewrite Ec.
Qed.

Lemma through_file_remove (p : path) (fs : node) :
  through_file p (fs_remove p fs) = through_file p fs.
Proof.
  revert fs. induction p as [|c p IH]; intros fs; [done|].
  destruct fs as [d|es]; [done|].
  destruct p as [|c' p].
  - simpl. rewrite lookup_delete_eq. by destruct (es !! c).
  - rewrite fs_remove_cons by done.
    destruct (es !! c) as [m|] eqn:Ec.
    + cbn [through_file]. rewrite lookup_insert_eq, Ec. apply IH.
    + done.
Qed.

(** [fs_put] fails only on a way through a regular file. *)
Lemma fs_put_through (p : path) (v fs : node) :
  through_file p fs = false -> is_Some (fs_put p v fs).
Proof.
  revert fs. induction p as [|c p IH]; intros fs H; [by eexists|].
  destruct fs as [d|es]; [done|]. cbn [through_file] in H. cbn [fs_put].
  assert (through_file p (default (Dir ∅) (es !! c)) = false) as H'.
  { destruct (es !! c) as [m|]; [done|]. simpl. by destruct p. }
  destruct (IH _ H') as [m' ->]. by eexists.
Qed.

Lemma write_text_diverge (p q : path) (t : text) (fs : node) :
  diverge p q -> fs_lookup q (write_text p t fs).1 = fs_lookup q fs.
Proof.
  intros Hd. unfold write_text.
  destruct (fs_put p (File (encode_utf8 t)) fs) as [fs'|] eqn:E.
  - apply (fs_put_frame _ _ _ _ _ Hd) in E.
    destruct (fs_lookup p fs) as [[?|?]|]; [done..|].
    by destruct (fs_lookup (parent p) fs) as [[?|?]|].
  - destruct (fs_lookup p fs) as [[?|?]|]; [done..|].
    by destruct (fs_lookup (parent p) fs) as [[?|?]|].
Qed.

(** What a normal return of [copytree] tells. *)
Lemma copytree_ok_inv (src dst : path) (fs fs' : node) :
  copytree src dst fs = (fs', Ok tt) ->
  exists es,
    fs_lookup src fs = Some (Dir es) /\
    fs_lookup dst fs = None /\
    ¬ src `prefix_of` dst /\
    fs_put dst (Dir es) fs = Some fs'.
Proof.
  unfold copytree. destruct (fs_lookup src fs) as [[d|es]|]; [done| |done].
  destruct (fs_lookup dst fs) as [n|] eqn:Hd.
  { rewrite bool_decide_eq_true_2 by eauto. done. }
  rewrite bool_decide_eq_false_2 by (by intros [? ?]).
  destruct (decide (src `prefix_of` dst)) as [Hp|Hp].
  { rewrite bool_decide_eq_true_2 by done. done. }
  rewrite bool_decide_eq_false_2 by done.
  destruct (fs_put dst (Dir es) fs) as [fs2|] eqn:E; [|done].
  intros [= <-]. by exists es.
Qed.

(** A path below one at which there is nothing leads nowhere. *)
Lemma fs_lookup_below_none (p q : path) (fs : node) :
  fs_lookup p fs = None -> p `prefix_of` q -> fs_lookup q fs = None.
Proof. intros H [r ->]. by rewrite fs_lookup_app, H. Qed.

(** What a normal return of [copy_kernelsu_sources] tells: the source
    was a directory, the destination is outside it and holds its
    entries, the Kconfig read and written back, and nothing beside the
    destination has changed. *)
Lemma copy_kernelsu_sources_ok_inv (s k : path) (fs fs' : node) :
  copy_kernelsu_sources s k fs = (fs', Ok tt) ->
  exists es,
    fs_lookup (ksu_src s) fs = Some (Dir es) /\
    diverge (ksu_dst k) (ksu_src s) /\
    fs_lookup (ksu_dst k) fs' = Some (Dir (kconfig_normalised es)) /\
    forall q, diverge (ksu_dst k) q -> fs_lookup q fs' = fs_lookup q fs.
Proof.
  unfold copy_kernelsu_sources. cbv zeta. fold (ksu_src s) (ksu_dst k).
  intros H.
  apply bind_ok_inv in H as (fs0 & d & Hd & H). unfold is_dir in Hd.
  injection Hd as <- <-.
  destruct (fs_lookup (ksu_src s) fs) as [[d0|es]|] eqn:Hsrc;
    [by apply bind_ok_inv in H as (? & ? & [=] & _)|
    |by apply bind_ok_inv in H as (? & ? & [=] & _)].
  apply bind_ok_inv in H as (fs0 & [] & [= <-] & H).
  apply bind_ok_inv in H as (fs0 & e & [= <- <-] & H).
  apply bind_ok_inv in H as (fs1 & [] & Hclear & H).
  apply bind_ok_inv in H as (fs2 & [] & Hcopy & H).
  apply bind_ok_inv in H as (fs3 & e & [= <- <-] & H).
  apply copytree_ok_inv in Hcopy as (es1 & Hsrc1 & Hdst1 & Hnp & Hput).
  (* source and destination lie apart *)
  assert (diverge (ksu_dst k) (ksu_src s)) as Hdiv.
  { apply unrelated_diverge; [|done].
    intros Hp. by rewrite (fs_lookup_below_none _ _ _ Hdst1 Hp) in Hsrc1. }
  (* what clearing the destination did *)
  assert (forall q, diverge (ksu_dst k) q -> fs_lookup q fs1 = fs_lookup q fs)
    as Hfr1.
  { intros q Hq.
    destruct (fs_lookup (ksu_dst k) fs) as [[d0|ds0]|] eqn:Hd0.
    - rewrite bool_decide_eq_true_2 in Hclear by eauto.
      simpl when in Hclear. unfold rmtree in Hclear. by rewrite Hd0 in Hclear.
    - rewrite bool_decide_eq_true_2 in Hclear by eauto.
      simpl when in Hclear. unfold rmtree in Hclear. rewrite Hd0 in Hclear.
      injection Hclear as <-. by apply fs_remove_frame.
    - rewrite bool_decide_eq_false_2 in Hclear by (by intros [? ?]).
      by injection Hclear as <-. }
  rewrite (Hfr1 _ Hdiv), Hsrc in Hsrc1. injection Hsrc1 as <-.
  pose proof (fs_lookup_put _ _ _ _ Hput) as Hdst2.
  assert (forall q, diverge (ksu_dst k) q -> fs_lookup q fs2 = fs_lookup q fs)
    as Hfr2.
  { intros q Hq. rewrite (fs_put_frame _ _ _ _ _ Hq Hput). by apply Hfr1. }
  exists es. split_and!; [done..| |].
  - (* the Kconfig step *)
    assert (fs_lookup (ksu_dst k ++ ["Kconfig"%string]) fs2
            = es !! "Kconfig"%string) as Hk.
    { rewrite fs_lookup_app, Hdst2. simpl. by destruct (es !! "Kconfig"%string). }
    unfold kconfig_normalised. rewrite Hk in H.
    destruct (es !! "Kconfig"%string) as [[d0|es0]|] eqn:Ekc.
    + rewrite bool_decide_eq_true_2 in H by eauto. simpl when in H.
      rewrite (bind_ok _ _ _ _ _ (read_text_file _ _ _ Hk)) in H.
      unfold write_text in H. rewrite Hk in H.
      destruct (fs_put_child (ksu_dst k) "Kconfig"
                  (File (encode_utf8 (text_of d0))) fs2 es Hdst2)
        as (fs4 & Hput4 & Hdst4).
      rewrite Hput4 in H. by injection H as <-.
    + rewrite bool_decide_eq_true_2 in H by eauto. simpl when in H.
      unfold bind, read_text in H. by rewrite Hk in H.
    + rewrite bool_decide_eq_false_2 in H by (by intros [? ?]).
      by injection H as <-.
  - intros q Hq.
    assert (fs_lookup q fs' = fs_lookup q fs2) as ->; [|by apply Hfr2].
    destruct (bool_decide _) in H; [|by injection H as <-].
    simpl when in H. unfold bind, read_text in H.
    destruct (fs_lookup (ksu_dst k ++ ["Kconfig"%string]) fs2) as [[d0|?]|];
      [|done..].
    pose proof (write_text_diverge (ksu_dst k ++ ["Kconfig"%string]) q
                  (text_of d0) fs2 (diverge_app_l _ _ _ Hq)) as Hw.
    by rewrite H in Hw.
Qed.

Lemma ksu_dst_nonempty (k : path) : ksu_dst k <> [].
Proof. unfold ksu_dst. by destruct k. Qed.

(** When [copy_kernelsu_sources] returns normally: the source is a
    directory, source and destination are not inside one another, no
    regular file is at the destination or on the way to it, and the
    Kconfig of the source is not a directory.  The directories above the
    destination need not exist. *)
Lemma copy_kernelsu_sources_succeeds (s k : path) (fs : node)
    (es : gmap string node) :
  fs_lookup (ksu_src s) fs = Some (Dir es) ->
  ¬ ksu_src s `prefix_of` ksu_dst k ->
  ¬ ksu_dst k `prefix_of` ksu_src s ->
  through_file (ksu_dst k) fs = false ->
  (forall d, fs_lookup (ksu_dst k) fs <> Some (File d)) ->
  (forall es', es !! "Kconfig"%string <> Some (Dir es')) ->
  exists fs', copy_kernelsu_sources s k fs = (fs', Ok tt).
Proof.
  intros Hsrc Hsd Hds Hway Hnofile Hkc.
  pose proof (unrelated_diverge _ _ Hds Hsd) as Hdiv.
  unfold copy_kernelsu_sources. cbv zeta.
  fold (ksu_src s) (ksu_dst k).
  assert (is_dir (ksu_src s) fs = (fs, Ok true)) as E
    by (unfold is_dir; by rewrite Hsrc).
  run_step E. simpl negb.
  run_step (when_false_run
              (raise (SystemExit (str "KernelSU sources not found at: " ++
                                  path_str (ksu_src s)))) fs).
  run_step (path_exists_run (ksu_dst k) fs).
  (* the destination is cleared *)
  assert (exists fs1,
    when (bool_decide (is_Some (fs_lookup (ksu_dst k) fs))) (rmtree (ksu_dst k)) fs
      = (fs1, Ok tt) /\
    fs_lookup (ksu_dst k) fs1 = None /\
    through_file (ksu_dst k) fs1 = false /\
    fs_lookup (ksu_src s) fs1 = Some (Dir es))
    as (fs1 & E1 & Hgone & Hway1 & Hsrc1).
  { destruct (fs_lookup (ksu_dst k) fs) as [[d|ds0]|] eqn:Hd.
    - by destruct (Hnofile d).
    - rewrite bool_decide_eq_true_2 by eauto.
      simpl when. unfold rmtree. rewrite Hd.
      exists (fs_remove (ksu_dst k) fs). split_and!; [done| | |].
      + apply fs_lookup_removed, ksu_dst_nonempty.
      + by rewrite through_file_remove.
      + by rewrite fs_remove_frame.
    - rewrite bool_decide_eq_false_2 by (by intros [? ?]).
      exists fs. done. }
  run_step E1.
  (* the copy *)
  destruct (fs_put_through (ksu_dst k) (Dir es) fs1 Hway1) as [fs2 Hput].
  assert (copytree (ksu_src s) (ksu_dst k) fs1 = (fs2, Ok tt)) as E2.
  { unfold copytree. rewrite Hsrc1, Hgone.
    rewrite bool_decide_eq_false_2 by (by intros [? ?]).
    rewrite bool_decide_eq_false_2 by done. by rewrite Hput. }
  run_step E2.
  pose proof (fs_lookup_put _ _ _ _ Hput) as Hdst2.
  run_step (path_exists_run (ksu_dst k ++ ["Kconfig"%string]) fs2).
  assert (fs_lookup (ksu_dst k ++ ["Kconfig"%string]) fs2 = es !! "Kconfig"%string)
    as Hk.
  { rewrite fs_lookup_app, Hdst2. simpl. by destruct (es !! "Kconfig"%string). }
  destruct (es !! "Kconfig"%string) as [[d|es0]|] eqn:Ekc.
  - rewrite bool_decide_eq_true_2 by (rewrite Hk; eauto). simpl when.
    run_step (read_text_file _ _ _ Hk).
    unfold write_text. rewrite Hk.
    destruct (fs_put_child (ksu_dst k) "Kconfig"
                (File (encode_utf8 (text_of d))) fs2 es Hdst2)
      as (fs3 & Hput3 & Hdst3).
    rewrite Hput3. by exists fs3.
  - by destruct (Hkc es0).
  - rewrite bool_decide_eq_false_2 by (rewrite Hk; by intros [? ?]).
    by exists fs2.
Qed.

Lemma copy_kernelsu_sources_no_source (s k : path) (fs : node) :
  (forall es, fs_lookup (ksu_src s) fs <> Some (Dir es)) ->
  copy_kernelsu_sources s k fs =
    (fs, Raise (SystemExit (str "KernelSU sources not found at: " ++
                            path_str (ksu_src s)))).
Proof.
  intros H. unfold copy_kernelsu_sources. cbv zeta. fold (ksu_src s).
  assert (is_dir (ksu_src s) fs = (fs, Ok false)) as E.
  { unfold is_dir. destruct (fs_lookup (ksu_src s) fs) as [[d|es]|] eqn:E;
      [done| |done]. by destruct (H es). }
  run_step E. simpl negb. by apply bind_raise.
Qed.


(** C7, as the code has it.  Whenever [copy_kernelsu_sources] returns
    normally, the source [kernel] directory was there and the
    destination holds exactly its entries, those of any earlier
    destination being gone, except that its Kconfig is the Kconfig of
    the source read as text and written back: bytes that are not UTF-8
    replaced by U+FFFD and line ends normalised to "\n".  The call does
    return normally when the source directory is there, source and
    destination are not inside one another, no regular file is at the
    destination or on the way to it, and the source Kconfig is not a
    directory.  Without the source directory the call exits with a
    message naming that path and changes nothing. *)
Theorem copy_kernelsu_sources_mirror (s k : path) (fs : node) :
  (forall fs',
     copy_kernelsu_sources s k fs = (fs', Ok tt) ->
     exists es,
       fs_lookup (ksu_src s) fs = Some (Dir es) /\
       fs_lookup (ksu_dst k) fs' = Some (Dir (kconfig_normalised es)) /\
       (forall r, r <> [] -> r <> ["Kconfig"%string] ->
          fs_lookup (ksu_dst k ++ r) fs' = fs_lookup (ksu_src s ++ r) fs) /\
       file_at (ksu_dst k ++ ["Kconfig"%string]) fs' =
         (fun d => encode_utf8 (text_of d)) <$>
           file_at (ksu_src s ++ ["Kconfig"%string]) fs) /\
  (forall es,
     fs_lookup (ksu_src s) fs = Some (Dir es) ->
     ¬ ksu_src s `prefix_of` ksu_dst k ->
     ¬ ksu_dst k `prefix_of` ksu_src s ->
     through_file (ksu_dst k) fs = false ->
     (forall d, fs_lookup (ksu_dst k) fs <> Some (File d)) ->
     (forall es', es !! "Kconfig"%string <> Some (Dir es')) ->
     exists fs', copy_kernelsu_sources s k fs = (fs', Ok tt)) /\
  ((forall es, fs_lookup (ksu_src s) fs <> Some (Dir es)) ->
   copy_kernelsu_sources s k fs =
     (fs, Raise (SystemExit (str "KernelSU sources not found at: " ++
                             path_str (ksu_src s))))).
Proof.
  split_and!; [|apply copy_kernelsu_sources_succeeds
               |apply copy_kernelsu_sources_no_source].
  intros fs' E.
  destruct (copy_kernelsu_sources_ok_inv s k fs fs' E)
    as (es & Hsrc & _ & Hdst & _).
  exists es. split_and!; [done..| |].
  - intros r Hr Hrk. rewrite !fs_lookup_app, Hdst, Hsrc.
    destruct r as [|c r]; [done|]. simpl. unfold kconfig_normalised.
    destruct (es !! "Kconfig"%string) as [[d|es0]|] eqn:Ekc; [|done..].
    destruct (decide (c = "Kconfig"%string)) as [->|Hc].
    + rewrite lookup_insert_eq, Ekc. destruct r; [done|]. done.
    + by rewrite lookup_insert_ne.
  - unfold file_at. rewrite !fs_lookup_app, Hdst, Hsrc. simpl.
    unfold kconfig_normalised.
    destruct (es !! "Kconfig"%string) as [[d|es0]|] eqn:Ekc.
    + by rewrite lookup_insert_eq.
    + by rewrite Ekc.
    + by rewrite Ekc.
Qed.

Lemma copy_kernelsu_sources_mirror_witness :
  (exists es fs',
     copy_kernelsu_sources ["s"%string] ["k"%string] tree_without_kernel
       = (fs', Ok tt) /\
     fs_lookup (ksu_src ["s"%string]) tree_without_kernel = Some (Dir es) /\
     fs_lookup (ksu_dst ["k"%string]) fs' = Some (Dir (kconfig_normalised es))) /\
  copy_kernelsu_sources ["s"%string] ["k"%string] (Dir ∅) =
    (Dir ∅, Raise (SystemExit (str "KernelSU sources not found at: " ++
                               path_str (ksu_src ["s"%string])))).
Proof.
  pose proof (copy_kernelsu_sources_mirror ["s"%string] ["k"%string]) as T.
  split.
  - destruct (fs_lookup (ksu_src ["s"%string]) tree_without_kernel)
      as [[d|es0]|] eqn:Es; [by vm_compute in Es| |by vm_compute in Es].
    destruct (proj1 (proj2 (T tree_without_kernel)) es0 Es) as [fs' E].
    + by intros [r [=]].
    + by intros [r [=]].
    + vm_compute; reflexivity.
    + intros d. by vm_compute.
    + intros es' He. vm_compute in Es. injection Es as <-. by vm_compute in He.
    + destruct (proj1 (T tree_without_kernel) fs' E) as (es & Hsrc & Hdst & _).
      exists es, fs'. split_and!; [exact E | congruence | exact Hdst].
  - apply (proj2 (proj2 (T (Dir ∅)))). intros es. by vm_compute.
Defined.

(** C7, as stated, fails: the destination is not an exact mirror when
    the source Kconfig has line ends other than "\n".  The stale file is
    gone and ksu.c is copied as it is, but the Kconfig of the destination
    differs from the one of the source. *)
Lemma copy_normalises_kconfig_line_ends :
  let r := copy_kernelsu_sources ["s"%string] ["k"%string] tree_with_stale_copy in
  snd r = Ok tt /\
  file_at (ksu_dst ["k"%string] ++ ["stale.c"%string]) (fst r) = None /\
  file_at (ksu_dst ["k"%string] ++ ["ksu.c"%string]) (fst r) =
    Some (encode_utf8 (str "int ksu;")) /\
  file_at (ksu_src ["s"%string] ++ ["Kconfig"%string]) (fst r) =
    Some (encode_utf8 dos_kconfig) /\
  file_at (ksu_dst ["k"%string] ++ ["Kconfig"%string]) (fst r) =
    Some (encode_utf8 (str "config KSU" ++ [nl])) /\
  fs_lookup (ksu_dst ["k"%string]) (fst r) <> fs_lookup (ksu_src ["s"%string]) (fst r).
Proof.
  cbv zeta. split_and!; try (vm_compute; reflexivity).
  intros H.
  assert (file_at (ksu_dst ["k"%string] ++ ["Kconfig"%string])
            (fst (copy_kernelsu_sources ["s"%string] ["k"%string]
                    tree_with_stale_copy))
          = file_at (ksu_src ["s"%string] ++ ["Kconfig"%string])
              (fst (copy_kernelsu_sources ["s"%string] ["k"%string]
                      tree_with_stale_copy))) as E.
  { unfold file_at. rewrite !fs_lookup_app, H. done. }
  vm_compute in E. discriminate.
Qed.


(** ** The order of the steps of [main] *)


Lemma required_files_diverge (k : path) :
  diverge (ksu_dst k) (drivers_makefile k) /\
  diverge (ksu_dst k) (drivers_kconfig k) /\
  diverge (ksu_dst k) (defconfig_path k).
Proof.
  unfold ksu_dst, drivers_makefile, drivers_kconfig, defconfig_path.
  split_and!.
  - exists (k ++ ["drivers"%string]), "kernelsu"%string, "Makefile"%string, [], [].
    by rewrite <- !app_assoc.
  - exists (k ++ ["drivers"%string]), "kernelsu"%string, "Kconfig"%string, [], [].
    by rewrite <- !app_assoc.
  - exists k, "drivers"%string, "arch"%string, ["kernelsu"%string],
      ["arm64"; "configs"; "RMX3265_defconfig"]%string. done.
Qed.

(** ** Which steps can exit *)



















(** ** The matcher against the declarative relation *)

Lemma star_sound (cs : cset) (r : regex) :
  (forall prev s n, match_here r prev s = Some n -> Matches r prev s n) ->
  forall prev s n,
    star cs (match_here r) prev s = Some n -> Matches (IStar cs :: r) prev s n.
Proof.
  intros Hk prev s; revert prev.
  induction s as [|c s IH]; intros prev n; simpl.
  - intros H. apply M_star_stop. by apply Hk.
  - destruct (accepts cs c) eqn:Ec.
    + destruct (star cs (match_here r) (Some c) s) as [m|] eqn:E.
      * intros [= <-]. apply M_star_more; [done|]. by apply IH.
      * intros H. apply M_star_stop. by apply Hk.
    + intros H. apply M_star_stop. by apply Hk.
Qed.

Lemma match_here_sound (r : regex) (prev : option char) (s : text) (n : nat) :
  match_here r prev s = Some n -> Matches r prev s n.
Proof.
  revert prev s n; induction r as [|i r IH]; intros prev s n; simpl.
  - intros [= <-]. constructor.
  - destruct i.
    + destruct s as [|c s]; [done|]. destruct (accepts cs c) eqn:Ec; [|done].
      destruct (match_here r (Some c) s) as [m|] eqn:E; [|done].
      intros [= <-]. apply M_one; [done|]. by apply IH.
    + by apply star_sound.
    + destruct s as [|c s]; [done|]. destruct (accepts cs c) eqn:Ec; [|done].
      destruct (star cs (match_here r) (Some c) s) as [m|] eqn:E; [|done].
      intros [= <-]. apply M_plus; [done|]. by apply star_sound.
    + destruct s as [|c s]; [intros H; apply M_opt_skip; by apply IH|].
      destruct (accepts cs c) eqn:Ec; [|intros H; apply M_opt_skip; by apply IH].
      destruct (match_here r (Some c) s) as [m|] eqn:E.
      * intros [= <-]. apply M_opt_take; [done|]. by apply IH.
      * intros H. apply M_opt_skip. by apply IH.
    + destruct (at_bol prev) eqn:Eb; [|done]. intros H. apply M_bol; [done|].
      by apply IH.
    + destruct (at_eol s) eqn:Ee; [|done]. intros H. apply M_eol; [done|].
      by apply IH.
Qed.

(** Completeness: if there is a way to match, the search finds one. *)
Lemma match_here_complete (r : regex) (prev : option char) (s : text) (n : nat) :
  Matches r prev s n -> is_Some (match_here r prev s).
Proof.
  induction 1 as
    [prev s
    |cs r prev c s n Hc _ IH
    |cs r prev s n _ IH
    |cs r prev c s n Hc _ IH
    |cs r prev c s n Hc _ IH
    |cs r prev s n _ IH
    |cs r prev c s n Hc _ IH
    |r prev s n Hb _ IH
    |r prev s n He _ IH]; simpl in *.
  - eauto.
  - rewrite Hc. destruct IH as [m ->]. simpl. eauto.
  - destruct IH as [m Hm]. destruct s as [|c s]; simpl; [eauto|].
    destruct (accepts cs c); [|eauto].
    destruct (star cs (match_here r) (Some c) s); eauto.
  - rewrite Hc. destruct IH as [m ->]. eauto.
  - rewrite Hc. destruct IH as [m ->]. simpl. eauto.
  - destruct IH as [m Hm]. destruct s as [|c s]; [eauto|].
    destruct (accepts cs c); [|eauto].
    destruct (match_here r (Some c) s); eauto.
  - rewrite Hc. destruct IH as [m ->]. eauto.
  - by rewrite Hb.
  - by rewrite He.
Qed.

(** A match depends on the character before it only through [^]. *)
Lemma Matches_prev (r : regex) (prev prev' : option char) (s : text) (n : nat) :
  at_bol prev = at_bol prev' -> Matches r prev s n -> Matches r prev' s n.
Proof.
  intros Hb H. revert prev' Hb.
  induction H; intros prev' Hb; econstructor; eauto; congruence.
Qed.

(** A match inside one line is still one when more lines follow. *)
Lemma Matches_extend (r : regex) (prev : option char) (s t : text) (n : nat) :
  Matches r prev s n -> nl ∉ s -> Matches r prev (s ++ nl :: t) n.
Proof.
  induction 1 as
    [prev s
    |cs r prev c s n Hc _ IH
    |cs r prev s n _ IH
    |cs r prev c s n Hc _ IH
    |cs r prev c s n Hc _ IH
    |cs r prev s n _ IH
    |cs r prev c s n Hc _ IH
    |r prev s n Hb _ IH
    |r prev s n He _ IH]; intros Hnl;
    try (simpl; econstructor; eauto; apply IH; set_solver).
  apply M_eol; [|by apply IH].
  destruct s as [|c s]; [done|]. simpl in *.
  apply N.eqb_eq in He. subst c. exfalso. apply Hnl. left.
Qed.


(** ** Lines of a text *)

Lemma lines_nonempty (s : text) : lines s <> [].
Proof.
  induction s as [|c s IH]; simpl; [done|].
  destruct (c =? nl)%N; [done|]. by destruct (lines s).
Qed.

Lemma lines_single (l : text) : nl ∉ l -> lines l = [l].
Proof.
  induction l as [|c l IH]; intros H; simpl; [done|].
  destruct (c =? nl)%N eqn:E.
  - apply N.eqb_eq in E. subst c. exfalso. apply H. left.
  - rewrite IH; [done|]. intros ?. apply H. by right.
Qed.

Lemma lines_first (l s : text) :
  nl ∉ l -> lines (l ++ nl :: s) = l :: lines s.
Proof.
  induction l as [|c l IH]; intros H; simpl; [done|].
  destruct (c =? nl)%N eqn:E.
  - apply N.eqb_eq in E. subst c. exfalso. apply H. left.
  - rewrite IH; [done|]. intros ?. apply H. by right.
Qed.

Lemma lines_app_nl (a b : text) : lines (a ++ nl :: b) = lines a ++ lines b.
Proof.
  induction a as [|c a IH]; simpl; [done|].
  destruct (c =? nl)%N; [by rewrite IH|].
  rewrite IH. pose proof (lines_nonempty a). by destruct (lines a).
Qed.

(** Every text is its first line, alone or followed by a newline and
    the rest. *)
Lemma first_line_split (s : text) :
  exists l, (nl ∉ l) /\ (s = l \/ exists s', s = l ++ nl :: s').
Proof.
  induction s as [|c s (l & Hl & IH)].
  - exists []. split; [by intros ?%elem_of_nil | by left].
  - destruct (decide (c = nl)) as [->|Hc].
    + exists []. split; [by intros ?%elem_of_nil | right; eauto].
    + exists (c :: l). split.
      * intros [?|?]%elem_of_cons; congruence.
      * destruct IH as [->|(s' & ->)]; [by left | right; eauto].
Qed.

Lemma count_where_app (P : text -> bool) (a b : list text) :
  count_where P (a ++ b) = count_where P a + count_where P b.
Proof. induction a as [|l a IH]; simpl; [done|]. rewrite IH. lia. Qed.

Lemma count_where_sublist (P : text -> bool) (a b : list text) :
  a `sublist_of` b -> count_where P a <= count_where P b.
Proof. induction 1; simpl; [done|lia|lia]. Qed.

Lemma count_where_0 (P : text -> bool) (ls : list text) :
  count_where P ls = 0 <-> forall l, l ∈ ls -> P l = false.
Proof.
  induction ls as [|l ls IH]; simpl.
  - split; [by intros _ ? ?%elem_of_nil | done].
  - destruct (P l) eqn:E.
    + split; [done|]. intros H. rewrite H in E; [done|left].
    + rewrite IH. split.
      * intros H l' [->|?]%elem_of_cons; eauto.
      * intros H l' ?. apply H. by right.
Qed.

(** ** Substitution, line by line *)

Lemma anchored_not_bol (r : regex) (prev : option char) (s : text) :
  bol_anchored r -> at_bol prev = false -> match_here r prev s = None.
Proof.
  intros Hr Hb. destruct (match_here r prev s) eqn:E; [|done].
  apply Hr in E. congruence.
Qed.

Lemma sub_from_skip (r : regex) (repl : text) (k : nat) (prev : option char)
    (s : text) :
  k < length s ->
  sub_from r repl (S k) prev s = sub_from r repl 0 (s !! k) (drop (S k) s).
Proof.
  revert prev s; induction k as [|k IH]; intros prev s Hk.
  - destruct s as [|c s]; [simpl in Hk; lia|]. done.
  - destruct s as [|c s]; [simpl in Hk; lia|].
    simpl in Hk. cbn [sub_from]. rewrite IH by lia. done.
Qed.

Lemma sub_from_match (r : regex) (repl : text) (prev : option char) (s : text)
    (k : nat) :
  match_here r prev s = Some (S k) ->
  sub_from r repl 0 prev s =
    repl ++ sub_from r repl 0 (s !! k) (drop (S k) s).
Proof.
  intros H. pose proof (match_here_length _ _ _ _ H) as Hl.
  destruct s as [|c s]; [simpl in Hl; lia|].
  cbn [sub_from]. rewrite H. f_equal.
  destruct k as [|k]; [done|].
  simpl in Hl. rewrite sub_from_skip by lia. done.
Qed.

Lemma sub_from_scan_line (r : regex) (repl : text) (prev : option char)
    (l s : text) :
  bol_anchored r -> nl ∉ l ->
  match_here r prev (l ++ nl :: s) = None ->
  sub_from r repl 0 prev (l ++ nl :: s) =
    l ++ nl :: sub_from r repl 0 (Some nl) s.
Proof.
  intros Hr. revert prev; induction l as [|c l IH]; intros prev Hl H.
  - simpl in *. by rewrite H.
  - change ((c :: l) ++ nl :: s) with (c :: (l ++ nl :: s)) in *.
    cbn [sub_from]. rewrite H. simpl. f_equal. apply IH.
    + intros ?. apply Hl. by right.
    + apply anchored_not_bol; [done|]. simpl. apply N.eqb_neq.
      intros ->. apply Hl. left.
Qed.

Lemma sub_from_scan_last (r : regex) (repl : text) (prev : option char)
    (l : text) :
  bol_anchored r -> nl ∉ l ->
  match_here r prev l = None ->
  sub_from r repl 0 prev l = l.
Proof.
  intros Hr. revert prev; induction l as [|c l IH]; intros prev Hl H.
  - simpl. by rewrite H.
  - cbn [sub_from]. rewrite H. f_equal. apply IH.
    + intros ?. apply Hl. by right.
    + apply anchored_not_bol; [done|]. simpl. apply N.eqb_neq.
      intros ->. apply Hl. left.
Qed.


(** ** Where a match of a pattern ending in [$\n?] stops *)

Lemma ends_line_cons (c : char) (s : text) (n : nat) :
  ends_line s n -> ends_line (c :: s) (S n).
Proof.
  intros [H|(k & -> & H)]; [by left|]. right. exists (S k). done.
Qed.

Lemma eol_opt_nl_ends_line (prev : option char) (s : text) (n : nat) :
  match_here [IEol; IOpt (CLit nl)] prev s = Some n -> ends_line s n.
Proof.
  simpl. destruct s as [|c s]; simpl.
  - intros [= <-]. by left.
  - destruct (c =? nl)%N eqn:E; [|done].
    apply N.eqb_eq in E. subst c. intros [= <-]. right. exists 0. done.
Qed.

Lemma star_ends_line (cs : cset) (k : option char -> text -> option nat) :
  (forall prev s n, k prev s = Some n -> ends_line s n) ->
  forall prev s n, star cs k prev s = Some n -> ends_line s n.
Proof.
  intros Hk prev s; revert prev.
  induction s as [|c s IH]; intros prev n; simpl; [apply Hk|].
  destruct (accepts cs c); [|apply Hk].
  destruct (star cs k (Some c) s) as [m|] eqn:E; [|apply Hk].
  intros [= <-]. apply ends_line_cons. by apply IH in E.
Qed.

Lemma match_here_ends_line (r0 : regex) (prev : option char) (s : text)
    (n : nat) :
  match_here (r0 ++ [IEol; IOpt (CLit nl)]) prev s = Some n -> ends_line s n.
Proof.
  revert prev s n; induction r0 as [|i r0 IH]; intros prev s n.
  - apply eol_opt_nl_ends_line.
  - change ((i :: r0) ++ [IEol; IOpt (CLit nl)])
      with (i :: (r0 ++ [IEol; IOpt (CLit nl)])).
    cbn [match_here]. destruct i.
    + destruct s as [|c s]; [done|]. destruct (accepts cs c); [|done].
      destruct (match_here _ (Some c) s) as [m|] eqn:E; [|done].
      intros [= <-]. apply ends_line_cons. by apply IH in E.
    + apply star_ends_line, IH.
    + destruct s as [|c s]; [done|]. destruct (accepts cs c); [|done].
      destruct (star cs _ (Some c) s) as [m|] eqn:E; [|done].
      intros [= <-]. apply ends_line_cons.
      by apply (star_ends_line _ _ IH) in E.
    + destruct s as [|c s]; [apply IH|].
      destruct (accepts cs c); [|apply IH].
      destruct (match_here _ (Some c) s) as [m|] eqn:E; [|apply IH].
      intros [= <-]. apply ends_line_cons. by apply IH in E.
    + destruct (at_bol prev); [apply IH | done].
    + destruct (at_eol s); [apply IH | done].
Qed.

(** ** The disabled-marker pattern *)

Lemma not_set_re_anchored (sym : text) : bol_anchored (not_set_re sym).
Proof.
  intros prev s n. unfold not_set_re. cbn [match_here].
  by destruct (at_bol prev).
Qed.

Lemma ends_eol_opt_cons (i : item) (r : regex) :
  (exists r0, r = r0 ++ [IEol; IOpt (CLit nl)]) ->
  exists r0, i :: r = r0 ++ [IEol; IOpt (CLit nl)].
Proof. intros [r0 ->]. by exists (i :: r0). Qed.

Lemma ends_eol_opt_app (w r : regex) :
  (exists r0, r = r0 ++ [IEol; IOpt (CLit nl)]) ->
  exists r0, w ++ r = r0 ++ [IEol; IOpt (CLit nl)].
Proof. intros [r0 ->]. exists (w ++ r0). by rewrite app_assoc. Qed.

Lemma not_set_re_match (sym : text) (prev : option char) (s : text) (n : nat) :
  match_here (not_set_re sym) prev s = Some n ->
  (exists k, n = S k) /\ ends_line s n.
Proof.
  intros H. split.
  - unfold not_set_re in H. cbn [match_here] in H.
    destruct (at_bol prev); [|done]. destruct s as [|c s]; [done|].
    destruct (accepts _ c); [|done].
    destruct (star _ _ _ _) as [m|]; [|done]. injection H as <-. eauto.
  - assert (exists r0, not_set_re sym = r0 ++ [IEol; IOpt (CLit nl)])
      as [r0 E]; [|rewrite E in H; by apply match_here_ends_line in H].
    unfold not_set_re.
    repeat first [ by exists []
                 | apply ends_eol_opt_cons
                 | apply ends_eol_opt_app ].
Qed.


Lemma not_set_re_nil (sym : text) (prev : option char) :
  match_here (not_set_re sym) prev [] = None.
Proof. unfold not_set_re. cbn [match_here]. by destruct (at_bol prev). Qed.

Lemma sub_from_nil (r : regex) (repl : text) (prev : option char) :
  match_here r prev [] = None -> sub_from r repl 0 prev [] = [].
Proof. intros H. simpl. by rewrite H. Qed.

(** A line that is a marker when taken alone is matched where it stands
    in a text. *)
Lemma line_match_local (r : regex) (prev : option char) (l s : text) :
  at_bol prev = true -> nl ∉ l ->
  is_Some (match_here r None l) ->
  is_Some (match_here r prev l) /\ is_Some (match_here r prev (l ++ nl :: s)).
Proof.
  intros Hb Hl [n Hn].
  apply match_here_sound in Hn.
  apply (Matches_prev _ _ prev) in Hn; [|by rewrite Hb].
  split.
  - by apply match_here_complete in Hn.
  - apply (Matches_extend _ _ _ s) in Hn; [|done].
    by apply match_here_complete in Hn.
Qed.

Lemma unmatched_is_no_marker (sym : text) (prev : option char) (l : text) :
  at_bol prev = true -> nl ∉ l ->
  (match_here (not_set_re sym) prev l = None \/
   exists s, match_here (not_set_re sym) prev (l ++ nl :: s) = None) ->
  is_not_set_line sym l = false.
Proof.
  intros Hb Hl H. unfold is_not_set_line.
  destruct (match_here (not_set_re sym) None l) as [n|] eqn:E; [|done].
  destruct H as [H|[s H]].
  - destruct (line_match_local (not_set_re sym) prev l [] Hb Hl) as [[? ?] _];
      [by rewrite E|congruence].
  - destruct (line_match_local (not_set_re sym) prev l s Hb Hl) as [_ [? ?]];
      [by rewrite E|congruence].
Qed.

(** Step 1 of [set_defconfig_symbol]: the lines left by the removal are
    lines of the input (plus an empty last line when the text was cut at
    its end), and none of them is a disabled marker. *)
Lemma not_set_removed (sym : text) (x : text) (prev : option char) :
  at_bol prev = true ->
  lines (sub_from (not_set_re sym) [] 0 prev x) `sublist_of` (lines x ++ [[]]) /\
  forall l, l ∈ lines (sub_from (not_set_re sym) [] 0 prev x) ->
            is_not_set_line sym l = false.
Proof.
  remember (length x) as len eqn:Hlen.
  revert x prev Hlen.
  induction len as [len IH] using lt_wf_ind. intros x prev -> Hb.
  destruct (match_here (not_set_re sym) prev x) as [n|] eqn:Hm.
  - destruct (not_set_re_match _ _ _ _ Hm) as [[k ->] Hend].
    rewrite (sub_from_match _ _ _ _ _ Hm). simpl app.
    pose proof (match_here_length _ _ _ _ Hm) as Hle.
    destruct Hend as [Hend|(k' & [= <-] & Hk)].
    + rewrite Hend, sub_from_nil by apply not_set_re_nil. split.
      * apply sublist_inserts_l. done.
      * intros l ->%list_elem_of_singleton.
        unfold is_not_set_line. by rewrite not_set_re_nil.
    + pose proof (take_drop_middle x k nl Hk) as Hx.
      destruct (IH (length (drop (S k) x))
                  ltac:(rewrite length_drop; lia) (drop (S k) x) (Some nl)
                  eq_refl eq_refl) as [IH1 IH2].
      rewrite Hk. split; [|done].
      rewrite <- Hx at 2. rewrite lines_app_nl, <- app_assoc.
      by apply sublist_inserts_l.
  - destruct (first_line_split x) as (l & Hl & [->|(s' & ->)]).
    + rewrite sub_from_scan_last
        by (done || apply not_set_re_anchored).
      rewrite lines_single by done. split.
      * by apply sublist_inserts_r.
      * intros ? ->%list_elem_of_singleton.
        apply (unmatched_is_no_marker sym prev); auto.
    + rewrite sub_from_scan_line
        by (done || apply not_set_re_anchored).
      rewrite !lines_first by done.
      destruct (IH (length s')
                  ltac:(rewrite length_app; simpl; lia) s' (Some nl)
                  eq_refl eq_refl) as [IH1 IH2].
      split.
      * simpl. by apply sublist_skip.
      * intros l' [->|H]%elem_of_cons; [|by apply IH2].
        apply (unmatched_is_no_marker sym prev); eauto.
Qed.


(** ** The assignment patterns *)

(** The character before the position reached after reading [w]. *)
Lemma match_lit (w : text) (r : regex) (prev : option char) (s : text) :
  match_here (lit w ++ r) prev (w ++ s) =
    (fun n => length w + n) <$>
      match_here r (match last w with Some c => Some c | None => prev end) s.
Proof.
  revert prev; induction w as [|c w IH]; intros prev.
  - simpl. by destruct (match_here r prev s).
  - change (lit (c :: w) ++ r) with (IOne (CLit c) :: (lit w ++ r)).
    change ((c :: w) ++ s) with (c :: (w ++ s)).
    cbn [match_here accepts]. rewrite N.eqb_refl, IH.
    rewrite last_cons.
    destruct (last w); by destruct (match_here r _ s).
Qed.

Lemma match_lit_fail (w : text) (r : regex) (prev : option char) (s : text) :
  starts_with w s = false -> match_here (lit w ++ r) prev s = None.
Proof.
  revert prev s; induction w as [|c w IH]; intros prev s H; [done|].
  change (lit (c :: w) ++ r) with (IOne (CLit c) :: (lit w ++ r)).
  cbn [match_here accepts]. destruct s as [|d s]; [done|].
  simpl in H. rewrite N.eqb_sym.
  destruct (c =? d)%N; [|done]. simpl in H. by rewrite IH.
Qed.

Lemma star_dot_eol (prev : option char) (l rest : text) :
  nl ∉ l -> at_eol rest = true ->
  star CDot (match_here [IEol]) prev (l ++ rest) = Some (length l).
Proof.
  revert prev; induction l as [|c l IH]; intros prev Hl Hr.
  - simpl app. destruct rest as [|c rest]; [done|].
    simpl in Hr. apply N.eqb_eq in Hr. by subst c.
  - change ((c :: l) ++ rest) with (c :: (l ++ rest)). cbn [star accepts].
    replace (c =? nl)%N with false
      by (symmetry; apply N.eqb_neq; intros ->; apply Hl; left).
    simpl negb. cbv iota. rewrite IH; [done| |done].
    intros ?. apply Hl. by right.
Qed.

Lemma assign_prefix_re_anchored (sym : text) : bol_anchored (assign_prefix_re sym).
Proof.
  intros prev s n. unfold assign_prefix_re. cbn [match_here].
  by destruct (at_bol prev).
Qed.

Lemma assign_line_re_anchored (sym : text) : bol_anchored (assign_line_re sym).
Proof.
  intros prev s n. unfold assign_line_re. cbn [match_here].
  by destruct (at_bol prev).
Qed.

Lemma config_prefix_no_nl (sym : text) :
  nl ∉ sym -> nl ∉ str "CONFIG_" ++ sym ++ str "=".
Proof.
  intros H. rewrite !not_elem_of_app. split_and!; [|done|];
    vm_compute; set_solver.
Qed.

(** On a first line [l], followed by nothing or by a newline. *)
Lemma assign_line_re_first_line (sym : text) (prev : option char)
    (l rest : text) :
  nl ∉ sym -> nl ∉ l -> at_eol rest = true ->
  match_here (assign_line_re sym) prev (l ++ rest) =
    if at_bol prev && is_assignment_of sym l then Some (length l) else None.
Proof.
  intros Hsym Hl Hr. unfold assign_line_re, is_assignment_of.
  cbn [match_here]. destruct (at_bol prev); [|done]. rewrite andb_true_l.
  destruct (starts_with (str "CONFIG_" ++ sym ++ str "=") l) eqn:E.
  - apply starts_with_spec in E as [l2 ->].
    rewrite <- app_assoc, match_lit. cbn [match_here].
    rewrite star_dot_eol;
      [|intros ?; apply Hl; apply elem_of_app; by right|done].
    by rewrite (length_app (str "CONFIG_" ++ sym ++ str "=") l2).
  - apply match_lit_fail.
    destruct rest as [|c rest]; [by rewrite app_nil_r|].
    simpl in Hr. apply N.eqb_eq in Hr. subst c.
    rewrite starts_with_across_nl; [done|]. by apply config_prefix_no_nl.
Qed.

Lemma assign_prefix_re_first_line (sym : text) (prev : option char)
    (l rest : text) :
  nl ∉ sym -> nl ∉ l -> at_eol rest = true ->
  match_here (assign_prefix_re sym) prev (l ++ rest) =
    if at_bol prev && is_assignment_of sym l
    then Some (length (str "CONFIG_" ++ sym ++ str "=")) else None.
Proof.
  intros Hsym Hl Hr. unfold assign_prefix_re, is_assignment_of.
  cbn [match_here]. destruct (at_bol prev); [|done]. rewrite andb_true_l.
  destruct (starts_with (str "CONFIG_" ++ sym ++ str "=") l) eqn:E.
  - apply starts_with_spec in E as [l2 ->].
    rewrite <- (app_nil_r (lit _)), <- app_assoc, match_lit. simpl.
    f_equal. lia.
  - rewrite <- (app_nil_r (lit _)). apply match_lit_fail.
    destruct rest as [|c rest]; [by rewrite app_nil_r|].
    simpl in Hr. apply N.eqb_eq in Hr. subst c.
    rewrite starts_with_across_nl; [done|]. by apply config_prefix_no_nl.
Qed.


Lemma search_from_scan_line (r : regex) (pos : nat) (prev : option char)
    (l s : text) :
  bol_anchored r -> nl ∉ l ->
  match_here r prev (l ++ nl :: s) = None ->
  search_from r pos prev (l ++ nl :: s) =
    search_from r (pos + S (length l)) (Some nl) s.
Proof.
  intros Hr. revert pos prev; induction l as [|c l IH]; intros pos prev Hl H.
  - simpl in *. rewrite H. f_equal. lia.
  - change ((c :: l) ++ nl :: s) with (c :: (l ++ nl :: s)) in *.
    cbn [search_from]. rewrite H. rewrite IH.
    + f_equal. simpl. lia.
    + intros ?. apply Hl. by right.
    + apply anchored_not_bol; [done|]. simpl. apply N.eqb_neq.
      intros ->. apply Hl. left.
Qed.

Lemma search_from_scan_last (r : regex) (pos : nat) (prev : option char)
    (l : text) :
  bol_anchored r -> nl ∉ l ->
  match_here r prev l = None ->
  search_from r pos prev l = None.
Proof.
  intros Hr. revert pos prev; induction l as [|c l IH]; intros pos prev Hl H.
  - simpl. by rewrite H.
  - cbn [search_from]. rewrite H. apply IH.
    + intros ?. apply Hl. by right.
    + apply anchored_not_bol; [done|]. simpl. apply N.eqb_neq.
      intros ->. apply Hl. left.
Qed.

Lemma search_from_found (r : regex) (pos : nat) (prev : option char) (s : text)
    (n : nat) :
  match_here r prev s = Some n -> search_from r pos prev s = Some (pos, pos + n).
Proof. intros H. destruct s; simpl; by rewrite H. Qed.

(** The test of line 45: [re.search] finds an assignment if and only if
    some line starts with [CONFIG_<sym>=]. *)
Lemma assign_prefix_search (sym : text) (x : text) (pos : nat)
    (prev : option char) :
  nl ∉ sym -> at_bol prev = true ->
  search_from (assign_prefix_re sym) pos prev x = None <->
  count_where (is_assignment_of sym) (lines x) = 0.
Proof.
  intros Hsym. revert pos prev.
  remember (length x) as len eqn:Hlen. revert x Hlen.
  induction len as [len IH] using lt_wf_ind. intros x -> pos prev Hb.
  destruct (first_line_split x) as (l & Hl & [->|(s' & ->)]).
  - pose proof (assign_prefix_re_first_line sym prev l [] Hsym Hl eq_refl) as Hm.
    rewrite app_nil_r, Hb, andb_true_l in Hm.
    rewrite lines_single by done. simpl.
    destruct (is_assignment_of sym l).
    + rewrite (search_from_found _ _ _ _ _ Hm). split; [done|lia].
    + rewrite search_from_scan_last
        by (done || apply assign_prefix_re_anchored). done.
  - pose proof (assign_prefix_re_first_line sym prev l (nl :: s') Hsym Hl eq_refl)
      as Hm.
    rewrite Hb, andb_true_l in Hm.
    rewrite lines_first by done. simpl.
    destruct (is_assignment_of sym l).
    + rewrite (search_from_found _ _ _ _ _ Hm). split; [done|lia].
    + rewrite search_from_scan_line
        by (done || apply assign_prefix_re_anchored).
      apply (IH (length s')); [rewrite length_app; simpl; lia|done..].
Qed.

Lemma config_line_no_nl (sym value : text) :
  nl ∉ sym -> nl ∉ value -> nl ∉ config_line sym value.
Proof.
  intros Hs Hv. unfold config_line. rewrite !not_elem_of_app.
  split_and!; [|done| |done]; vm_compute; set_solver.
Qed.

Lemma is_assignment_of_nonempty (sym : text) (l : text) :
  is_assignment_of sym l = true -> exists k, length l = S k.
Proof.
  unfold is_assignment_of. destruct l; [done|]. simpl. eauto.
Qed.

(** Step 2 of [set_defconfig_symbol]: every line that starts with
    [CONFIG_<sym>=] becomes the assignment line, the others stay. *)
Lemma assign_substituted (sym value : text) (x : text) (prev : option char) :
  nl ∉ sym -> nl ∉ value -> at_bol prev = true ->
  lines (sub_from (assign_line_re sym) (config_line sym value) 0 prev x) =
    assign_in_line sym value <$> lines x.
Proof.
  intros Hsym Hval. pose proof (config_line_no_nl _ _ Hsym Hval) as HL.
  pose proof (assign_line_re_anchored sym) as Hanch.
  revert prev.
  remember (length x) as len eqn:Hlen. revert x Hlen.
  induction len as [len IH] using lt_wf_ind. intros x -> prev Hb.
  assert (forall p, match_here (assign_line_re sym) p [] = None) as Hnil.
  { intros p.
    pose proof (assign_line_re_first_line sym p [] [] Hsym
                  ltac:(by intros ?%elem_of_nil) eq_refl) as H.
    simpl app in H. rewrite H.
    assert (is_assignment_of sym [] = false) as -> by reflexivity.
    by rewrite andb_false_r. }
  destruct (first_line_split x) as (l & Hl & [->|(s' & ->)]).
  - pose proof (assign_line_re_first_line sym prev l [] Hsym Hl eq_refl) as Hm.
    rewrite app_nil_r, Hb, andb_true_l in Hm.
    rewrite (lines_single l) by done. simpl. unfold assign_in_line.
    destruct (is_assignment_of sym l) eqn:Ea.
    + destruct (is_assignment_of_nonempty _ _ Ea) as [k Hk].
      rewrite Hk in Hm. rewrite (sub_from_match _ _ _ _ _ Hm).
      rewrite drop_ge by lia. rewrite sub_from_nil by apply Hnil.
      rewrite app_nil_r. by apply lines_single.
    + rewrite sub_from_scan_last by done. by apply lines_single.
  - pose proof (assign_line_re_first_line sym prev l (nl :: s') Hsym Hl eq_refl)
      as Hm.
    rewrite Hb, andb_true_l in Hm.
    rewrite (lines_first l s') by done. simpl. unfold assign_in_line at 1.
    assert (lines (sub_from (assign_line_re sym) (config_line sym value) 0
                     (Some nl) s')
            = assign_in_line sym value <$> lines s') as IH'.
    { apply (IH (length s')); [rewrite length_app; simpl; lia|done..]. }
    destruct (is_assignment_of sym l) eqn:Ea.
    + destruct (is_assignment_of_nonempty _ _ Ea) as [k Hk].
      rewrite Hk in Hm. rewrite (sub_from_match _ _ _ _ _ Hm).
      rewrite <- Hk, drop_app_length.
      assert (exists c, (l ++ nl :: s') !! k = Some c /\ c <> nl) as (c & -> & Hc).
      { destruct (lookup_lt_is_Some_2 l k ltac:(lia)) as [c Hc].
        exists c. split; [by apply lookup_app_l_Some|].
        intros ->. apply Hl. by apply list_elem_of_lookup_2 in Hc. }
      rewrite (sub_from_scan_line _ _ _ [] s' Hanch).
      * rewrite app_nil_l, lines_first by done. by rewrite IH'.
      * by intros ?%elem_of_nil.
      * apply anchored_not_bol; [done|]. simpl. by apply N.eqb_neq.
    + rewrite sub_from_scan_line by done.
      rewrite lines_first by done. by rewrite IH'.
Qed.


(** ** The result of [set_defconfig_symbol] *)

Lemma is_in_singleton (c : char) (t : text) : c ∉ t -> is_in [c] t = false.
Proof.
  intros H. destruct (is_in [c] t) eqn:E; [|done].
  apply is_in_spec in E as (a & b & ->). exfalso. apply H.
  rewrite !elem_of_app. right. left. left.
Qed.

Lemma config_line_is_assignment (sym value : text) :
  is_assignment_of sym (config_line sym value) = true.
Proof.
  unfold is_assignment_of, config_line. apply starts_with_spec.
  exists value. by rewrite <- !app_assoc.
Qed.

Lemma config_line_backslash_free (sym value : text) :
  backslash ∉ sym -> backslash ∉ value ->
  is_in [backslash] (config_line sym value) = false.
Proof.
  intros Hs Hv. apply is_in_singleton. unfold config_line.
  rewrite !not_elem_of_app. split_and!; [|done| |done]; vm_compute; set_solver.
Qed.

Lemma config_line_not_marker (sym value : text) :
  is_not_set_line sym (config_line sym value) = false.
Proof. reflexivity. Qed.

Lemma count_assigned (sym value : text) (ls : list text) :
  count_where (line_is (config_line sym value)) (assign_in_line sym value <$> ls)
  = count_where (is_assignment_of sym) ls.
Proof.
  induction ls as [|l ls IH]; [done|].
  rewrite fmap_cons. cbn [count_where]. rewrite IH. f_equal.
  unfold assign_in_line, line_is.
  destruct (is_assignment_of sym l) eqn:E.
  - by rewrite bool_decide_eq_true_2.
  - rewrite bool_decide_eq_false_2; [done|]. intros ->.
    by rewrite config_line_is_assignment in E.
Qed.

(** The lines of a text from which a final newline is taken away are
    lines of the text. *)
Lemma lines_before_final_nl (t body b' : text) :
  body = b' ++ [nl] ->
  (ends_with_nl t = true -> body = t) ->
  (ends_with_nl t = false -> body = t ++ [nl]) ->
  lines b' `sublist_of` lines t.
Proof.
  intros Hb Ht Hf. destruct (ends_with_nl t).
  - rewrite <- (Ht eq_refl), Hb, lines_app_nl. by apply sublist_inserts_r.
  - specialize (Hf eq_refl). rewrite Hb in Hf.
    apply app_inj_tail in Hf as [-> _]. done.
Qed.

Lemma set_symbol_text_lines (sym value t : text) :
  nl ∉ sym -> nl ∉ value ->
  let out := set_symbol_text t sym value in
  let L := config_line sym value in
  1 <= count_where (line_is L) (lines out) /\
  count_where (line_is L) (lines out) <=
    Nat.max 1 (count_where (is_assignment_of sym) (lines t)) /\
  (forall l, l ∈ lines out -> is_assignment_of sym l = true -> l = L) /\
  (forall l, l ∈ lines out -> is_not_set_line sym l = false).
Proof.
  intros Hsym Hval. cbv zeta. unfold set_symbol_text, re_sub, re_search.
  destruct (not_set_removed sym t None eq_refl) as [Hsub Hnomark].
  set (t1 := sub_from (not_set_re sym) [] 0 None t) in *.
  assert (count_where (is_assignment_of sym) (lines t1)
          <= count_where (is_assignment_of sym) (lines t)) as Hle.
  { etrans; [by apply count_where_sublist|].
    rewrite count_where_app. cbn [count_where].
    assert (is_assignment_of sym [] = false) as -> by reflexivity. lia. }
  pose proof (assign_prefix_search sym t1 0 None Hsym eq_refl) as Hsearch.
  destruct (search_from (assign_prefix_re sym) 0 None t1) as [m|].
  - rewrite assign_substituted by done. rewrite count_assigned.
    assert (count_where (is_assignment_of sym) (lines t1) <> 0) as Hne
      by (intros H; by apply Hsearch in H).
    split_and!; [lia|lia| |].
    + intros l' (l & -> & Hl)%list_elem_of_fmap. unfold assign_in_line.
      destruct (is_assignment_of sym l) eqn:E; [done|congruence].
    + intros l' (l & -> & Hl)%list_elem_of_fmap. unfold assign_in_line.
      destruct (is_assignment_of sym l);
        [apply config_line_not_marker | by apply Hnomark].
  - destruct (append_line_shape t1 (config_line sym value))
      as (body & -> & Hb & Ht & Hf).
    apply ends_with_nl_inv in Hb as [b' Hb'].
    pose proof (lines_before_final_nl t1 body b' Hb' Ht Hf) as Hsub'.
    assert (forall l, l ∈ lines b' -> is_assignment_of sym l = false) as Hnone.
    { intros l Hl. apply (proj1 (count_where_0 _ _) (proj1 Hsearch eq_refl)).
      by apply (elem_of_sublist _ _ _ Hl Hsub'). }
    assert (lines (body ++ config_line sym value ++ [nl])
            = lines b' ++ [config_line sym value; []]) as ->.
    { rewrite Hb', <- app_assoc.
      change ([nl] ++ config_line sym value ++ [nl])
        with (nl :: (config_line sym value ++ nl :: [])).
      rewrite lines_app_nl, lines_first by (by apply config_line_no_nl).
      done. }
    rewrite count_where_app.
    assert (count_where (line_is (config_line sym value)) (lines b') = 0) as ->.
    { apply count_where_0. intros l Hl. unfold line_is.
      apply bool_decide_eq_false_2. intros ->.
      apply Hnone in Hl. by rewrite config_line_is_assignment in Hl. }
    assert (count_where (line_is (config_line sym value))
              [config_line sym value; []] = 1) as ->.
    { cbn [count_where]. unfold line_is.
      rewrite bool_decide_eq_true_2 by done.
      rewrite bool_decide_eq_false_2; [done|]. done. }
    split_and!; [lia|lia| |].
    + intros l [Hl|Hl]%elem_of_app.
      * intros E. apply Hnone in Hl. congruence.
      * apply elem_of_cons in Hl as [->|Hl]; [done|].
        apply list_elem_of_singleton in Hl as ->. done.
    + intros l [Hl|Hl]%elem_of_app.
      * apply Hnomark. by apply (elem_of_sublist _ _ _ Hl Hsub').
      * apply elem_of_cons in Hl as [->|Hl];
          [apply config_line_not_marker|].
        apply list_elem_of_singleton in Hl as ->.
        unfold is_not_set_line. by rewrite not_set_re_nil.
Qed.


(** C3, as the code has it.  For a symbol and a value without a newline
    or a backslash, after [set_defconfig_symbol] the file has the line
    [CONFIG_<sym>=<value>] at least once; every line that starts with
    [CONFIG_<sym>=] is that line, so it occurs exactly once unless the
    text read had several assignment lines of the symbol (all of them
    are replaced, none is dropped); and no line is a disabled marker of
    the symbol. *)
Theorem set_defconfig_symbol_result (p : path) (sym value : text) (fs : node)
    (d : bytes) :
  file_at p fs = Some d ->
  nl ∉ sym -> nl ∉ value -> backslash ∉ sym -> backslash ∉ value ->
  exists fs' out,
    set_defconfig_symbol p sym value fs = (fs', Ok tt) /\
    file_at p fs' = Some (encode_utf8 out) /\
    1 <= count_where (line_is (config_line sym value)) (lines out) /\
    count_where (line_is (config_line sym value)) (lines out) <=
      Nat.max 1 (count_where (is_assignment_of sym)
                   (lines (text_of d))) /\
    (forall l, l ∈ lines out -> is_assignment_of sym l = true ->
               l = config_line sym value) /\
    (forall l, l ∈ lines out -> is_not_set_line sym l = false).
Proof.
  intros H Hs Hv Hbs Hbv.
  destruct (set_defconfig_symbol_run p sym value fs d H
              (config_line_backslash_free _ _ Hbs Hbv)) as (fs' & E & Hout & _).
  exists fs', (set_symbol_text (text_of d) sym value).
  split_and!; [done|done|..];
    by apply (set_symbol_text_lines sym value (text_of d) Hs Hv).
Qed.

Lemma set_defconfig_symbol_result_witness :
  exists fs' out,
    set_defconfig_symbol sample_defconfig (str "KSU") (str "y")
      (tree_of [(sample_defconfig, defconfig_ksu_n)]) = (fs', Ok tt) /\
    file_at sample_defconfig fs' = Some (encode_utf8 out) /\
    1 <= count_where (line_is (config_line (str "KSU") (str "y"))) (lines out) /\
    count_where (line_is (config_line (str "KSU") (str "y"))) (lines out) <=
      Nat.max 1 (count_where (is_assignment_of (str "KSU"))
                   (lines (text_of (encode_utf8 defconfig_ksu_n)))) /\
    (forall l, l ∈ lines out -> is_assignment_of (str "KSU") l = true ->
               l = config_line (str "KSU") (str "y")) /\
    (forall l, l ∈ lines out -> is_not_set_line (str "KSU") l = false).
Proof.
  apply (set_defconfig_symbol_result sample_defconfig (str "KSU") (str "y")
           _ (encode_utf8 defconfig_ksu_n));
    [vm_compute; reflexivity | vm_compute; set_solver..].
Defined.

(** The example of the specification: a defconfig with [CONFIG_KSU=n],
    and one with the disabled marker of KSU, end with exactly one line
    [CONFIG_KSU=y] and no marker. *)
Lemma set_defconfig_symbol_ksu_examples :
  file_at sample_defconfig
    (fst (set_defconfig_symbol sample_defconfig (str "KSU") (str "y")
            (tree_of [(sample_defconfig, defconfig_ksu_n)])))
  = Some (encode_utf8
            (str "CONFIG_ARM64=y" ++ [nl] ++ str "CONFIG_KSU=y" ++ [nl])) /\
  file_at sample_defconfig
    (fst (set_defconfig_symbol sample_defconfig (str "KSU") (str "y")
            (tree_of [(sample_defconfig, defconfig_ksu_not_set)])))
  = Some (encode_utf8
            (str "CONFIG_ARM64=y" ++ [nl] ++ str "CONFIG_KSU=y" ++ [nl])).
Proof. split; vm_compute; reflexivity. Qed.

(** C3, as stated, fails: a defconfig with two assignment lines of KSU
    has the line [CONFIG_KSU=y] twice afterwards, not exactly once. *)
Lemma two_assignments_give_two_lines :
  let fs' := fst (set_defconfig_symbol sample_defconfig (str "KSU") (str "y")
                    (tree_of [(sample_defconfig, defconfig_two_assignments)])) in
  file_at sample_defconfig fs' =
    Some (encode_utf8 (str "CONFIG_KSU=y" ++ [nl] ++ str "CONFIG_KSU=y" ++ [nl])) /\
  (forall out, file_at sample_defconfig fs' = Some (encode_utf8 out) ->
     count_where (line_is (config_line (str "KSU") (str "y"))) (lines out) = 2) /\
  ~ (exists out, file_at sample_defconfig fs' = Some (encode_utf8 out) /\
       count_where (line_is (config_line (str "KSU") (str "y"))) (lines out) = 1).
Proof.
  cbv zeta.
  assert (file_at sample_defconfig
            (fst (set_defconfig_symbol sample_defconfig (str "KSU") (str "y")
                    (tree_of [(sample_defconfig, defconfig_two_assignments)])))
          = Some (encode_utf8
                    (str "CONFIG_KSU=y" ++ [nl] ++ str "CONFIG_KSU=y" ++ [nl])))
    as E by (vm_compute; reflexivity).
  split_and!; [exact E| |].
  - intros out Ho. rewrite E in Ho.
    assert (out = str "CONFIG_KSU=y" ++ [nl] ++ str "CONFIG_KSU=y" ++ [nl])
      as -> by (apply encoded_inj; congruence).
    vm_compute. reflexivity.
  - intros (out & Ho & Hc). rewrite E in Ho.
    assert (out = str "CONFIG_KSU=y" ++ [nl] ++ str "CONFIG_KSU=y" ++ [nl])
      as -> by (apply encoded_inj; congruence).
    vm_compute in Hc. discriminate.
Qed.


(** ** Running the orchestrated edits twice *)

(** C2 does not hold of the code.  The pattern for the disabled marker
    uses [\s], which also matches a newline, so it matches a marker that
    is split over two lines.  On a defconfig where a complete marker of
    KSU sits between the two halves of such a split one, the first run
    removes the complete marker and thereby joins the halves; the second
    run removes the joined marker.  Both runs succeed and the defconfig
    after the second run differs from the one after the first. *)
Theorem patch_kernel_tree_twice_differs :
  let r1 := patch_kernel_tree ["k"%string] tree_with_split_marker in
  let r2 := patch_kernel_tree ["k"%string] (fst r1) in
  snd r1 = Ok tt /\ snd r2 = Ok tt /\
  file_at sample_defconfig (fst r1) =
    Some (encode_utf8
            (str "# CONFIG_KSU is not" ++ [nl] ++ str "set" ++ [nl] ++
             str "CONFIG_KSU=y" ++ [nl] ++ str "CONFIG_KPROBES=y" ++ [nl] ++
             str "CONFIG_KPROBE_EVENTS=y" ++ [nl])) /\
  file_at sample_defconfig (fst r2) =
    Some (encode_utf8
            (str "CONFIG_KSU=y" ++ [nl] ++ str "CONFIG_KPROBES=y" ++ [nl] ++
             str "CONFIG_KPROBE_EVENTS=y" ++ [nl])) /\
  file_at sample_defconfig (fst r2) <> file_at sample_defconfig (fst r1).
Proof.
  cbv zeta. split_and!; try (vm_compute; reflexivity).
  vm_compute. discriminate.
Qed.


(** ** What a second run finds *)

Lemma unlines_lines (s : text) : unlines (lines s) = s.
Proof.
  induction s as [|c s IH]; [done|]. simpl.
  pose proof (lines_nonempty s) as Hne.
  destruct (c =? nl)%N eqn:E.
  - apply N.eqb_eq in E. subst c.
    destruct (lines s) as [|l ls] eqn:El; [done|].
    change (unlines ([] :: l :: ls)) with ([] ++ nl :: unlines (l :: ls)).
    by rewrite IH.
  - destruct (lines s) as [|l ls] eqn:El; [done|].
    destruct ls as [|l' ls]; simpl in *; by rewrite <- IH.
Qed.

Lemma lines_inj (a b : text) : lines a = lines b -> a = b.
Proof.
  intros H. rewrite <- (unlines_lines a), <- (unlines_lines b). by rewrite H.
Qed.

Lemma elem_of_line (s l : text) (c : char) : l ∈ lines s -> c ∈ l -> c ∈ s.
Proof.
  revert l; induction s as [|d s IH]; intros l; simpl.
  - intros ->%list_elem_of_singleton. by intros ?%elem_of_nil.
  - destruct (d =? nl)%N.
    + intros [->|H]%elem_of_cons Hc; [by apply elem_of_nil in Hc|].
      right. by apply (IH l).
    + pose proof (lines_nonempty s) as Hne.
      destruct (lines s) as [|l0 ls]; [done|].
      intros [->|H]%elem_of_cons Hc.
      * apply elem_of_cons in Hc as [->|Hc]; [left|].
        right. apply (IH l0); [left|done].
      * right. apply (IH l); [by right|done].
Qed.

(** A search that finds nothing: the substitution changes nothing. *)
Lemma sub_from_search_none (r : regex) (repl : text) (pos : nat)
    (prev : option char) (s : text) :
  search_from r pos prev s = None -> sub_from r repl 0 prev s = s.
Proof.
  revert pos prev; induction s as [|c s IH]; intros pos prev; simpl.
  - by destruct (match_here r prev []).
  - destruct (match_here r prev (c :: s)); [done|].
    intros H. f_equal. by apply (IH (S pos)).
Qed.

(** The characters of a match are accepted by atoms of the pattern. *)
Lemma Matches_chars (r : regex) (prev : option char) (s : text) (n : nat) :
  Matches r prev s n -> forall c, c ∈ take n s -> any_accepts r c = true.
Proof.
  unfold any_accepts.
  assert (Hhead : forall (i : item) r c,
             item_accepts i c = true ->
             existsb (fun i => item_accepts i c) (i :: r) = true).
  { intros i r0 c0 Hi. cbn [existsb]. by rewrite Hi. }
  assert (Htail : forall (i : item) r c,
             existsb (fun i => item_accepts i c) r = true ->
             existsb (fun i => item_accepts i c) (i :: r) = true).
  { intros i r0 c0 Hr. cbn [existsb]. rewrite Hr. apply orb_true_r. }
  induction 1 as
    [prev s
    |cs r prev c s n Hc _ IH
    |cs r prev s n _ IH
    |cs r prev c s n Hc _ IH
    |cs r prev c s n Hc _ IH
    |cs r prev s n _ IH
    |cs r prev c s n Hc _ IH
    |r prev s n Hb _ IH
    |r prev s n He _ IH]; intros c0 Hc0.
  - rewrite take_0 in Hc0. by apply elem_of_nil in Hc0.
  - rewrite firstn_cons in Hc0.
    apply elem_of_cons in Hc0 as [->|Hc0]; [by apply Hhead | apply Htail; auto].
  - apply Htail; auto.
  - rewrite firstn_cons in Hc0.
    apply elem_of_cons in Hc0 as [->|Hc0]; [by apply Hhead | auto].
  - rewrite firstn_cons in Hc0.
    apply elem_of_cons in Hc0 as [->|Hc0]; [by apply Hhead | exact (IH _ Hc0)].
  - apply Htail; auto.
  - rewrite firstn_cons in Hc0.
    apply elem_of_cons in Hc0 as [->|Hc0]; [by apply Hhead | apply Htail; auto].
  - apply Htail; auto.
  - apply Htail; auto.
Qed.


(** The removal of step 1 keeps every line that has a character no atom
    of the marker pattern accepts. *)
Lemma not_set_kept (sym : text) (c0 : char) (x : text) (prev : option char) :
  at_bol prev = true ->
  any_accepts (not_set_re sym) c0 = false ->
  forall l, l ∈ lines x -> c0 ∈ l ->
            l ∈ lines (sub_from (not_set_re sym) [] 0 prev x).
Proof.
  intros Hb Hc0. revert prev Hb.
  remember (length x) as len eqn:Hlen. revert x Hlen.
  induction len as [len IH] using lt_wf_ind. intros x -> prev Hb l Hl Hc.
  destruct (match_here (not_set_re sym) prev x) as [n|] eqn:Hm.
  - destruct (not_set_re_match _ _ _ _ Hm) as [[k ->] Hend].
    rewrite (sub_from_match _ _ _ _ _ Hm). rewrite app_nil_l.
    pose proof (match_here_length _ _ _ _ Hm) as Hle.
    pose proof (Matches_chars _ _ _ _ (match_here_sound _ _ _ _ Hm)) as Hacc.
    destruct Hend as [Hend|(k' & [= <-] & Hk)].
    + exfalso. pose proof (elem_of_line _ _ _ Hl Hc) as Hx.
      rewrite <- (take_drop (S k) x), Hend, app_nil_r in Hx.
      apply Hacc in Hx. congruence.
    + pose proof (take_drop_middle x k nl Hk) as Hx.
      rewrite <- Hx, lines_app_nl in Hl. rewrite Hk.
      apply elem_of_app in Hl as [Hl|Hl].
      * exfalso. pose proof (elem_of_line _ _ _ Hl Hc) as Hin.
        assert (c0 ∈ take (S k) x) as Hin'.
        { rewrite (take_S_r x k nl Hk). apply elem_of_app. by left. }
        apply Hacc in Hin'. congruence.
      * apply (IH (length (drop (S k) x))); [rewrite length_drop; lia|done..].
  - destruct (first_line_split x) as (l0 & Hl0 & [->|(s' & ->)]).
    + by rewrite sub_from_scan_last by (done || apply not_set_re_anchored).
    + rewrite sub_from_scan_line by (done || apply not_set_re_anchored).
      rewrite lines_first in Hl |- * by done.
      apply elem_of_cons in Hl as [->|Hl]; [left|]. right.
      apply (IH (length s')); [rewrite length_app; simpl; lia|done..].
Qed.

Lemma set_symbol_text_other_lines (sym value t : text) :
  nl ∉ sym -> nl ∉ value ->
  (forall l, l ∈ lines (set_symbol_text t sym value) ->
     l ∈ lines t \/ l = [] \/ l = config_line sym value) /\
  (forall l c0, l ∈ lines t -> c0 ∈ l ->
     any_accepts (not_set_re sym) c0 = false ->
     is_assignment_of sym l = false ->
     l ∈ lines (set_symbol_text t sym value)).
Proof.
  intros Hsym Hval. unfold set_symbol_text, re_sub, re_search.
  destruct (not_set_removed sym t None eq_refl) as [Hsub _].
  pose proof (fun c0 => not_set_kept sym c0 t None eq_refl) as Hkept.
  set (t1 := sub_from (not_set_re sym) [] 0 None t) in *.
  assert (forall l, l ∈ lines t1 -> l ∈ lines t \/ l = []) as Hfrom.
  { intros l Hl. apply (elem_of_sublist _ _ _ Hl) in Hsub.
    apply elem_of_app in Hsub as [?|E%list_elem_of_singleton]; eauto. }
  destruct (search_from (assign_prefix_re sym) 0 None t1) as [m|].
  - rewrite assign_substituted by done. split.
    + intros l' (l & -> & Hl)%list_elem_of_fmap. unfold assign_in_line.
      destruct (is_assignment_of sym l); [eauto|].
      destruct (Hfrom _ Hl); eauto.
    + intros l c0 Hl Hc Hacc Hna. apply list_elem_of_fmap. exists l.
      split; [unfold assign_in_line; by rewrite Hna | by apply (Hkept c0)].
  - destruct (append_line_shape t1 (config_line sym value))
      as (body & -> & Hb & Ht & Hf).
    apply ends_with_nl_inv in Hb as [b' Hb'].
    pose proof (lines_before_final_nl t1 body b' Hb' Ht Hf) as Hsub'.
    assert (lines (body ++ config_line sym value ++ [nl])
            = lines b' ++ [config_line sym value; []]) as ->.
    { rewrite Hb', <- app_assoc.
      change ([nl] ++ config_line sym value ++ [nl])
        with (nl :: (config_line sym value ++ nl :: [])).
      rewrite lines_app_nl, lines_first by (by apply config_line_no_nl).
      done. }
    split.
    + intros l [Hl|Hl]%elem_of_app.
      * apply (elem_of_sublist _ _ _ Hl) in Hsub'.
        destruct (Hfrom _ Hsub'); eauto.
      * apply elem_of_cons in Hl as [->|Hl]; [eauto|].
        apply list_elem_of_singleton in Hl as ->. eauto.
    + intros l c0 Hl Hc Hacc Hna. apply elem_of_app. left.
      pose proof (Hkept c0 Hacc l Hl Hc) as Hl1.
      destruct (ends_with_nl t1).
      * rewrite <- (Ht eq_refl), Hb', lines_app_nl in Hl1.
        apply elem_of_app in Hl1 as [?|Hl1]; [done|].
        apply list_elem_of_singleton in Hl1 as ->. by apply elem_of_nil in Hc.
      * specialize (Hf eq_refl). rewrite Hb' in Hf.
        apply app_inj_tail in Hf as [-> _]. done.
Qed.


Lemma count_where_mono (P Q : text -> bool) (ls : list text) :
  (forall l, P l = true -> Q l = true) ->
  count_where P ls <= count_where Q ls.
Proof.
  intros H. induction ls as [|l ls IH]; simpl; [done|].
  destruct (P l) eqn:E; [rewrite (H _ E); lia|].
  destruct (Q l); lia.
Qed.

Lemma count_where_pos (P : text -> bool) (ls : list text) :
  1 <= count_where P ls <-> exists l, l ∈ ls /\ P l = true.
Proof.
  induction ls as [|l ls IH]; simpl.
  - split; [lia | by intros (? & ?%elem_of_nil & _)].
  - destruct (P l) eqn:E.
    + split; [intros _; exists l; split; [left|done] | lia].
    + rewrite IH. split.
      * intros (l' & ? & ?). exists l'. split; [by right|done].
      * intros (l' & [->|?]%elem_of_cons & ?); [congruence|eauto].
Qed.

Lemma assigned_y_established (sym t : text) :
  nl ∉ sym -> assigned_y sym (set_symbol_text t sym (str "y")).
Proof.
  intros Hsym.
  destruct (set_symbol_text_lines sym (str "y") t Hsym
              ltac:(vm_compute; set_solver)) as (H1 & _ & H3 & _).
  split; [|done]. etrans; [exact H1|].
  apply count_where_mono. intros l. unfold line_is.
  intros ->%bool_decide_eq_true. apply config_line_is_assignment.
Qed.

Lemma assigned_y_preserved (sym sym' t : text) :
  nl ∉ sym' ->
  is_assignment_of sym (config_line sym' (str "y")) = false ->
  is_assignment_of sym' (config_line sym (str "y")) = false ->
  any_accepts (not_set_re sym') 61%N = false ->
  assigned_y sym t ->
  assigned_y sym (set_symbol_text t sym' (str "y")).
Proof.
  intros Hsym' Hd1 Hd2 Hacc [Hex Hall].
  destruct (set_symbol_text_other_lines sym' (str "y") t Hsym'
              ltac:(vm_compute; set_solver)) as [Hfrom Hkept].
  split.
  - apply count_where_pos in Hex as (l & Hl & Ha).
    pose proof (Hall l Hl Ha) as ->.
    apply count_where_pos. exists (config_line sym (str "y")).
    split; [|done]. apply (Hkept _ 61%N); [done| |done..].
    unfold config_line. rewrite !elem_of_app. right. right. left.
    vm_compute. left.
  - intros l Hl Ha. destruct (Hfrom l Hl) as [?|[->| ->]]; [eauto| |congruence].
    by vm_compute in Ha.
Qed.

Lemma set_symbol_text_fixed (sym y : text) :
  nl ∉ sym ->
  assigned_y sym y ->
  re_search (not_set_re sym) y = None ->
  set_symbol_text y sym (str "y") = y.
Proof.
  intros Hsym [Hex Hall] Hno. unfold set_symbol_text, re_sub.
  rewrite (sub_from_search_none _ _ _ _ _ Hno).
  destruct (re_search (assign_prefix_re sym) y) as [m|] eqn:Es.
  - apply lines_inj. rewrite assign_substituted;
      [|done|vm_compute; set_solver|done].
    rewrite <- (list_fmap_id (lines y)) at 2.
    apply list_fmap_ext. intros i l Hl. unfold assign_in_line.
    destruct (is_assignment_of sym l) eqn:E; [|done].
    symmetry. apply Hall; [|done]. by apply list_elem_of_lookup_2 in Hl.
  - apply (assign_prefix_search sym y 0 None Hsym eq_refl) in Es. lia.
Qed.

(** No carriage return comes from a substitution. *)
Lemma sub_from_chars (r : regex) (repl : text) (c : char) (skip : nat)
    (prev : option char) (s : text) :
  c ∈ sub_from r repl skip prev s -> c ∈ s \/ c ∈ repl.
Proof.
  revert skip prev; induction s as [|d s IH]; intros skip prev.
  - destruct skip; simpl; [|by intros ?%elem_of_nil].
    destruct (match_here r prev []) as [[|k]|];
      rewrite ?app_nil_r; eauto; by intros ?%elem_of_nil.
  - destruct skip as [|k]; simpl.
    + destruct (match_here r prev (d :: s)) as [[|k]|].
      * intros [?|[->|H]%elem_of_cons]%elem_of_app; [eauto|left; left|].
        apply IH in H as [?|?]; [left; by right|eauto].
      * intros [?|H]%elem_of_app; [eauto|].
        apply IH in H as [?|?]; [left; by right|eauto].
      * intros [->|H]%elem_of_cons; [left; left|].
        apply IH in H as [?|?]; [left; by right|eauto].
    + intros H. apply IH in H as [?|?]; [left; by right|eauto].
Qed.

Lemma set_symbol_text_no_cr (sym value t : text) :
  cr ∉ sym -> cr ∉ value -> cr ∉ t -> cr ∉ set_symbol_text t sym value.
Proof.
  intros Hs Hv Ht. unfold set_symbol_text, re_sub.
  assert (cr ∉ config_line sym value) as HL.
  { unfold config_line. rewrite !not_elem_of_app.
    split_and!; [|done| |done]; vm_compute; set_solver. }
  assert (cr ∉ sub_from (not_set_re sym) [] 0 None t) as H1.
  { intros [?|?%elem_of_nil]%sub_from_chars; done. }
  destruct (re_search _ _).
  - intros [?|?]%sub_from_chars; done.
  - unfold append_line. rewrite !not_elem_of_app.
    split_and!; [|done|vm_compute; set_solver].
    destruct (ends_with_nl _); [done|]. rewrite not_elem_of_app.
    split; [done|vm_compute; set_solver].
Qed.


(** [str.replace]: where the old name occurred, the new one now does. *)
Lemma replace_contains (old new t : text) :
  old <> [] -> is_in old t = true -> is_in new (replace old new t) = true.
Proof.
  intros Hold. unfold replace. induction t as [|c t IH]; intros H.
  - destruct old; [done|]. done.
  - cbn [replace_from]. destruct (starts_with old (c :: t)) eqn:E.
    + apply is_in_spec. by exists [], (replace_from old new (length old - 1) t).
    + cbn [is_in] in H. rewrite E in H. simpl in H.
      apply IH, is_in_spec in H as (a & b & ->).
      apply is_in_spec. by exists (c :: a), b.
Qed.

Lemma replace_from_no_cr (old new : text) (k : nat) (t : text) :
  cr ∉ new -> cr ∉ t -> cr ∉ replace_from old new k t.
Proof.
  intros Hn. revert k; induction t as [|c t IH]; intros k Ht.
  - destruct k; simpl; by intros ?%elem_of_nil.
  - assert (cr ∉ t) as Ht' by (intros ?; apply Ht; by right).
    destruct k as [|k]; cbn [replace_from]; [|by apply IH].
    destruct (starts_with old (c :: t)).
    + rewrite not_elem_of_app. split; [done|by apply IH].
    + intros [Hc|?]%elem_of_cons; [apply Ht; rewrite Hc; left|by apply (IH 0)].
Qed.

(** After the dtc step the file no longer asks for the substitution. *)
Lemma dtc_stored_settled (d : bytes) :
  is_in (str "HOSTLDLIBS_dtc") (text_of (dtc_stored d)) &&
  negb (is_in (str "HOSTLOADLIBES_dtc") (text_of (dtc_stored d)))
  = false.
Proof.
  unfold dtc_stored.
  destruct (is_in (str "HOSTLDLIBS_dtc") (text_of d) &&
            negb (is_in (str "HOSTLOADLIBES_dtc") (text_of d)))
    eqn:E; [|done].
  apply andb_true_iff in E as [E _].
  rewrite text_of_written.
  - assert (str "HOSTLDLIBS_dtc" <> []) as Hne by done.
    rewrite (replace_contains _ (str "HOSTLOADLIBES_dtc") _ Hne E).
    apply andb_false_r.
  - apply replace_from_no_cr; [vm_compute; set_solver|].
    apply text_of_no_cr.
Qed.

Lemma fs_put_same (p : path) (v fs : node) :
  fs_lookup p fs = Some v -> fs_put p v fs = Some fs.
Proof.
  revert fs; induction p as [|c p IH]; intros fs H; simpl in *; [done|].
  destruct fs as [d|es]; [done|].
  destruct (es !! c) as [m|] eqn:E; [|done]. simpl.
  rewrite (IH _ H). by rewrite insert_id.
Qed.

Lemma write_text_same (p : path) (t : text) (fs : node) :
  file_at p fs = Some (encode_utf8 t) -> write_text p t fs = (fs, Ok tt).
Proof.
  intros H%file_at_Some. unfold write_text. by rewrite H, (fs_put_same _ _ _ H).
Qed.

Lemma set_defconfig_symbol_fixed (p : path) (sym value y : text) (fs : node) :
  file_at p fs = Some (encode_utf8 y) -> cr ∉ y ->
  is_in [backslash] (config_line sym value) = false ->
  set_symbol_text y sym value = y ->
  set_defconfig_symbol p sym value fs = (fs, Ok tt).
Proof.
  intros H Hcr Hbs Hfix. unfold set_defconfig_symbol.
  run_step (read_text_run _ _ _ H). rewrite (text_of_written _ Hcr).
  unfold set_symbol_text in Hfix. fold (config_line sym value).
  destruct (re_search _ _).
  - rewrite Hbs, Hfix. by apply write_text_same.
  - rewrite Hfix. by apply write_text_same.
Qed.

Lemma ensure_line_stored_settled (d : bytes) (line : text) (after_regex : option regex) :
  is_line line ->
  is_in line (text_of (ensure_line_stored d line after_regex)) = true.
Proof.
  intros [Hnl Hcr]. unfold ensure_line_stored.
  destruct (is_in line (text_of d)) eqn:E; [done|].
  rewrite text_of_written; [apply ensured_text_contains|].
  apply ensured_text_no_cr; [apply text_of_no_cr|done].
Qed.

(** Writes below paths that part from [q] do not touch [q]. *)
Lemma ensure_line_in_file_diverge (p q : path) (line : text)
    (after_regex : option regex) (fs : node) :
  diverge p q ->
  fs_lookup q (ensure_line_in_file p line after_regex fs).1 = fs_lookup q fs.
Proof.
  intros Hd. unfold ensure_line_in_file, bind, read_text.
  destruct (fs_lookup p fs) as [[d|?]|]; [|done..].
  destruct (is_in line _); [done|].
  destruct (anchor_end _ _); by apply write_text_diverge.
Qed.

Lemma set_defconfig_symbol_diverge (p q : path) (sym value : text) (fs : node) :
  diverge p q ->
  fs_lookup q (set_defconfig_symbol p sym value fs).1 = fs_lookup q fs.
Proof.
  intros Hd. unfold set_defconfig_symbol, bind, read_text.
  destruct (fs_lookup p fs) as [[d|?]|]; [|done..].
  destruct (re_search _ _); [destruct (is_in _ _); [done|]|];
    by apply write_text_diverge.
Qed.


Lemma dtc_diverges (k : path) :
  diverge (drivers_makefile k) (dtc_makefile k) /\
  diverge (drivers_kconfig k) (dtc_makefile k) /\
  diverge (defconfig_path k) (dtc_makefile k).
Proof.
  unfold drivers_makefile, drivers_kconfig, defconfig_path, dtc_makefile.
  split_and!.
  - by exists k, "drivers"%string, "scripts"%string, ["Makefile"%string],
      ["dtc"; "Makefile"]%string.
  - by exists k, "drivers"%string, "scripts"%string, ["Kconfig"%string],
      ["dtc"; "Makefile"]%string.
  - by exists k, "arch"%string, "scripts"%string,
      ["arm64"; "configs"; "RMX3265_defconfig"]%string,
      ["dtc"; "Makefile"]%string.
Qed.

(** A run on a tree without the dtc Makefile does not create it. *)
Lemma patch_kernel_tree_keeps_dtc_absent (k : path) (fs : node)
    (dm dk dd : bytes) :
  file_at (drivers_makefile k) fs = Some dm ->
  file_at (drivers_kconfig k) fs = Some dk ->
  file_at (defconfig_path k) fs = Some dd ->
  fs_lookup (dtc_makefile k) fs = None ->
  fs_lookup (dtc_makefile k) (patch_kernel_tree k fs).1 = None.
Proof.
  intros Hm Hk Hd Hdtc.
  destruct (paths_distinct k) as (N1 & N2 & N3 & N4 & N5 & N6).
  destruct (dtc_diverges k) as (D1 & D2 & D3).
  destruct backslash_free_KSU as (B1 & B2 & B3).
  unfold patch_kernel_tree. cbv zeta.
  fold (drivers_makefile k) (drivers_kconfig k) (defconfig_path k)
    (dtc_makefile k).
  run_step (path_present_run _ _ (proj1 (bool_decide_eq_true _)
                                    (file_at_is_Some _ _ _ Hm))).
  simpl negb.
  run_step (when_false_run (raise (missing (drivers_makefile k))) fs).
  run_step (path_present_run _ _ (proj1 (bool_decide_eq_true _)
                                    (file_at_is_Some _ _ _ Hk))).
  simpl negb.
  run_step (when_false_run (raise (missing (drivers_kconfig k))) fs).
  run_step (path_present_run _ _ (proj1 (bool_decide_eq_true _)
                                    (file_at_is_Some _ _ _ Hd))).
  simpl negb.
  run_step (when_false_run (raise (missing (defconfig_path k))) fs).
  run_step (path_missing_run _ _ Hdtc). simpl when.
  run_step (eq_refl : ret tt fs = (fs, Ok tt)).
  destruct (ensure_line_in_file_run _ ksu_makefile_line (Some obj_anchor) _ _ Hm)
    as (fs1 & E1 & _ & Hfr1).
  pose proof (ensure_line_in_file_diverge _ _ ksu_makefile_line
                (Some obj_anchor) fs D1) as L1.
  rewrite E1 in L1. simpl in L1. run_step E1.
  rewrite <- (Hfr1 _ (not_eq_sym N1)) in Hk.
  rewrite <- (Hfr1 _ (not_eq_sym N2)) in Hd.
  destruct (ensure_line_in_file_run _ ksu_kconfig_line None _ _ Hk)
    as (fs2 & E2 & _ & Hfr2).
  pose proof (ensure_line_in_file_diverge _ _ ksu_kconfig_line None fs1 D2) as L2.
  rewrite E2 in L2. simpl in L2. run_step E2.
  rewrite <- (Hfr2 _ (not_eq_sym N3)) in Hd.
  destruct (set_defconfig_symbol_run _ (str "KSU") (str "y") _ _ Hd B1)
    as (fs3 & E3 & Hd3 & _).
  pose proof (set_defconfig_symbol_diverge _ _ (str "KSU") (str "y") fs2 D3) as L3.
  rewrite E3 in L3. simpl in L3. run_step E3.
  destruct (set_defconfig_symbol_run _ (str "KPROBES") (str "y") _ _ Hd3 B2)
    as (fs4 & E4 & Hd4 & _).
  pose proof (set_defconfig_symbol_diverge _ _ (str "KPROBES") (str "y") fs3 D3)
    as L4.
  rewrite E4 in L4. simpl in L4. run_step E4.
  pose proof (set_defconfig_symbol_diverge _ _ (str "KPROBE_EVENTS") (str "y")
                fs4 D3) as L5.
  rewrite L5. congruence.
Qed.


Lemma required_lines_are_lines :
  is_line ksu_makefile_line /\ is_line ksu_kconfig_line.
Proof. split; split; vm_compute; set_solver. Qed.

(** After a run the three symbols are assigned, each by its line only. *)
Lemma defconfig_after_run_assigned (t : text) (sym : text) :
  sym ∈ required_symbols -> assigned_y sym (defconfig_after_run t).
Proof.
  unfold required_symbols, defconfig_after_run.
  intros H. repeat apply elem_of_cons in H as [->|H];
    [| |  |by apply elem_of_nil in H].
  - apply assigned_y_preserved; [vm_compute; set_solver|done..|].
    apply assigned_y_preserved; [vm_compute; set_solver|done..|].
    apply assigned_y_established. vm_compute; set_solver.
  - apply assigned_y_preserved; [vm_compute; set_solver|done..|].
    apply assigned_y_established. vm_compute; set_solver.
  - apply assigned_y_established. vm_compute; set_solver.
Qed.

Lemma defconfig_after_run_no_cr (t : text) :
  cr ∉ t ->
  cr ∉ set_symbol_text t (str "KSU") (str "y") /\
  cr ∉ set_symbol_text (set_symbol_text t (str "KSU") (str "y"))
         (str "KPROBES") (str "y") /\
  cr ∉ defconfig_after_run t.
Proof.
  intros H. unfold defconfig_after_run.
  split_and!; repeat apply set_symbol_text_no_cr;
    done || (vm_compute; set_solver).
Qed.

(** X10.  Apart from the defect shown by [patch_kernel_tree_twice_differs],
    the orchestrated edits are idempotent: when no disabled-marker
    pattern of the three symbols matches the defconfig that a run
    leaves, a second run succeeds and leaves the file system exactly as
    the first run left it. *)
Theorem patch_kernel_tree_second_run (k : path) (fs fs1 : node)
    (dm dk dd : bytes) (dtc : option bytes) :
  file_at (drivers_makefile k) fs = Some dm ->
  file_at (drivers_kconfig k) fs = Some dk ->
  file_at (defconfig_path k) fs = Some dd ->
  match dtc with
  | Some d => file_at (dtc_makefile k) fs = Some d
  | None => fs_lookup (dtc_makefile k) fs = None
  end ->
  patch_kernel_tree k fs = (fs1, Ok tt) ->
  (forall sym, sym ∈ required_symbols ->
     re_search (not_set_re sym) (defconfig_after_run (text_of dd))
       = None) ->
  file_at (defconfig_path k) fs1 =
    Some (encode_utf8 (defconfig_after_run (text_of dd))) /\
  patch_kernel_tree k fs1 = (fs1, Ok tt).
Proof.
  intros Hm Hk Hd Hdtc Hrun Hnomark.
  destruct (patch_kernel_tree_run k fs dm dk dd dtc Hm Hk Hd Hdtc)
    as (fs' & E & Fm & Fk & Fd & Fdtc).
  rewrite Hrun in E. injection E as <-.
  destruct (defconfig_after_run_no_cr (text_of dd)
              (text_of_no_cr dd)) as (C1 & C2 & C3).
  rewrite (text_of_written _ C1) in Fd.
  rewrite (text_of_written _ C2) in Fd.
  fold (defconfig_after_run (text_of dd)) in Fd.
  split; [done|].
  set (y := defconfig_after_run (text_of dd)) in *.
  destruct required_lines_are_lines as [Lm Lk].
  destruct backslash_free_KSU as (B1 & B2 & B3).
  assert (forall sym, sym ∈ required_symbols -> nl ∉ sym ->
            set_symbol_text y sym (str "y") = y) as Hfix.
  { intros sym Hs Hnl. apply set_symbol_text_fixed; [done| |by apply Hnomark].
    by apply defconfig_after_run_assigned. }
  unfold patch_kernel_tree. cbv zeta.
  fold (drivers_makefile k) (drivers_kconfig k) (defconfig_path k)
    (dtc_makefile k).
  run_step (path_present_run _ _ (proj1 (bool_decide_eq_true _)
                                    (file_at_is_Some _ _ _ Fm))).
  simpl negb.
  run_step (when_false_run (raise (missing (drivers_makefile k))) fs1).
  run_step (path_present_run _ _ (proj1 (bool_decide_eq_true _)
                                    (file_at_is_Some _ _ _ Fk))).
  simpl negb.
  run_step (when_false_run (raise (missing (drivers_kconfig k))) fs1).
  run_step (path_present_run _ _ (proj1 (bool_decide_eq_true _)
                                    (file_at_is_Some _ _ _ Fd))).
  simpl negb.
  run_step (when_false_run (raise (missing (defconfig_path k))) fs1).
  (* the dtc step finds nothing to do *)
  assert (forall rest : M unit,
    (e <- path_exists (dtc_makefile k) ;;
     when e
       (dtc_text <- read_text (dtc_makefile k) ;;
        when (is_in (str "HOSTLDLIBS_dtc") dtc_text &&
              negb (is_in (str "HOSTLOADLIBES_dtc") dtc_text))
          (write_text (dtc_makefile k)
             (replace (str "HOSTLDLIBS_dtc") (str "HOSTLOADLIBES_dtc")
                dtc_text))) ;;
     rest) fs1 = rest fs1) as ->.
  { intros rest. destruct dtc as [d|].
    - simpl in Fdtc.
      run_step (path_present_run _ _ (proj1 (bool_decide_eq_true _)
                                        (file_at_is_Some _ _ _ Fdtc))).
      simpl when.
      assert ((dtc_text <- read_text (dtc_makefile k) ;;
               when (is_in (str "HOSTLDLIBS_dtc") dtc_text &&
                     negb (is_in (str "HOSTLOADLIBES_dtc") dtc_text))
                 (write_text (dtc_makefile k)
                    (replace (str "HOSTLDLIBS_dtc") (str "HOSTLOADLIBES_dtc")
                       dtc_text))) fs1 = (fs1, Ok tt)) as Eskip.
      { run_step (read_text_run _ _ _ Fdtc). by rewrite dtc_stored_settled. }
      by run_step Eskip.
    - pose proof (patch_kernel_tree_keeps_dtc_absent k fs dm dk dd
                    Hm Hk Hd Hdtc) as Habs.
      rewrite Hrun in Habs. simpl in Habs.
      by run_step (path_missing_run _ _ Habs). }
  run_step (ensure_line_in_file_present _ _ (Some obj_anchor) _ _
              (proj1 (file_at_Some _ _ _) Fm)
              (ensure_line_stored_settled dm _ _ Lm)).
  run_step (ensure_line_in_file_present _ _ None _ _
              (proj1 (file_at_Some _ _ _) Fk)
              (ensure_line_stored_settled dk _ _ Lk)).
  run_step (set_defconfig_symbol_fixed _ (str "KSU") (str "y") y fs1 Fd C3 B1
              (Hfix (str "KSU") ltac:(vm_compute; set_solver)
                    ltac:(vm_compute; set_solver))).
  run_step (set_defconfig_symbol_fixed _ (str "KPROBES") (str "y") y fs1 Fd C3 B2
              (Hfix (str "KPROBES") ltac:(vm_compute; set_solver)
                    ltac:(vm_compute; set_solver))).
  apply (set_defconfig_symbol_fixed _ (str "KPROBE_EVENTS") (str "y") y fs1 Fd C3 B3
           (Hfix (str "KPROBE_EVENTS") ltac:(vm_compute; set_solver)
                 ltac:(vm_compute; set_solver))).
Qed.

Lemma patch_kernel_tree_second_run_witness :
  let r1 := patch_kernel_tree ["k"%string] tree_without_dtc in
  file_at sample_defconfig r1.1 =
    Some (encode_utf8
            (defconfig_after_run (text_of (encode_utf8 (str "CONFIG_KSU=n"))))) /\
  patch_kernel_tree ["k"%string] r1.1 = (r1.1, Ok tt).
Proof.
  cbv zeta.
  apply (patch_kernel_tree_second_run ["k"%string] tree_without_dtc _
           (encode_utf8 three_rules) (encode_utf8 (str "menu"))
           (encode_utf8 (str "CONFIG_KSU=n")) None);
    vm_compute; reflexivity.
Defined.


(** ** More on [ensure_line_in_file] *)

(** Putting a line at a line boundary: the lines before and after stay,
    and one empty line is added when a newline had to be put first. *)
Lemma insert_line_lines (x b line : text) :
  nl ∉ line ->
  (b = [] \/ exists b', b = nl :: b') ->
  exists L1 L2 extra,
    lines (x ++ b) = L1 ++ L2 /\
    lines (x ++ break_unless_at_bol x ++ line ++ nl :: b) =
      L1 ++ line :: extra ++ L2 /\
    ((extra = [] /\ break_unless_at_bol x = []) \/
     (extra = [[]] /\ break_unless_at_bol x = [nl])).
Proof.
  intros Hl Hb. unfold break_unless_at_bol.
  destruct (last x) as [c|] eqn:Hlast.
  - apply last_Some in Hlast as [x' ->].
    destruct (N.eqb_spec c nl) as [->|Hc].
    + (* the insertion point is at the start of a line *)
      rewrite app_nil_l.
      exists (lines x'), (lines b), [].
      split_and!.
      * rewrite <- app_assoc. cbn [app]. by rewrite lines_app_nl.
      * rewrite <- app_assoc. cbn [app]. rewrite lines_app_nl.
        by rewrite (lines_first line b Hl).
      * by left.
    + exists (lines (x' ++ [c])), (match b with [] => [] | _ :: b' => lines b' end), [[]].
      split_and!.
      * destruct Hb as [->|[b' ->]]; [by rewrite !app_nil_r|].
        by rewrite lines_app_nl.
      * cbn [app]. rewrite lines_app_nl. f_equal.
        rewrite (lines_first line b Hl).
        destruct Hb as [->|[b' ->]]; [done|]. done.
      * by right.
  - apply last_None in Hlast as ->. rewrite !app_nil_l.
    exists [], (lines b), []. split_and!; [done| |by left].
    by rewrite (lines_first line b Hl).
Qed.

Lemma ensured_text_lines (t line : text) (after_regex : option regex) :
  nl ∉ line ->
  exists L1 L2 extra,
    lines t = L1 ++ L2 /\
    lines (ensured_text t line after_regex) = L1 ++ line :: extra ++ L2 /\
    (extra = [] \/ extra = [[]]).
Proof.
  intros Hl.
  destruct (anchor_end after_regex t) as [e|] eqn:He.
  - destruct (ensured_text_anchored t line after_regex e He)
      as (a & m & b & Ht & _ & _ & Hb & ->).
    destruct (insert_line_lines (a ++ m) b line Hl Hb)
      as (L1 & L2 & extra & H1 & H2 & H3).
    exists L1, L2, extra. split_and!.
    + by rewrite Ht, app_assoc.
    + done.
    + destruct H3 as [[-> _]|[-> _]]; auto.
  - unfold ensured_text. rewrite He. unfold append_line.
    destruct (ends_with_nl t) eqn:Hend.
    + apply ends_with_nl_inv in Hend as [t' ->].
      exists (lines t'), [[]], []. split_and!; [| |by left].
      * change (t' ++ [nl]) with (t' ++ nl :: []). by rewrite lines_app_nl.
      * rewrite <- app_assoc. cbn [app]. rewrite lines_app_nl.
        by rewrite (lines_first line [] Hl).
    + exists (lines t), [], [[]]. split_and!; [by rewrite app_nil_r| |by right].
      rewrite <- app_assoc. cbn [app]. rewrite lines_app_nl.
      by rewrite (lines_first line [] Hl).
Qed.

(** X1.  When [ensure_line_in_file] writes (the line, a text without a
    newline, is absent), the lines of the file afterwards are the lines of
    the text read, in the same order, with the new line put between two
    of them as a line of its own, followed by at most one empty line that
    was not there before.  No line is dropped or changed. *)
Theorem ensure_line_inserts_one_line (p : path) (line : text)
    (after_regex : option regex) (fs : node) (d : bytes) :
  fs_lookup p fs = Some (File d) ->
  nl ∉ line ->
  is_in line (text_of d) = false ->
  exists fs' out L1 L2 extra,
    ensure_line_in_file p line after_regex fs = (fs', Ok tt) /\
    fs_lookup p fs' = Some (File (encode_utf8 out)) /\
    lines (text_of d) = L1 ++ L2 /\
    lines out = L1 ++ line :: extra ++ L2 /\
    (extra = [] \/ extra = [[]]).
Proof.
  intros H Hl Hin.
  destruct (ensure_line_in_file_absent p line after_regex fs d H Hin)
    as (fs' & E & H').
  destruct (ensured_text_lines (text_of d) line after_regex Hl)
    as (L1 & L2 & extra & H1 & H2 & H3).
  by exists fs', (ensured_text (text_of d) line after_regex), L1, L2, extra.
Qed.

Lemma ensure_line_inserts_one_line_witness :
  exists fs' out L1 L2 extra,
    ensure_line_in_file sample_makefile ksu_makefile_line (Some obj_anchor)
      (tree_of [(sample_makefile, three_rules)]) = (fs', Ok tt) /\
    fs_lookup sample_makefile fs' = Some (File (encode_utf8 out)) /\
    lines (text_of (encode_utf8 three_rules)) = L1 ++ L2 /\
    lines out = L1 ++ ksu_makefile_line :: extra ++ L2 /\
    (extra = [] \/ extra = [[]]).
Proof.
  apply (ensure_line_inserts_one_line sample_makefile ksu_makefile_line
           (Some obj_anchor) _ (encode_utf8 three_rules)).
  - vm_compute; reflexivity.
  - vm_compute; set_solver.
  - vm_compute; reflexivity.
Defined.

(** ** Where a match of the anchor of the drivers Makefile stops *)

(** A property of where matches stop that holds for the end of a pattern
    holds for the whole pattern, if it does not depend on what comes
    before the match. *)
Lemma star_suffix (P : text -> nat -> Prop) (cs : cset)
    (k : option char -> text -> option nat) :
  (forall c s n, P s n -> P (c :: s) (S n)) ->
  (forall prev s n, k prev s = Some n -> P s n) ->
  forall prev s n, star cs k prev s = Some n -> P s n.
Proof.
  intros HP Hk prev s; revert prev.
  induction s as [|c s IH]; intros prev n; simpl; [apply Hk|].
  destruct (accepts cs c); [|apply Hk].
  destruct (star cs k (Some c) s) as [m|] eqn:E; [|apply Hk].
  intros [= <-]. apply HP. by apply IH in E.
Qed.

Lemma match_here_suffix (P : text -> nat -> Prop) (r1 : regex) :
  (forall c s n, P s n -> P (c :: s) (S n)) ->
  (forall prev s n, match_here r1 prev s = Some n -> P s n) ->
  forall r0 prev s n, match_here (r0 ++ r1) prev s = Some n -> P s n.
Proof.
  intros HP H1 r0. induction r0 as [|i r0 IH]; intros prev s n; [apply H1|].
  change ((i :: r0) ++ r1) with (i :: (r0 ++ r1)).
  cbn [match_here]. destruct i.
  - destruct s as [|c s]; [done|]. destruct (accepts cs c); [|done].
    destruct (match_here _ (Some c) s) as [m|] eqn:E; [|done].
    intros [= <-]. apply HP. by apply IH in E.
  - apply (star_suffix P); [done | apply IH].
  - destruct s as [|c s]; [done|]. destruct (accepts cs c); [|done].
    destruct (star cs _ (Some c) s) as [m|] eqn:E; [|done].
    intros [= <-]. apply HP.
    by apply (star_suffix P _ _ HP IH) in E.
  - destruct s as [|c s]; [apply IH|].
    destruct (accepts cs c); [|apply IH].
    destruct (match_here _ (Some c) s) as [m|] eqn:E; [|apply IH].
    intros [= <-]. apply HP. by apply IH in E.
  - destruct (at_bol prev); [apply IH | done].
  - destruct (at_eol s); [apply IH | done].
Qed.

Lemma ends_in_line_cons (c : char) (s : text) (n : nat) :
  ends_in_line s n -> ends_in_line (c :: s) (S n).
Proof.
  intros (k & c' & -> & Hk & Hc & He). by exists (S k), c'.
Qed.

(** [.*$] stops at the end of a line; what it consumed has no newline. *)
Lemma star_dot_eol_stops (prev : option char) (s : text) (n : nat) :
  star CDot (match_here [IEol]) prev s = Some n ->
  at_eol (drop n s) = true /\
  (n = 0 \/ exists k c, n = S k /\ s !! k = Some c /\ c <> nl).
Proof.
  assert (Hstop : forall prev s n,
             match_here [IEol] prev s = Some n -> n = 0 /\ at_eol s = true).
  { intros prev0 s0 n0. cbn [match_here].
    destruct (at_eol s0); [|done]. by intros [= <-]. }
  revert prev n. induction s as [|c s IH]; intros prev n; cbn [star accepts].
  - intros [-> He]%Hstop. split; [done | by left].
  - destruct (negb (c =? nl)%N) eqn:Hc.
    + destruct (star CDot (match_here [IEol]) (Some c) s) as [m|] eqn:E.
      * intros [= <-]. destruct (IH _ _ E) as [He Hm]. split; [done|].
        right. destruct Hm as [->|(k & c' & -> & Hk & Hc')].
        -- exists 0, c. split_and!; [done..|].
           intros ->. by rewrite N.eqb_refl in Hc.
        -- by exists (S k), c'.
      * intros [-> He]%Hstop. split; [done | by left].
    + intros [-> He]%Hstop. split; [done | by left].
Qed.

Lemma assign_tail_stops (prev : option char) (s : text) (n : nat) :
  match_here [IOne (CLit 61%N); IStar CDot; IEol] prev s = Some n ->
  ends_in_line s n.
Proof.
  cbn [match_here]. destruct s as [|c s]; [done|].
  destruct (accepts (CLit 61%N) c) eqn:Hc; [|done].
  destruct (star CDot _ (Some c) s) as [m|] eqn:E; [|done].
  intros [= <-]. simpl in Hc. apply N.eqb_eq in Hc. subst c.
  destruct (star_dot_eol_stops _ _ _ E) as [He [->|(k & c' & -> & Hk & Hc')]].
  - exists 0, 61%N. done.
  - exists (S k), c'. done.
Qed.

Lemma obj_anchor_stops (prev : option char) (s : text) (n : nat) :
  match_here obj_anchor prev s = Some n -> ends_in_line s n.
Proof.
  assert (exists r0, obj_anchor = r0 ++ [IOne (CLit 61%N); IStar CDot; IEol])
    as [r0 ->].
  { eexists (IBol :: lit (str "obj-$(CONFIG_") ++
             [IStar CDot; IOne (CLit 41%N); IStar CSpace; IOne (CLit 43%N)]).
    vm_compute. reflexivity. }
  apply (match_here_suffix ends_in_line); [apply ends_in_line_cons|].
  apply assign_tail_stops.
Qed.

(** X2.  With the anchor of the drivers Makefile,
    [^obj-\$\(CONFIG_.*\)\s*\+=.*$], a match never ends at the start of a
    line and always ends at the end of one.  So when the line is absent
    and the anchor matches, the file becomes: the text up to the end [e]
    of the first match, a newline, the line, a newline, and the rest of
    the text unchanged.  That rest is empty or starts with the newline
    that ended the matched line, which now leaves an empty line after the
    new one. *)
Theorem ensure_line_after_obj_rule (p : path) (line : text) (fs : node)
    (d : bytes) (st e : nat) :
  fs_lookup p fs = Some (File d) ->
  is_in line (text_of d) = false ->
  re_search obj_anchor (text_of d) = Some (st, e) ->
  exists fs' c,
    ensure_line_in_file p line (Some obj_anchor) fs = (fs', Ok tt) /\
    fs_lookup p fs' =
      Some (File (encode_utf8
                    (take e (text_of d) ++ nl :: line ++
                     nl :: drop e (text_of d)))) /\
    last (take e (text_of d)) = Some c /\ c <> nl /\
    (drop e (text_of d) = [] \/
     exists b', drop e (text_of d) = nl :: b').
Proof.
  intros H Hin Hs. set (t := text_of d) in *.
  destruct (re_search_spec _ _ _ _ Hs) as ([Hle1 Hle2] & Hm & _).
  unfold match_at in Hm. apply obj_anchor_stops in Hm.
  destruct Hm as (k & c & Hk & Hc & Hnl & Heol).
  rewrite lookup_drop in Hc. rewrite drop_drop in Heol.
  assert (e = S (st + k)) as -> by lia.
  replace (st + (S (st + k) - st)) with (S (st + k)) in Heol by lia.
  assert (Hlast : last (take (S (st + k)) t) = Some c).
  { rewrite (take_S_r _ _ _ Hc). apply last_snoc. }
  assert (Hrest : drop (S (st + k)) t = [] \/
                  exists b', drop (S (st + k)) t = nl :: b').
  { destruct (drop (S (st + k)) t) as [|c' b'] eqn:Hd; [by left|].
    right. exists b'. simpl in Heol. apply N.eqb_eq in Heol. by subst c'. }
  destruct (ensure_line_in_file_absent p line (Some obj_anchor) fs d H Hin)
    as (fs' & E & H').
  exists fs', c. split_and!; [done| |done..].
  rewrite H'. do 3 f_equal. fold t. unfold ensured_text.
  change (anchor_end (Some obj_anchor) t) with (snd <$> re_search obj_anchor t).
  rewrite Hs. cbn [fmap option_fmap option_map snd]. cbv zeta.
  assert (move_to_eol t (S (st + k)) = S (st + k)) as ->.
  { unfold move_to_eol. destruct Hrest as [->|[b' ->]]; [done|].
    by rewrite N.eqb_refl. }
  unfold insertion, break_unless_at_bol. rewrite Hlast.
  destruct (N.eqb_spec c nl) as [Ec|_]; [by destruct (Hnl Ec)|].
  by rewrite <- !app_assoc.
Qed.

Lemma ensure_line_after_obj_rule_witness :
  exists fs' c,
    ensure_line_in_file sample_makefile ksu_makefile_line (Some obj_anchor)
      (tree_of [(sample_makefile, three_rules)]) = (fs', Ok tt) /\
    fs_lookup sample_makefile fs' =
      Some (File (encode_utf8
                    (take 21 (text_of (encode_utf8 three_rules)) ++
                     nl :: ksu_makefile_line ++
                     nl :: drop 21 (text_of (encode_utf8 three_rules))))) /\
    last (take 21 (text_of (encode_utf8 three_rules))) = Some c /\ c <> nl /\
    (drop 21 (text_of (encode_utf8 three_rules)) = [] \/
     exists b', drop 21 (text_of (encode_utf8 three_rules)) = nl :: b').
Proof.
  apply (ensure_line_after_obj_rule sample_makefile ksu_makefile_line _
           (encode_utf8 three_rules) 0 21); vm_compute; reflexivity.
Defined.


(** X3.  When [ensure_line_in_file] writes, it writes the text as read in
    text mode: every line end of the file becomes a single newline, not
    only those around the new line (the line having no carriage return
    itself).  The stored text is then what a later read returns. *)
Theorem ensure_line_write_normalises (p : path) (line : text)
    (after_regex : option regex) (fs : node) (d : bytes) :
  fs_lookup p fs = Some (File d) ->
  cr ∉ line ->
  is_in line (text_of d) = false ->
  exists fs' out,
    ensure_line_in_file p line after_regex fs = (fs', Ok tt) /\
    fs_lookup p fs' = Some (File (encode_utf8 out)) /\
    (cr ∉ out) /\ text_of (encode_utf8 out) = out.
Proof.
  intros H Hcr Hin.
  destruct (ensure_line_in_file_absent p line after_regex fs d H Hin)
    as (fs' & E & H').
  assert (cr ∉ ensured_text (text_of d) line after_regex) as Hout.
  { apply ensured_text_no_cr; [apply text_of_no_cr | done]. }
  eexists fs', _. split_and!; [done | exact H' | done |].
  by apply text_of_written.
Qed.

Lemma ensure_line_write_normalises_witness :
  (cr ∈ crlf_rules) /\
  exists fs' out,
    ensure_line_in_file sample_makefile ksu_makefile_line (Some obj_anchor)
      (tree_of [(sample_makefile, crlf_rules)]) = (fs', Ok tt) /\
    fs_lookup sample_makefile fs' = Some (File (encode_utf8 out)) /\
    (cr ∉ out) /\ text_of (encode_utf8 out) = out.
Proof.
  split; [vm_compute; set_solver|].
  apply (ensure_line_write_normalises sample_makefile ksu_makefile_line
           (Some obj_anchor) _ (encode_utf8 crlf_rules)).
  - vm_compute; reflexivity.
  - vm_compute; set_solver.
  - vm_compute; reflexivity.
Defined.

(** ** More on [set_defconfig_symbol] *)

(** X4.  [set_defconfig_symbol] has no early return: it writes the file on
    every successful call, so the line ends of the whole defconfig become
    single newlines even when the symbol already had the value asked
    for. *)
Theorem set_defconfig_symbol_normalises (p : path) (sym value : text)
    (fs : node) (d : bytes) :
  file_at p fs = Some d ->
  cr ∉ sym -> cr ∉ value -> backslash ∉ sym -> backslash ∉ value ->
  exists fs' out,
    set_defconfig_symbol p sym value fs = (fs', Ok tt) /\
    file_at p fs' = Some (encode_utf8 out) /\
    (cr ∉ out) /\ text_of (encode_utf8 out) = out.
Proof.
  intros H Hs Hv Hbs Hbv.
  destruct (set_defconfig_symbol_run p sym value fs d H
              (config_line_backslash_free sym value Hbs Hbv))
    as (fs' & E & H' & _).
  assert (cr ∉ set_symbol_text (text_of d) sym value) as Hout.
  { apply set_symbol_text_no_cr; [done..|apply text_of_no_cr]. }
  eexists fs', _. split_and!; [done | exact H' | done |].
  by apply text_of_written.
Qed.

Lemma set_defconfig_symbol_normalises_witness :
  (cr ∈ crlf_defconfig) /\
  exists fs' out,
    set_defconfig_symbol sample_defconfig (str "KSU") (str "y")
      (tree_of [(sample_defconfig, crlf_defconfig)]) = (fs', Ok tt) /\
    file_at sample_defconfig fs' = Some (encode_utf8 out) /\
    (cr ∉ out) /\ text_of (encode_utf8 out) = out.
Proof.
  split; [vm_compute; set_solver|].
  apply (set_defconfig_symbol_normalises sample_defconfig (str "KSU") (str "y")
           _ (encode_utf8 crlf_defconfig));
    vm_compute; first [reflexivity | set_solver].
Defined.


Lemma any_accepts_lit (w : text) (c : char) :
  c ∉ w -> any_accepts (lit w) c = false.
Proof.
  unfold any_accepts, lit. induction w as [|a w IH]; intros Hc; [done|].
  rewrite fmap_cons. cbn [existsb item_accepts accepts].
  apply not_elem_of_cons in Hc as [Hca Hc].
  rewrite (IH Hc), orb_false_r. by apply N.eqb_neq.
Qed.

Lemma any_accepts_app (r1 r2 : regex) (c : char) :
  any_accepts (r1 ++ r2) c = any_accepts r1 c || any_accepts r2 c.
Proof. apply existsb_app. Qed.

(** The marker pattern cannot consume an equals sign. *)
Lemma not_set_re_no_equals (sym : text) :
  61%N ∉ sym -> any_accepts (not_set_re sym) 61%N = false.
Proof.
  intros Hs. unfold not_set_re.
  change (IBol :: IOne (CLit 35%N) :: IStar CSpace :: ?r)
    with ([IBol; IOne (CLit 35%N); IStar CSpace] ++ r).
  rewrite any_accepts_app.
  unfold lit at 1. rewrite fmap_app. fold (lit (str "CONFIG_")) (lit sym).
  rewrite <- app_assoc, !any_accepts_app.
  rewrite (any_accepts_lit sym _ Hs).
  vm_compute. reflexivity.
Qed.

(** X5.  [set_defconfig_symbol] leaves the other settings alone.  Every
    line of the defconfig it writes is a line of the text read, or empty,
    or the assignment line of the symbol; and every line of the text read
    that contains an equals sign and does not start with [CONFIG_<sym>=],
    an assignment of another symbol for one, is still there unchanged. *)
Theorem set_defconfig_symbol_keeps_other_lines (p : path) (sym value : text)
    (fs : node) (d : bytes) :
  file_at p fs = Some d ->
  nl ∉ sym -> nl ∉ value -> backslash ∉ sym -> backslash ∉ value ->
  61%N ∉ sym ->
  exists fs' out,
    set_defconfig_symbol p sym value fs = (fs', Ok tt) /\
    file_at p fs' = Some (encode_utf8 out) /\
    (forall l, l ∈ lines out ->
       l ∈ lines (text_of d) \/ l = [] \/ l = config_line sym value) /\
    (forall l, l ∈ lines (text_of d) -> 61%N ∈ l ->
       is_assignment_of sym l = false -> l ∈ lines out).
Proof.
  intros H Hs Hv Hbs Hbv Heq.
  destruct (set_defconfig_symbol_run p sym value fs d H
              (config_line_backslash_free sym value Hbs Hbv))
    as (fs' & E & H' & _).
  destruct (set_symbol_text_other_lines sym value (text_of d) Hs Hv)
    as [Hsub Hkeep].
  eexists fs', _. split_and!; [done | exact H' | done |].
  intros l Hl Hc Ha.
  exact (Hkeep l 61%N Hl Hc (not_set_re_no_equals sym Heq) Ha).
Qed.

Lemma set_defconfig_symbol_keeps_other_lines_witness :
  exists fs' out,
    set_defconfig_symbol sample_defconfig (str "KSU") (str "y")
      (tree_of [(sample_defconfig, defconfig_ksu_not_set)]) = (fs', Ok tt) /\
    file_at sample_defconfig fs' = Some (encode_utf8 out) /\
    (forall l, l ∈ lines out ->
       l ∈ lines (text_of (encode_utf8 defconfig_ksu_not_set)) \/ l = [] \/
       l = config_line (str "KSU") (str "y")) /\
    (forall l, l ∈ lines (text_of (encode_utf8 defconfig_ksu_not_set)) ->
       61%N ∈ l -> is_assignment_of (str "KSU") l = false -> l ∈ lines out).
Proof.
  apply (set_defconfig_symbol_keeps_other_lines sample_defconfig
           (str "KSU") (str "y") _ (encode_utf8 defconfig_ksu_not_set));
    vm_compute; first [reflexivity | set_solver].
Defined.


(** ** More on [patch_kernel_tree] *)

(** An assignment line is no disabled marker, of whatever symbol. *)
Lemma config_line_never_marker (sym sym' value : text) :
  is_not_set_line sym (config_line sym' value) = false.
Proof. reflexivity. Qed.

Lemma empty_line_not_marker (sym : text) : is_not_set_line sym [] = false.
Proof. unfold is_not_set_line. by rewrite not_set_re_nil. Qed.

(** A later call of [set_defconfig_symbol] brings no disabled marker
    back. *)
Lemma set_symbol_text_keeps_unmarked (sym sym' value t : text) :
  nl ∉ sym' -> nl ∉ value ->
  (forall l, l ∈ lines t -> is_not_set_line sym l = false) ->
  forall l, l ∈ lines (set_symbol_text t sym' value) ->
            is_not_set_line sym l = false.
Proof.
  intros Hs Hv Ht l Hl.
  destruct (set_symbol_text_other_lines sym' value t Hs Hv) as [Hsub _].
  destruct (Hsub l Hl) as [H|[->| ->]].
  - by apply Ht.
  - apply empty_line_not_marker.
  - apply config_line_never_marker.
Qed.

Lemma required_symbols_no_nl (sym : text) : sym ∈ required_symbols -> nl ∉ sym.
Proof.
  unfold required_symbols. rewrite !elem_of_cons, elem_of_nil.
  intros [->|[->|[->|[]]]]; vm_compute; set_solver.
Qed.

Lemma defconfig_after_run_unmarked (t sym : text) :
  sym ∈ required_symbols ->
  forall l, l ∈ lines (defconfig_after_run t) -> is_not_set_line sym l = false.
Proof.
  intros Hsym. unfold defconfig_after_run.
  assert (Hy : nl ∉ str "y") by (vm_compute; set_solver).
  assert (N1 : nl ∉ str "KSU") by (vm_compute; set_solver).
  assert (N2 : nl ∉ str "KPROBES") by (vm_compute; set_solver).
  assert (N3 : nl ∉ str "KPROBE_EVENTS") by (vm_compute; set_solver).
  unfold required_symbols in Hsym.
  rewrite !elem_of_cons, elem_of_nil in Hsym.
  destruct Hsym as [->|[->|[->|[]]]].
  - apply set_symbol_text_keeps_unmarked; [done..|].
    apply set_symbol_text_keeps_unmarked; [done..|].
    apply (set_symbol_text_lines (str "KSU") (str "y") t N1 Hy).
  - apply set_symbol_text_keeps_unmarked; [done..|].
    apply (set_symbol_text_lines (str "KPROBES") (str "y") _ N2 Hy).
  - apply (set_symbol_text_lines (str "KPROBE_EVENTS") (str "y") _ N3 Hy).
Qed.

(** X6.  On a kernel tree that has the three required files (the dtc
    Makefile being a regular file or absent), [patch_kernel_tree]
    succeeds, and afterwards: the text of drivers/Makefile contains the
    KernelSU rule, the text of drivers/Kconfig contains the [source]
    line, and in the defconfig each of KSU, KPROBES and KPROBE_EVENTS is
    assigned, every assignment line of it being [CONFIG_<sym>=y], while
    no line is a disabled marker of it.  The later calls of
    [set_defconfig_symbol] do not undo the earlier ones. *)
Theorem patch_kernel_tree_establishes (k : path) (fs : node)
    (dm dk dd : bytes) (dtc : option bytes) :
  file_at (drivers_makefile k) fs = Some dm ->
  file_at (drivers_kconfig k) fs = Some dk ->
  file_at (defconfig_path k) fs = Some dd ->
  match dtc with
  | Some d => file_at (dtc_makefile k) fs = Some d
  | None => fs_lookup (dtc_makefile k) fs = None
  end ->
  exists fs' m' k' c',
    patch_kernel_tree k fs = (fs', Ok tt) /\
    file_at (drivers_makefile k) fs' = Some m' /\
    is_in ksu_makefile_line (text_of m') = true /\
    file_at (drivers_kconfig k) fs' = Some k' /\
    is_in ksu_kconfig_line (text_of k') = true /\
    file_at (defconfig_path k) fs' = Some (encode_utf8 c') /\
    forall sym, sym ∈ required_symbols ->
      assigned_y sym c' /\
      forall l, l ∈ lines c' -> is_not_set_line sym l = false.
Proof.
  intros Hm Hk Hd Hdtc.
  destruct (patch_kernel_tree_run k fs dm dk dd dtc Hm Hk Hd Hdtc)
    as (fs' & E & Fm & Fk & Fd & _).
  destruct (defconfig_after_run_no_cr (text_of dd)
              (text_of_no_cr dd)) as (C1 & C2 & _).
  rewrite (text_of_written _ C1) in Fd.
  rewrite (text_of_written _ C2) in Fd.
  fold (defconfig_after_run (text_of dd)) in Fd.
  destruct required_lines_are_lines as [Lm Lk].
  eexists fs', _, _, _.
  split_and!; [done | exact Fm | | exact Fk | | exact Fd |].
  - by apply ensure_line_stored_settled.
  - by apply ensure_line_stored_settled.
  - intros sym Hsym. split.
    + by apply defconfig_after_run_assigned.
    + by apply defconfig_after_run_unmarked.
Qed.

Lemma patch_kernel_tree_establishes_witness :
  exists fs' m' k' c',
    patch_kernel_tree ["k"%string] tree_with_split_marker = (fs', Ok tt) /\
    file_at (drivers_makefile ["k"%string]) fs' = Some m' /\
    is_in ksu_makefile_line (text_of m') = true /\
    file_at (drivers_kconfig ["k"%string]) fs' = Some k' /\
    is_in ksu_kconfig_line (text_of k') = true /\
    file_at (defconfig_path ["k"%string]) fs' = Some (encode_utf8 c') /\
    forall sym, sym ∈ required_symbols ->
      assigned_y sym c' /\
      forall l, l ∈ lines c' -> is_not_set_line sym l = false.
Proof.
  apply (patch_kernel_tree_establishes ["k"%string] tree_with_split_marker
           (encode_utf8 three_rules) (encode_utf8 (str "menu"))
           (encode_utf8 split_marker_defconfig) None);
    vm_compute; reflexivity.
Defined.


(** ** What the operations leave alone *)

Lemma keeps_ret {A} (q : path) (a : A) : keeps q (ret a).
Proof. done. Qed.

Lemma keeps_raise {A} (q : path) (e : exn) : keeps q (raise (A:=A) e).
Proof. done. Qed.

Lemma keeps_bind {A B} (q : path) (m : M A) (k : A -> M B) :
  keeps q m -> (forall a, keeps q (k a)) -> keeps q (bind m k).
Proof.
  intros Hm Hk fs. unfold bind. specialize (Hm fs).
  destruct (m fs) as [fs' [a|e]]; simpl in *; [|done].
  by rewrite Hk.
Qed.

Lemma keeps_when (q : path) (b : bool) (m : M unit) :
  keeps q m -> keeps q (when b m).
Proof. destruct b; [done | intros _; apply keeps_ret]. Qed.

Lemma keeps_path_exists (q p : path) : keeps q (path_exists p).
Proof. done. Qed.

Lemma keeps_is_dir (q p : path) : keeps q (is_dir p).
Proof. done. Qed.

Lemma keeps_read_text (q p : path) : keeps q (read_text p).
Proof. intros fs. unfold read_text. by destruct (fs_lookup p fs) as [[?|?]|]. Qed.

Lemma keeps_write_text (q p : path) (t : text) :
  diverge p q -> keeps q (write_text p t).
Proof. intros Hd fs. by apply write_text_diverge. Qed.

Lemma keeps_rmtree (q p : path) : diverge p q -> keeps q (rmtree p).
Proof.
  intros Hd fs. unfold rmtree.
  destruct (fs_lookup p fs) as [[?|?]|]; [done| |done].
  by apply fs_remove_frame.
Qed.

Lemma keeps_copytree (q src dst : path) :
  diverge dst q -> keeps q (copytree src dst).
Proof.
  intros Hd fs. unfold copytree.
  destruct (fs_lookup src fs) as [[?|es]|]; [done| |done].
  destruct (bool_decide _); [done|]. destruct (bool_decide _); [done|].
  destruct (fs_put dst (Dir es) fs) as [fs'|] eqn:E; [|done].
  by apply (fs_put_frame _ _ _ _ _ Hd) in E.
Qed.

Lemma keeps_ensure_line_in_file (q p : path) (line : text)
    (after_regex : option regex) :
  diverge p q -> keeps q (ensure_line_in_file p line after_regex).
Proof. intros Hd fs. by apply ensure_line_in_file_diverge. Qed.

Lemma keeps_set_defconfig_symbol (q p : path) (sym value : text) :
  diverge p q -> keeps q (set_defconfig_symbol p sym value).
Proof. intros Hd fs. by apply set_defconfig_symbol_diverge. Qed.

Lemma patch_kernel_tree_keeps (k q : path) :
  diverge (drivers_makefile k) q ->
  diverge (drivers_kconfig k) q ->
  diverge (defconfig_path k) q ->
  diverge (dtc_makefile k) q ->
  keeps q (patch_kernel_tree k).
Proof.
  intros D1 D2 D3 D4.
  unfold patch_kernel_tree. cbv zeta.
  fold (drivers_makefile k) (drivers_kconfig k) (defconfig_path k)
    (dtc_makefile k).
  repeat first
    [ by apply keeps_ensure_line_in_file
    | by apply keeps_set_defconfig_symbol
    | by apply keeps_write_text
    | apply keeps_path_exists
    | apply keeps_read_text
    | apply keeps_raise
    | apply keeps_when
    | apply keeps_bind; [|intros ?] ].
Qed.

(** X7.  [patch_kernel_tree] touches nothing but the four files it names:
    whatever lies at a path that is neither one of them, nor above, nor
    below one of them, is the same afterwards, on every tree and whether
    the call succeeds or raises. *)
Theorem patch_kernel_tree_touches_four_files (k q : path) (fs : node) :
  diverge (drivers_makefile k) q ->
  diverge (drivers_kconfig k) q ->
  diverge (defconfig_path k) q ->
  diverge (dtc_makefile k) q ->
  fs_lookup q (patch_kernel_tree k fs).1 = fs_lookup q fs.
Proof.
  intros D1 D2 D3 D4. by apply patch_kernel_tree_keeps.
Qed.

Lemma patch_kernel_tree_touches_four_files_witness :
  fs_lookup ["s"; "kernel"; "ksu.c"]%string
    (patch_kernel_tree ["k"%string] tree_with_stale_copy).1 =
  fs_lookup ["s"; "kernel"; "ksu.c"]%string tree_with_stale_copy.
Proof.
  apply (patch_kernel_tree_touches_four_files ["k"%string]
           ["s"; "kernel"; "ksu.c"]%string tree_with_stale_copy);
    (eexists [], _, _, _, _; split_and!; [reflexivity | reflexivity | done]).
Defined.

(** X8.  [copy_kernelsu_sources] touches nothing but the destination
    [drivers/kernelsu]: whatever lies at a path that is neither the
    destination, nor above, nor below it, is the same afterwards, on
    every tree and whether the call succeeds or raises.  In particular
    the KernelSU checkout is only read: when source and destination are
    not inside one another, everything at and below the source directory
    is as before (its Kconfig keeps its line ends). *)
Theorem copy_kernelsu_sources_touches_destination (s k : path) (fs : node) :
  (forall q, diverge (ksu_dst k) q ->
     fs_lookup q (copy_kernelsu_sources s k fs).1 = fs_lookup q fs) /\
  (¬ ksu_src s `prefix_of` ksu_dst k ->
   ¬ ksu_dst k `prefix_of` ksu_src s ->
   forall r, fs_lookup (ksu_src s ++ r) (copy_kernelsu_sources s k fs).1 =
             fs_lookup (ksu_src s ++ r) fs).
Proof.
  assert (forall q, diverge (ksu_dst k) q -> keeps q (copy_kernelsu_sources s k))
    as Hkeep.
  { intros q Hd. unfold copy_kernelsu_sources. cbv zeta.
    fold (ksu_src s) (ksu_dst k).
    repeat first
      [ by apply keeps_write_text, diverge_app_l
      | by apply keeps_rmtree
      | by apply keeps_copytree
      | apply keeps_path_exists
      | apply keeps_is_dir
      | apply keeps_read_text
      | apply keeps_raise
      | apply keeps_when
      | apply keeps_bind; [|intros ?] ]. }
  split.
  - intros q Hd. apply (Hkeep q Hd).
  - intros H1 H2 r. apply Hkeep.
    apply diverge_sym, diverge_app_l, unrelated_diverge; done.
Qed.

Lemma copy_kernelsu_sources_touches_destination_witness :
  fs_lookup (ksu_src ["s"%string] ++ ["Kconfig"%string])
    (copy_kernelsu_sources ["s"%string] ["k"%string] tree_with_stale_copy).1 =
  fs_lookup (ksu_src ["s"%string] ++ ["Kconfig"%string]) tree_with_stale_copy.
Proof.
  apply (proj2 (copy_kernelsu_sources_touches_destination ["s"%string]
                  ["k"%string] tree_with_stale_copy)).
  - intros [r Hr]. vm_compute in Hr. discriminate.
  - intros [r Hr]. vm_compute in Hr. discriminate.
Defined.


(** ** The substitution in the dtc Makefile *)

Section Replace.

(** [old] and [new] start with the same character, which occurs nowhere
    else in them, and differ before the end of the shorter one. *)
Variables (h : char) (old' new' : text).
Hypothesis old_head : h ∉ old'.
Hypothesis new_head : h ∉ new'.
Hypothesis differ : forall x, starts_with (h :: old') ((h :: new') ++ x) = false.

Lemma replaced_prefix (w s : text) :
  h ∉ w ->
  starts_with w (replace_from (h :: old') (h :: new') 0 s) = true ->
  starts_with w s = true.
Proof.
  revert s; induction w as [|x w IH]; intros s Hw; [done|].
  apply not_elem_of_cons in Hw as [Hx Hw].
  destruct s as [|c s]; [done|]. cbn [replace_from].
  destruct (starts_with (h :: old') (c :: s)).
  - cbn [app starts_with].
    destruct (N.eqb_spec x h) as [->|_]; [done|]. done.
  - cbn [starts_with]. intros [Hc H]%andb_true_iff.
    rewrite Hc. by apply IH.
Qed.

Lemma is_in_after_others (w x : text) :
  h ∉ w -> is_in (h :: old') x = false -> is_in (h :: old') (w ++ x) = false.
Proof.
  intros Hw Hx. induction w as [|c w IH]; [done|].
  apply not_elem_of_cons in Hw as [Hc Hw].
  cbn [app is_in starts_with].
  destruct (N.eqb_spec h c) as [->|_]; [done|]. by apply IH.
Qed.

(** No occurrence of [old] is left, and none is made. *)
Lemma replace_from_removes (k : nat) (s : text) :
  is_in (h :: old') (replace_from (h :: old') (h :: new') k s) = false.
Proof.
  revert k; induction s as [|c s IH]; intros k; [by destruct k|].
  destruct k as [|k]; cbn [replace_from]; [|apply IH].
  destruct (starts_with (h :: old') (c :: s)) eqn:E.
  - change ((h :: new') ++ ?x) with (h :: new' ++ x).
    cbn [is_in]. apply orb_false_iff. split; [apply (differ _)|].
    apply is_in_after_others; [done | apply IH].
  - cbn [is_in]. apply orb_false_iff. split; [|apply IH].
    destruct (starts_with (h :: old') (c :: replace_from _ _ 0 s)) eqn:E'; [|done].
    cbn [starts_with] in E, E'. apply andb_true_iff in E' as [Hc E'].
    rewrite Hc in E. apply replaced_prefix in E'; [|done].
    by rewrite E' in E.
Qed.

End Replace.

Lemma dtc_name_replaced (t : text) :
  is_in (str "HOSTLDLIBS_dtc")
    (replace (str "HOSTLDLIBS_dtc") (str "HOSTLOADLIBES_dtc") t) = false.
Proof.
  apply (replace_from_removes 72%N (str "OSTLDLIBS_dtc") (str "OSTLOADLIBES_dtc")).
  - vm_compute; set_solver.
  - vm_compute; set_solver.
  - intros x. vm_compute. reflexivity.
Qed.

(** X9.  The dtc step of [patch_kernel_tree], on a kernel tree with the
    three required files and a dtc Makefile.  If the text of the dtc
    Makefile has the name HOSTLDLIBS_dtc and not the name
    HOSTLOADLIBES_dtc, the file written has no occurrence of
    HOSTLDLIBS_dtc left, has HOSTLOADLIBES_dtc, and has no carriage
    return.  Otherwise, also when both names occur, the file is left as
    it is, byte for byte. *)
Theorem patch_kernel_tree_renames_dtc_libs (k : path) (fs : node)
    (dm dk dd d : bytes) :
  file_at (drivers_makefile k) fs = Some dm ->
  file_at (drivers_kconfig k) fs = Some dk ->
  file_at (defconfig_path k) fs = Some dd ->
  file_at (dtc_makefile k) fs = Some d ->
  exists fs' out,
    patch_kernel_tree k fs = (fs', Ok tt) /\
    file_at (dtc_makefile k) fs' = Some out /\
    (is_in (str "HOSTLDLIBS_dtc") (text_of d) = true ->
     is_in (str "HOSTLOADLIBES_dtc") (text_of d) = false ->
     exists t,
       out = encode_utf8 t /\
       is_in (str "HOSTLDLIBS_dtc") t = false /\
       is_in (str "HOSTLOADLIBES_dtc") t = true /\
       (cr ∉ t)) /\
    (is_in (str "HOSTLDLIBS_dtc") (text_of d) = false \/
     is_in (str "HOSTLOADLIBES_dtc") (text_of d) = true ->
     out = d).
Proof.
  intros Hm Hk Hd Hdtc.
  destruct (patch_kernel_tree_run k fs dm dk dd (Some d) Hm Hk Hd Hdtc)
    as (fs' & E & _ & _ & _ & Fdtc).
  exists fs', (dtc_stored d). split_and!; [done..| |].
  - intros Hold Hnew. unfold dtc_stored. rewrite Hold, Hnew. cbn [negb andb].
    eexists. split; [reflexivity|]. split_and!.
    + apply dtc_name_replaced.
    + by apply replace_contains.
    + apply replace_from_no_cr; [vm_compute; set_solver|].
      apply text_of_no_cr.
  - unfold dtc_stored. intros [-> | ->]; [done|]. by rewrite andb_false_r.
Qed.

Lemma patch_kernel_tree_renames_dtc_libs_witness :
  exists fs' out,
    patch_kernel_tree ["k"%string] tree_with_dtc = (fs', Ok tt) /\
    file_at (dtc_makefile ["k"%string]) fs' = Some out /\
    (is_in (str "HOSTLDLIBS_dtc") (text_of (encode_utf8 dtc_sample)) = true ->
     is_in (str "HOSTLOADLIBES_dtc") (text_of (encode_utf8 dtc_sample)) = false ->
     exists t,
       out = encode_utf8 t /\
       is_in (str "HOSTLDLIBS_dtc") t = false /\
       is_in (str "HOSTLOADLIBES_dtc") t = true /\
       (cr ∉ t)) /\
    (is_in (str "HOSTLDLIBS_dtc") (text_of (encode_utf8 dtc_sample)) = false \/
     is_in (str "HOSTLOADLIBES_dtc") (text_of (encode_utf8 dtc_sample)) = true ->
     out = encode_utf8 dtc_sample).
Proof.
  apply (patch_kernel_tree_renames_dtc_libs ["k"%string] tree_with_dtc
           (encode_utf8 three_rules) (encode_utf8 (str "menu"))
           (encode_utf8 (str "CONFIG_KSU=n")) (encode_utf8 dtc_sample));
    vm_compute; reflexivity.
Defined.


(** ** More on [copy_kernelsu_sources] *)

(** Two trees with the same entry at [p] and the same entries beside the
    way to [p] are the same tree. *)
Lemma fs_ext_at (p : path) (a b v : node) :
  fs_lookup p a = Some v -> fs_lookup p b = Some v ->
  (forall q, diverge p q -> fs_lookup q a = fs_lookup q b) ->
  a = b.
Proof.
  revert a b. induction p as [|c p IH]; intros a b Ha Hb Hq.
  - simpl in Ha, Hb. congruence.
  - destruct a as [?|ea]; [done|]. destruct b as [?|eb]; [done|].
    simpl in Ha, Hb.
    destruct (ea !! c) as [ma|] eqn:Ea; [|done].
    destruct (eb !! c) as [mb|] eqn:Eb; [|done].
    f_equal. apply map_eq. intros c'.
    destruct (decide (c' = c)) as [->|Hc].
    + rewrite Ea, Eb. f_equal. apply IH; [done..|].
      intros q (c0 & x & y & p' & q' & -> & -> & Hxy).
      specialize (Hq (c :: c0 ++ y :: q')). simpl in Hq. rewrite Ea, Eb in Hq.
      apply Hq. by exists (c :: c0), x, y, p', q'.
    + specialize (Hq [c']). simpl in Hq.
      assert (diverge (c :: p) [c']) as Hd by (by exists [], c, c', p, []).
      specialize (Hq Hd).
      destruct (ea !! c'), (eb !! c'); congruence.
Qed.

Lemma kconfig_normalised_clean (es : gmap string node) :
  (forall d, es !! "Kconfig"%string = Some (File d) ->
             exists t, d = encode_utf8 t /\ cr ∉ t) ->
  kconfig_normalised es = es.
Proof.
  intros H. unfold kconfig_normalised.
  destruct (es !! "Kconfig"%string) as [[d|?]|] eqn:E; [|done..].
  destruct (H d eq_refl) as (t & -> & Hcr).
  rewrite (text_of_written t Hcr). by apply insert_id.
Qed.

(** X11.  When the Kconfig of the KernelSU sources is valid UTF-8 and
    has no carriage return (or there is none), the copy is exact:
    afterwards the destination directory and the source directory hold
    the same entries, byte for byte.  (A Kconfig with a byte that UTF-8
    cannot decode, or with a carriage return, is changed by the rewrite
    that ends the copy.) *)
Theorem copy_kernelsu_sources_exact (s k : path) (fs : node)
    (es : gmap string node) :
  fs_lookup (ksu_src s) fs = Some (Dir es) ->
  ¬ ksu_src s `prefix_of` ksu_dst k ->
  ¬ ksu_dst k `prefix_of` ksu_src s ->
  through_file (ksu_dst k) fs = false ->
  (forall d, fs_lookup (ksu_dst k) fs <> Some (File d)) ->
  (forall es', es !! "Kconfig"%string <> Some (Dir es')) ->
  (forall d, es !! "Kconfig"%string = Some (File d) ->
             exists t, d = encode_utf8 t /\ cr ∉ t) ->
  exists fs',
    copy_kernelsu_sources s k fs = (fs', Ok tt) /\
    fs_lookup (ksu_dst k) fs' = Some (Dir es) /\
    fs_lookup (ksu_src s) fs' = Some (Dir es).
Proof.
  intros Hsrc Hsd Hds Hway Hnofile Hkc Hclean.
  destruct (copy_kernelsu_sources_succeeds s k fs es Hsrc Hsd Hds Hway Hnofile Hkc)
    as [fs' E].
  destruct (copy_kernelsu_sources_ok_inv s k fs fs' E)
    as (es' & Hsrc' & Hdiv & Hdst & Hfr).
  assert (es' = es) as -> by congruence.
  exists fs'. split_and!; [done| |].
  - by rewrite Hdst, kconfig_normalised_clean.
  - by rewrite Hfr.
Qed.

Lemma copy_kernelsu_sources_exact_witness :
  exists es fs',
    copy_kernelsu_sources ["s"%string] ["k"%string] tree_with_clean_sources
      = (fs', Ok tt) /\
    fs_lookup (ksu_dst ["k"%string]) fs' = Some (Dir es) /\
    fs_lookup (ksu_src ["s"%string]) fs' = Some (Dir es).
Proof.
  destruct (fs_lookup (ksu_src ["s"%string]) tree_with_clean_sources)
    as [[d|es]|] eqn:Es; [by vm_compute in Es| |by vm_compute in Es].
  destruct (copy_kernelsu_sources_exact ["s"%string] ["k"%string]
              tree_with_clean_sources es Es) as (fs' & H).
  - by intros [r [=]].
  - by intros [r [=]].
  - vm_compute; reflexivity.
  - intros d. by vm_compute.
  - intros es' He. vm_compute in Es. injection Es as <-. by vm_compute in He.
  - intros d He. vm_compute in Es. injection Es as <-.
    vm_compute in He. injection He as <-.
    exists (str "config KSU" ++ [nl]). split; [reflexivity|].
    vm_compute. set_solver.
  - exists es, fs'. exact H.
Defined.

(** X12.  Copying twice is copying once: a second call of
    [copy_kernelsu_sources] after a successful one succeeds and leaves
    the file system exactly as the first call left it. *)
Theorem copy_kernelsu_sources_twice (s k : path) (fs : node)
    (es ds : gmap string node) :
  fs_lookup (ksu_src s) fs = Some (Dir es) ->
  ¬ ksu_src s `prefix_of` ksu_dst k ->
  ¬ ksu_dst k `prefix_of` ksu_src s ->
  fs_lookup (k ++ ["drivers"%string]) fs = Some (Dir ds) ->
  (forall d, ds !! "kernelsu"%string <> Some (File d)) ->
  (forall es', es !! "Kconfig"%string <> Some (Dir es')) ->
  exists fs1,
    copy_kernelsu_sources s k fs = (fs1, Ok tt) /\
    copy_kernelsu_sources s k fs1 = (fs1, Ok tt).
Proof.
  intros Hsrc Hsd Hds Hpar Hnofile Hkc.
  destruct (copy_kernelsu_sources_run s k fs es ds Hsrc Hsd Hds Hpar Hnofile Hkc)
    as (fs1 & E1 & Hdst1 & Hfr1).
  exists fs1. split; [done|].
  assert (fs_lookup (ksu_src s) fs1 = Some (Dir es)) as Hsrc1.
  { rewrite Hfr1; [done|]. by apply diverge_sym, unrelated_diverge. }
  assert (exists ds1, fs_lookup (k ++ ["drivers"%string]) fs1 = Some (Dir ds1) /\
                      ds1 !! "kernelsu"%string = Some (Dir (kconfig_normalised es)))
    as (ds1 & Hpar1 & Hin1).
  { rewrite ksu_dst_parent, fs_lookup_app in Hdst1.
    destruct (fs_lookup (k ++ ["drivers"%string]) fs1) as [[?|ds1]|]; [done| |done].
    exists ds1. split; [done|]. simpl in Hdst1.
    by destruct (ds1 !! "kernelsu"%string). }
  destruct (copy_kernelsu_sources_run s k fs1 es ds1 Hsrc1 Hsd Hds Hpar1)
    as (fs2 & E2 & Hdst2 & Hfr2); [by rewrite Hin1 | done |].
  rewrite E2. f_equal.
  apply (fs_ext_at (ksu_dst k) _ _ _ Hdst2 Hdst1 Hfr2).
Qed.

Lemma copy_kernelsu_sources_twice_witness :
  exists fs1,
    copy_kernelsu_sources ["s"%string] ["k"%string] tree_with_stale_copy
      = (fs1, Ok tt) /\
    copy_kernelsu_sources ["s"%string] ["k"%string] fs1 = (fs1, Ok tt).
Proof.
  destruct (fs_lookup (ksu_src ["s"%string]) tree_with_stale_copy)
    as [[d|es]|] eqn:Es; [by vm_compute in Es| |by vm_compute in Es].
  destruct (fs_lookup (["k"; "drivers"]%string) tree_with_stale_copy)
    as [[d|ds]|] eqn:Ed; [by vm_compute in Ed| |by vm_compute in Ed].
  apply (copy_kernelsu_sources_twice ["s"%string] ["k"%string]
           tree_with_stale_copy es ds Es).
  - by intros [r [=]].
  - by intros [r [=]].
  - exact Ed.
  - intros d Hd. vm_compute in Ed. injection Ed as <-. by vm_compute in Hd.
  - intros es' He. vm_compute in Es. injection Es as <-. by vm_compute in He.
Defined.


(** ** More on [main] *)

Lemma dtc_diverges_from_copy (k : path) :
  diverge (ksu_dst k) (dtc_makefile k).
Proof.
  by exists k, "drivers"%string, "scripts"%string, ["kernelsu"%string],
    ["dtc"; "Makefile"]%string.
Qed.

(** X13.  [main] stops at the first step that fails.  When the patch file
    exists and git, run in the kernel directory, returns a code other
    than zero, [main] exits with the
    patch diagnostic on the tree as git left it: nothing is copied and no
    build file is edited.  When the patch step went through and the
    KernelSU sources are not there, [main] exits with the message naming
    the source directory on the tree as the patch step left it: what git
    applied stays, the tree is otherwise untouched. *)
Theorem main_stops_at_first_failure
    (git_apply : path -> path -> node -> node * run_outcome)
    (k s b : path) (fs : node) :
  let pf := b ++ ["patches"; "rmx3265_build_fixes.patch"]%string in
  (forall es fs' rc out err,
     is_Some (fs_lookup pf fs) ->
     fs_lookup k fs = Some (Dir es) ->
     git_apply k pf fs = (fs', Exited rc out err) ->
     rc <> 0%Z ->
     main git_apply k s b fs = (fs', Raise (patch_failure pf out err))) /\
  (forall fs1,
     apply_optional_patch git_apply k pf fs = (fs1, Ok tt) ->
     (forall es, fs_lookup (ksu_src s) fs1 <> Some (Dir es)) ->
     main git_apply k s b fs =
       (fs1, Raise (SystemExit (str "KernelSU sources not found at: " ++
                                path_str (ksu_src s))))).
Proof.
  cbv zeta. split.
  - intros es fs' rc out err Hpf Hk Hg Hrc. unfold main. apply bind_raise.
    rewrite (apply_optional_patch_present git_apply _ _ _ Hpf), Hk, Hg.
    by destruct (Z.eqb_spec rc 0).
  - intros fs1 Hpatch Hsrc. unfold main. run_step Hpatch.
    apply bind_raise. by apply copy_kernelsu_sources_no_source.
Qed.

Lemma main_stops_at_first_failure_witness :
  main rejecting_git ["k"%string] ["s"%string] ["b"%string] kernel_with_patch =
    (kernel_with_patch,
     Raise (patch_failure sample_patch (str "Checking patch Makefile...")
              (str "error: patch failed"))) /\
  main accepting_git ["k"%string] ["s"%string] ["b"%string] kernel_with_patch =
    (kernel_with_patch,
     Raise (SystemExit (str "KernelSU sources not found at: " ++
                        path_str (ksu_src ["s"%string])))).
Proof.
  split.
  - destruct (fs_lookup ["k"%string] kernel_with_patch) as [[d|es]|] eqn:Ek;
      [by vm_compute in Ek| |by vm_compute in Ek].
    apply (proj1 (main_stops_at_first_failure rejecting_git
                    ["k"%string] ["s"%string] ["b"%string] kernel_with_patch)
             es kernel_with_patch 1%Z).
    + vm_compute. eauto.
    + exact Ek.
    + reflexivity.
    + discriminate.
  - apply (proj2 (main_stops_at_first_failure accepting_git
                    ["k"%string] ["s"%string] ["b"%string] kernel_with_patch)).
    + vm_compute; reflexivity.
    + intros es. by vm_compute.
Defined.

(** X14.  A complete run.  When the patch step went through, the KernelSU
    sources can be copied (source directory present, source and
    destination not inside one another, [drivers] present, destination
    absent or a directory) and the kernel tree has the three required
    files (the dtc Makefile a regular file or absent), [main] ends
    normally, and on the tree it leaves: [drivers/kernelsu] holds the
    copy, which the edits that follow do not touch, and the four build
    files hold what the edits make of the contents they had before the
    copy, which the copy did not touch. *)
Theorem main_succeeds
    (git_apply : path -> path -> node -> node * run_outcome)
    (k s b : path) (fs fs1 : node) (es ds : gmap string node)
    (dm dk dd : bytes) (dtc : option bytes) :
  apply_optional_patch git_apply k
    (b ++ ["patches"; "rmx3265_build_fixes.patch"]%string) fs = (fs1, Ok tt) ->
  fs_lookup (ksu_src s) fs1 = Some (Dir es) ->
  ¬ ksu_src s `prefix_of` ksu_dst k ->
  ¬ ksu_dst k `prefix_of` ksu_src s ->
  fs_lookup (k ++ ["drivers"%string]) fs1 = Some (Dir ds) ->
  (forall d, ds !! "kernelsu"%string <> Some (File d)) ->
  (forall es', es !! "Kconfig"%string <> Some (Dir es')) ->
  file_at (drivers_makefile k) fs1 = Some dm ->
  file_at (drivers_kconfig k) fs1 = Some dk ->
  file_at (defconfig_path k) fs1 = Some dd ->
  match dtc with
  | Some d => file_at (dtc_makefile k) fs1 = Some d
  | None => fs_lookup (dtc_makefile k) fs1 = None
  end ->
  exists fs3,
    main git_apply k s b fs = (fs3, Ok tt) /\
    fs_lookup (ksu_dst k) fs3 = Some (Dir (kconfig_normalised es)) /\
    file_at (drivers_makefile k) fs3 =
      Some (ensure_line_stored dm ksu_makefile_line (Some obj_anchor)) /\
    file_at (drivers_kconfig k) fs3 =
      Some (ensure_line_stored dk ksu_kconfig_line None) /\
    file_at (defconfig_path k) fs3 =
      Some (encode_utf8 (defconfig_after_run (text_of dd))) /\
    file_at (dtc_makefile k) fs3 = dtc_stored <$> dtc.
Proof.
  intros Hpatch Hsrc Hsd Hds Hpar Hnofile Hkc Hm Hk Hd Hdtc.
  destruct (copy_kernelsu_sources_run s k fs1 es ds Hsrc Hsd Hds Hpar Hnofile Hkc)
    as (fs2 & E2 & Hdst & Hfr).
  destruct (required_files_diverge k) as (D1 & D2 & D3).
  pose proof (dtc_diverges_from_copy k) as D4.
  assert (forall q, diverge (ksu_dst k) q -> file_at q fs2 = file_at q fs1)
    as Hfile by (intros q Hq; unfold file_at; by rewrite (Hfr q Hq)).
  rewrite <- (Hfile _ D1) in Hm. rewrite <- (Hfile _ D2) in Hk.
  rewrite <- (Hfile _ D3) in Hd.
  assert (match dtc with
          | Some d => file_at (dtc_makefile k) fs2 = Some d
          | None => fs_lookup (dtc_makefile k) fs2 = None
          end) as Hdtc2.
  { destruct dtc; [by rewrite (Hfile _ D4) | by rewrite (Hfr _ D4)]. }
  destruct (patch_kernel_tree_run k fs2 dm dk dd dtc Hm Hk Hd Hdtc2)
    as (fs3 & E3 & Fm & Fk & Fd & Fdtc).
  destruct (defconfig_after_run_no_cr (text_of dd)
              (text_of_no_cr dd)) as (C1 & C2 & _).
  rewrite (text_of_written _ C1) in Fd.
  rewrite (text_of_written _ C2) in Fd.
  fold (defconfig_after_run (text_of dd)) in Fd.
  exists fs3. split_and!; [|  |done..].
  - unfold main. run_step Hpatch. run_step E2. run_step E3. done.
  - pose proof (patch_kernel_tree_keeps k (ksu_dst k)
                  (diverge_sym _ _ D1) (diverge_sym _ _ D2)
                  (diverge_sym _ _ D3) (diverge_sym _ _ D4) fs2) as Hkeep.
    rewrite E3 in Hkeep. simpl in Hkeep. by rewrite Hkeep.
Qed.

Lemma main_succeeds_witness :
  exists es fs3,
    fs_lookup (ksu_src ["s"%string]) tree_ready = Some (Dir es) /\
    main accepting_git ["k"%string] ["s"%string] ["b"%string] tree_ready
      = (fs3, Ok tt) /\
    fs_lookup (ksu_dst ["k"%string]) fs3 = Some (Dir (kconfig_normalised es)) /\
    file_at (defconfig_path ["k"%string]) fs3 =
      Some (encode_utf8
              (defconfig_after_run (text_of (encode_utf8 (str "CONFIG_KSU=n"))))).
Proof.
  destruct (fs_lookup (ksu_src ["s"%string]) tree_ready)
    as [[d|es]|] eqn:Es; [by vm_compute in Es| |by vm_compute in Es].
  destruct (fs_lookup (["k"; "drivers"]%string) tree_ready)
    as [[d|ds]|] eqn:Ed; [by vm_compute in Ed| |by vm_compute in Ed].
  destruct (main_succeeds accepting_git ["k"%string] ["s"%string] ["b"%string]
              tree_ready tree_ready es ds (encode_utf8 three_rules)
              (encode_utf8 (str "menu")) (encode_utf8 (str "CONFIG_KSU=n")) None)
    as (fs3 & Hmain & Hdst & _ & _ & Hdef & _).
  - vm_compute; reflexivity.
  - exact Es.
  - by intros [r [=]].
  - by intros [r [=]].
  - exact Ed.
  - intros d Hd. vm_compute in Ed. injection Ed as <-. by vm_compute in Hd.
  - intros es' He. vm_compute in Es. injection Es as <-. by vm_compute in He.
  - vm_compute; reflexivity.
  - vm_compute; reflexivity.
  - vm_compute; reflexivity.
  - vm_compute; reflexivity.
  - exists es, fs3. split_and!; [reflexivity | exact Hmain | exact Hdst | exact Hdef].
Defined.


(** ** A directory where a file is expected *)

(** X15.  [Path.exists] does not tell a file from a directory.  With a
    directory at [drivers/Makefile] (the two other required paths being
    there, the dtc Makefile a regular file or absent) the checks of
    [patch_kernel_tree] pass, and the call fails only when
    [ensure_line_in_file] reads: with [IsADirectoryError] for that path,
    not with the "Missing" exit.  By then the dtc step has run: the dtc
    Makefile holds what that step makes of it, and no other file has
    changed. *)
Theorem patch_kernel_tree_directory_in_place (k : path) (fs : node)
    (es : gmap string node) (dtc : option bytes) :
  fs_lookup (drivers_makefile k) fs = Some (Dir es) ->
  is_Some (fs_lookup (drivers_kconfig k) fs) ->
  is_Some (fs_lookup (defconfig_path k) fs) ->
  match dtc with
  | Some d => file_at (dtc_makefile k) fs = Some d
  | None => fs_lookup (dtc_makefile k) fs = None
  end ->
  exists fs',
    patch_kernel_tree k fs =
      (fs', Raise (IsADirectoryError (drivers_makefile k))) /\
    file_at (dtc_makefile k) fs' = dtc_stored <$> dtc /\
    forall q, q <> dtc_makefile k -> file_at q fs' = file_at q fs.
Proof.
  intros Hm Hk Hd Hdtc.
  destruct (dtc_diverges k) as (D1 & _ & _).
  unfold patch_kernel_tree. cbv zeta.
  fold (drivers_makefile k) (drivers_kconfig k) (defconfig_path k)
    (dtc_makefile k).
  assert (is_Some (fs_lookup (drivers_makefile k) fs)) as Hm'
    by (rewrite Hm; eauto).
  run_step (path_present_run _ _ Hm'). simpl negb.
  run_step (when_false_run (raise (missing (drivers_makefile k))) fs).
  run_step (path_present_run _ _ Hk). simpl negb.
  run_step (when_false_run (raise (missing (drivers_kconfig k))) fs).
  run_step (path_present_run _ _ Hd). simpl negb.
  run_step (when_false_run (raise (missing (defconfig_path k))) fs).
  run_step (path_exists_run (dtc_makefile k) fs).
  (* the dtc step *)
  assert (exists fs0,
    when (bool_decide (is_Some (fs_lookup (dtc_makefile k) fs)))
      (dtc_text <- read_text (dtc_makefile k) ;;
       when (is_in (str "HOSTLDLIBS_dtc") dtc_text &&
             negb (is_in (str "HOSTLOADLIBES_dtc") dtc_text))
         (write_text (dtc_makefile k)
            (replace (str "HOSTLDLIBS_dtc") (str "HOSTLOADLIBES_dtc") dtc_text)))
      fs = (fs0, Ok tt) /\
    file_at (dtc_makefile k) fs0 = dtc_stored <$> dtc /\
    (forall q, q <> dtc_makefile k -> file_at q fs0 = file_at q fs) /\
    fs_lookup (drivers_makefile k) fs0 = Some (Dir es))
    as (fs0 & E0 & Hdtc0 & Hfr0 & Hm0).
  { destruct dtc as [d|].
    - rewrite (file_at_is_Some _ _ _ Hdtc). simpl when.
      run_step (read_text_run _ _ _ Hdtc).
      unfold dtc_stored. simpl fmap.
      destruct (_ && _).
      + simpl when.
        destruct (write_text_run (dtc_makefile k) fs d
                    (replace (str "HOSTLDLIBS_dtc") (str "HOSTLOADLIBES_dtc")
                       (text_of d)) Hdtc) as (fs0 & E & ? & ?).
        exists fs0. split_and!; [done..|].
        pose proof (write_text_diverge (dtc_makefile k) (drivers_makefile k)
                      (replace (str "HOSTLDLIBS_dtc") (str "HOSTLOADLIBES_dtc")
                         (text_of d)) fs (diverge_sym _ _ D1)) as Hw.
        rewrite E in Hw. simpl in Hw. by rewrite Hw.
      + exists fs. done.
    - rewrite Hdtc. rewrite bool_decide_eq_false_2 by (by intros [? ?]).
      exists fs. split_and!; [done| |done..].
      simpl. by apply file_at_None. }
  run_step E0. exists fs0. split_and!; [|done..].
  apply bind_raise. unfold ensure_line_in_file. apply bind_raise.
  unfold read_text. by rewrite Hm0.
Qed.

Lemma patch_kernel_tree_directory_in_place_witness :
  exists fs',
    patch_kernel_tree ["k"%string] tree_with_makefile_dir =
      (fs', Raise (IsADirectoryError (drivers_makefile ["k"%string]))) /\
    file_at (dtc_makefile ["k"%string]) fs' =
      dtc_stored <$> Some (encode_utf8 (str "HOSTLDLIBS_dtc := -lyaml" ++ [nl])) /\
    forall q, q <> dtc_makefile ["k"%string] ->
              file_at q fs' = file_at q tree_with_makefile_dir.
Proof.
  destruct (fs_lookup (drivers_makefile ["k"%string]) tree_with_makefile_dir)
    as [[d|es]|] eqn:Em; [by vm_compute in Em| |by vm_compute in Em].
  apply (patch_kernel_tree_directory_in_place ["k"%string]
           tree_with_makefile_dir es
           (Some (encode_utf8 (str "HOSTLDLIBS_dtc := -lyaml" ++ [nl])))).
  - exact Em.
  - vm_compute. eauto.
  - vm_compute. eauto.
  - vm_compute; reflexivity.
Defined.
